(** * cricket_player_rag: the fetch-merge-render pipeline

    A shallow embedding of the pure and the stateful parts of
    [build_ipl_auction_dataset.py] and [build_free_source_pdfs.py],
    followed by the properties the specification states about them.

    Conventions of the embedding:
    - a Python [str] is the list of its Unicode code points ([N]);
    - a Python [dict] is an insertion-ordered association list with
      unique keys ([PyDict]);
    - a Python [float] used only in comparisons and products (widths,
      sleep durations) is a rational ([Q]);
    - functions of third-party libraries (BeautifulSoup, reportlab's
      [stringWidth], the Unicode database behind [str.lower],
      [unicodedata.normalize], [str.isprintable]) are parameters;
    - network and clock effects are explicit state passing over a
      scripted world. *)

From Stdlib Require Import List NArith ZArith QArith Bool Lia String Ascii.
From Stdlib Require Import DecimalString Lqa Sorted.
Import ListNotations.

Set Implicit Arguments.

(** ** Python strings *)

Module Py.

Definition char := N.
Definition str := list char.

(** A string literal of the source, as code points (ASCII only). *)
Definition lit (s : string) : str :=
  List.map N_of_ascii (list_ascii_of_string s).

Definition space : char := 32%N.
Definition newline : char := 10%N.

Definition char_eqb (a b : char) : bool := N.eqb a b.

Fixpoint str_eqb (a b : str) : bool :=
  match a, b with
  | [], [] => true
  | x :: a', y :: b' => char_eqb x y && str_eqb a' b'
  | _, _ => false
  end.

(** [str.isspace] on one code point; also the class [\s] of [re] on
    [str] patterns and the set removed by [str.strip()]. *)
Definition isspace (c : char) : bool :=
  ((9 <=? c) && (c <=? 13) || (28 <=? c) && (c <=? 32)
   || (c =? 133) || (c =? 160) || (c =? 5760)
   || (8192 <=? c) && (c <=? 8202)
   || (c =? 8232) || (c =? 8233) || (c =? 8239) || (c =? 8287)
   || (c =? 12288))%N.

Definition is_ascii (c : char) : bool := (c <? 128)%N.

(** [sep.join(parts)] *)
Fixpoint join (sep : str) (parts : list str) : str :=
  match parts with
  | [] => []
  | [p] => p
  | p :: rest => p ++ sep ++ join sep rest
  end.

(** [s.split()]: the maximal runs of non-whitespace, in order.  [cur] is
    the word being scanned, most recent character first. *)
Fixpoint split_from (cur : str) (s : str) : list str :=
  match s with
  | [] => match cur with [] => [] | _ => [rev cur] end
  | c :: r =>
      if isspace c then
        match cur with
        | [] => split_from [] r
        | _ => rev cur :: split_from [] r
        end
      else split_from (c :: cur) r
  end.

Definition split (s : str) : list str := split_from [] s.

(** Free of whitespace. *)
Definition no_space (w : str) : Prop :=
  forallb (fun c => negb (isspace c)) w = true.

(** A word: non-empty and free of whitespace. *)
Definition is_word (w : str) : Prop := w <> [] /\ no_space w.

(** Whitespace-collapsed form of a text: its words, one space apart
    ([' '.join(t.split())]). *)
Definition collapse_whitespace (t : str) : str := join [space] (split t).

(** Empty, or starting with a character that is not whitespace. *)
Definition starts_clean (s : str) : Prop :=
  match s with
  | [] => True
  | c :: _ => isspace c = false
  end.

(** Unicode category Cc: the C0 controls, DEL and the C1 controls. *)
Definition is_control (c : char) : bool :=
  ((c <? 32) || ((127 <=? c) && (c <=? 159)))%N.

(** [s.lstrip()], [s.rstrip()], [s.strip()] *)
Fixpoint lstrip (s : str) : str :=
  match s with
  | [] => []
  | c :: r => if isspace c then lstrip r else s
  end.

Definition rstrip (s : str) : str := rev (lstrip (rev s)).

Definition strip (s : str) : str := rstrip (lstrip s).

(** [re.sub(r"\s+", " ", s)]: every maximal whitespace run becomes one
    space.  [in_run] tells that the previous character was whitespace. *)
Fixpoint sub_ws_from (in_run : bool) (s : str) : str :=
  match s with
  | [] => []
  | c :: r =>
      if isspace c then
        if in_run then sub_ws_from true r else space :: sub_ws_from true r
      else c :: sub_ws_from false r
  end.

Definition sub_ws (s : str) : str := sub_ws_from false s.

(** [needle in hay] *)
Fixpoint startswith (s prefix : str) : bool :=
  match prefix, s with
  | [], _ => true
  | p :: prefix', c :: s' => char_eqb c p && startswith s' prefix'
  | _ :: _, [] => false
  end.

Fixpoint contains (hay needle : str) : bool :=
  startswith hay needle
  || match hay with
     | [] => false
     | _ :: hay' => contains hay' needle
     end.

(** ASCII letters, digits and case mapping. *)
Definition is_upper_ascii (c : char) : bool := ((65 <=? c) && (c <=? 90))%N.
Definition is_lower_ascii (c : char) : bool := ((97 <=? c) && (c <=? 122))%N.
Definition is_digit_ascii (c : char) : bool := ((48 <=? c) && (c <=? 57))%N.

Definition lower_ascii (c : char) : char :=
  if is_upper_ascii c then (c + 32)%N else c.

End Py.

Import Py.

(** The parts of the Unicode character database the source reaches
    through [str.lower], [unicodedata.normalize("NFKD", _)],
    [str.isprintable] and the digit class of [re] and [int].  On ASCII
    these are fixed below; outside ASCII they are the database's. *)
Record unicode_db := {
  lower_nonascii : str -> str;
  nfkd_nonascii : str -> str;
  isprintable_nonascii : char -> bool;
  decimal_nonascii : char -> option N
}.

(** A database that knows nothing outside ASCII, to run the model. *)
Definition ascii_db : unicode_db :=
  {| lower_nonascii := fun s => s;
     nfkd_nonascii := fun s => s;
     isprintable_nonascii := fun _ => false;
     decimal_nonascii := fun _ => None |}.

(** ** Word wrap ([wrap_text], [draw_wrapped]) *)

Section Wrap.

(** [c.stringWidth(_, "Helvetica", 10)] of reportlab. *)
Variable stringWidth : str -> Q.

Definition fits (max_width : Q) (s : str) : bool :=
  Qle_bool (stringWidth s) max_width.

(** The loop of [wrap_text]: [lines] and [current] are the source's
    variables, [ws] the words still to place. *)
Fixpoint wrap_loop (max_width : Q) (lines : list str) (current : str)
  (ws : list str) : list str :=
  match ws with
  | [] => lines ++ [current]
  | w :: ws' =>
      let candidate := current ++ [space] ++ w in
      if fits max_width candidate
      then wrap_loop max_width lines candidate ws'
      else wrap_loop max_width (lines ++ [current]) w ws'
  end.

Definition wrap_text (text : str) (max_width : Q) : list str :=
  match split text with
  | [] => [[]]
  | w0 :: ws => wrap_loop max_width [] w0 ws
  end.

(** The canvas of [draw_wrapped] is the list of [drawString] calls, in
    order; the function returns the new [y]. *)
Record draw_string := { at_x : Q; at_y : Q; drawn : str }.

Fixpoint draw_loop (width x y : Q) (canvas : list draw_string)
  (line : str) (ws : list str) : list draw_string * Q :=
  match ws with
  | [] => (canvas ++ [{| at_x := x; at_y := y; drawn := line |}], y - 14)
  | w :: ws' =>
      let cand := line ++ [space] ++ w in
      if fits width cand
      then draw_loop width x y canvas cand ws'
      else draw_loop width x (y - 14)
             (canvas ++ [{| at_x := x; at_y := y; drawn := line |}]) w ws'
  end.

Definition draw_wrapped (canvas : list draw_string) (text : str)
  (x y width : Q) : list draw_string * Q :=
  match split text with
  | [] => (canvas, y)
  | w0 :: ws => draw_loop width x y canvas w0 ws
  end.

(** Every extension of a line by one more word was accepted by the
    width test. *)
Definition extensions_fit (max_width : Q) (g : list str) : Prop :=
  forall j, (2 <= j <= List.length g)%nat ->
            fits max_width (join [space] (firstn j g)) = true.

(** The lines, as groups of consecutive words, are those of greedy
    wrapping: a group is not empty, each word after its first was
    appended because the extended line fitted, and the first word of
    the next group did not fit behind it. *)
Fixpoint greedy_groups (max_width : Q) (gs : list (list str)) : Prop :=
  match gs with
  | [] => True
  | g :: rest =>
      g <> [] /\ extensions_fit max_width g
      /\ match rest with
         | (w :: _) :: _ => fits max_width (join [space] g ++ [space] ++ w) = false
         | _ => True
         end
      /\ greedy_groups max_width rest
  end.

End Wrap.

(** ** Dictionaries *)

Module PyDict.

Section Dict.

Variable V : Type.

Definition dict := list (str * V).

(** [d.get(k)]; [None] when [k not in d]. *)
Fixpoint get (d : dict) (k : str) : option V :=
  match d with
  | [] => None
  | (k', v) :: r => if str_eqb k' k then Some v else get r k
  end.

(** [k in d] *)
Definition mem (d : dict) (k : str) : bool :=
  match get d k with Some _ => true | None => false end.

(** [d[k] = v]: an existing key keeps its position, a new one goes last. *)
Fixpoint set (d : dict) (k : str) (v : V) : dict :=
  match d with
  | [] => [(k, v)]
  | (k', v') :: r =>
      if str_eqb k' k then (k', v) :: r else (k', v') :: set r k v
  end.

(** [{**d, **newer}] *)
Definition merge (d newer : dict) : dict :=
  fold_left (fun acc kv => set acc (fst kv) (snd kv)) newer d.

Definition keys (d : dict) : list str := List.map fst d.

End Dict.

End PyDict.

Import PyDict.

(** ** Text sanitizer, infobox lookups, derived fields *)

Section Fields.

Variable U : unicode_db.

(** [s.lower()] *)
Definition lower (s : str) : str :=
  if forallb is_ascii s then List.map lower_ascii s else lower_nonascii U s.

(** [unicodedata.normalize("NFKD", s)] *)
Definition normalize_NFKD (s : str) : str :=
  if forallb is_ascii s then s else nfkd_nonascii U s.

(** [ch.isprintable()] *)
Definition isprintable (c : char) : bool :=
  if is_ascii c then ((32 <=? c) && (c <=? 126))%N
  else isprintable_nonascii U c.

(** The value of a character of the class [\d], as [int] reads it. *)
Definition decimal_value (c : char) : option N :=
  if is_ascii c then (if is_digit_ascii c then Some (c - 48)%N else None)
  else decimal_nonascii U c.

(** The generator of [sanitize_for_pdf]:
    [ch == "\n" or (ord(ch) >= 32 and ch.isprintable())]. *)
Definition keep_char (ch : char) : bool :=
  char_eqb ch newline || ((32 <=? ch)%N && isprintable ch).

(** [t.encode("ascii", "ignore").decode("ascii")] *)
Definition encode_ascii_ignore (t : str) : str := filter is_ascii t.

Definition sanitize_for_pdf (text : str) : str :=
  match text with
  | [] => []
  | _ =>
      let t := normalize_NFKD text in
      let t := filter keep_char t in
      let t := encode_ascii_ignore t in
      strip (sub_ws t)
  end.

(** The first [re.sub] of [clean] deletes every match of the pattern
    [r"\[[0-9]+\]"].  [citation_len s] is the length of the match of the
    pattern at the head of [s]. *)
Fixpoint leading_digits (s : str) : nat :=
  match s with
  | c :: r => if is_digit_ascii c then S (leading_digits r) else O
  | [] => O
  end.

Definition citation_len (s : str) : option nat :=
  match s with
  | c :: r =>
      if char_eqb c 91%N then
        match leading_digits r with
        | O => None
        | S n =>
            match nth_error r (S n) with
            | Some c' => if char_eqb c' 93%N then Some (S n + 2)%nat else None
            | None => None
            end
        end
      else None
  | [] => None
  end.

(** [skip] counts the characters of the current match still to drop. *)
Fixpoint sub_citations_from (skip : nat) (s : str) : str :=
  match s with
  | [] => []
  | c :: r =>
      match skip with
      | S k => sub_citations_from k r
      | O =>
          match citation_len s with
          | Some n => sub_citations_from (n - 1) r
          | None => c :: sub_citations_from O r
          end
      end
  end.

Definition clean (v : str) : str :=
  let v := sub_citations_from O v in
  let v := strip (sub_ws v) in
  sanitize_for_pdf v.

(** Truth value of a string: non-empty. *)
Definition truthy (s : str) : bool :=
  match s with [] => false | _ => true end.

(** [a or b] on strings *)
Definition str_or (a b : str) : str := if truthy a then a else b.

(** [d.get(k, '')] *)
Definition get_or_empty (d : dict str) (k : str) : str :=
  match get d k with Some v => v | None => [] end.

(** First loop of [find_value]: exact keys, in the order of [keys]. *)
Fixpoint find_exact (infobox : dict str) (keys : list str) : option str :=
  match keys with
  | [] => None
  | k :: ks =>
      match get infobox k with
      | Some v => if truthy v then Some v else find_exact infobox ks
      | None => find_exact infobox ks
      end
  end.

(** Second loop of [find_value]: the items in insertion order, a key
    matching when the lowered form of some candidate occurs in it. *)
Fixpoint find_relaxed (items : dict str) (keys : list str) : option str :=
  match items with
  | [] => None
  | (actual_key, v) :: r =>
      let ak := lower actual_key in
      if existsb (fun k => contains ak (lower k)) keys && truthy v
      then Some v
      else find_relaxed r keys
  end.

(** The key [actual_key] matches a candidate under relaxed matching. *)
Definition relaxed_match (keys : list str) (actual_key : str) : bool :=
  existsb (fun k => contains (lower actual_key) (lower k)) keys.

Definition find_value (infobox : dict str) (keys : list str) : str :=
  match find_exact infobox keys with
  | Some v => v
  | None =>
      match find_relaxed infobox keys with
      | Some v => v
      | None => []
      end
  end.

(** [re.search(r"(\d{4})", s)]: the values of the four digits of the
    leftmost match. *)
Definition four_digits (s : str) : option (N * N * N * N) :=
  match s with
  | a :: b :: c :: d :: _ =>
      match decimal_value a, decimal_value b, decimal_value c,
            decimal_value d with
      | Some x, Some y, Some z, Some t => Some (x, y, z, t)
      | _, _, _, _ => None
      end
  | _ => None
  end.

Fixpoint search_d4 (s : str) : option (N * N * N * N) :=
  match four_digits s with
  | Some m => Some m
  | None => match s with [] => None | _ :: r => search_d4 r end
  end.

(** [int(m.group(1))] *)
Definition int_of_group (m : N * N * N * N) : Z :=
  let '(x, y, z, t) := m in
  (1000 * Z.of_N x + 100 * Z.of_N y + 10 * Z.of_N z + Z.of_N t)%Z.

(** [str(n)] for an [int] *)
Definition str_of_int (n : Z) : str :=
  lit (NilZero.string_of_int (Z.to_int n)).

(** [now] is [dt.datetime.utcnow().year]. *)
Definition extract_age_from_born (now : Z) (born_text : str) : str :=
  match search_d4 born_text with
  | None => []
  | Some m =>
      let year := int_of_group m in
      if ((year <? 1900) || (now <? year))%Z then []
      else str_of_int (now - year)
  end.

(** The text [pre], then the four ASCII digits [d1 d2 d3 d4], then
    [post]. *)
Definition born_text_with_year (pre : str) (d1 d2 d3 d4 : N) (post : str) : str :=
  pre ++ [48 + d1; 48 + d2; 48 + d3; 48 + d4]%N ++ post.

Record basic_fields := {
  age : str;
  runs : str;
  wickets : str;
  matches : str;
  role : str;
  country : str;
  ipl_team : str
}.

Definition derive_basic_fields (now : Z) (infobox : dict str)
  (ipl_team_hint : str) : basic_fields :=
  let born := get_or_empty infobox (lit "Born") in
  let age := extract_age_from_born now born in
  let runs :=
    find_value infobox [lit "Runs"; lit "Runs scored"; lit "IPL runs"] in
  let wickets := find_value infobox [lit "Wickets"; lit "IPL wickets"] in
  let matches :=
    find_value infobox
      [lit "Matches"; lit "No. of IPL matches"; lit "IPL matches"] in
  let role := get_or_empty infobox (lit "Role") in
  let country := get_or_empty infobox (lit "National side") in
  let country :=
    if truthy country then country else find_value infobox [lit "Country"] in
  let current_team :=
    str_or ipl_team_hint
      (find_value infobox [lit "Current team"; lit "Team"]) in
  {| age := age; runs := runs; wickets := wickets; matches := matches;
     role := role; country := country; ipl_team := current_team |}.

End Fields.

(** [value] is what the infobox gives for the candidate keys: the value
    of the first candidate key that holds a non-empty one; when no
    candidate key holds one, the first non-empty value, in the order of
    the infobox, under a key that contains a candidate, letter case
    apart; and the empty string when there is no such key either. *)
Definition infobox_value (U : unicode_db) (infobox : dict str)
  (candidates : list str) (value : str) : Prop :=
  (forall before k after v,
     candidates = before ++ k :: after ->
     PyDict.get infobox k = Some v -> v <> [] ->
     (forall k', In k' before ->
        PyDict.get infobox k' = None \/ PyDict.get infobox k' = Some []) ->
     value = v)
  /\ ((forall k, In k candidates ->
         PyDict.get infobox k = None \/ PyDict.get infobox k = Some []) ->
      (forall before k after v,
         infobox = before ++ (k, v) :: after ->
         relaxed_match U candidates k = true -> v <> [] ->
         (forall k' v', In (k', v') before ->
            relaxed_match U candidates k' = false \/ v' = []) ->
         value = v)
      /\ ((forall k v, In (k, v) infobox -> v <> [] ->
                       relaxed_match U candidates k = false) ->
          value = [])).

(** ** Rate-limited resilient client ([get], [get_json]) *)

#[warnings="-register-all"] Inductive exn :=
| HTTPError (status : Z)
| ConnectionError
| JSONDecodeError
| IndexError
| RuntimeError (last_exc : option exn).

Inductive result (A : Type) :=
| Ok (a : A)
| Raise (e : exn).

Arguments Ok {A} a.
Arguments Raise {A} e.

Record response := { status_code : Z; text : str }.

(** What the remote end does with one request: it answers after [took]
    seconds, or the transport fails. *)
Inductive reply :=
| Answers (took : Q) (r : response)
| Fails (took : Q).

Inductive event :=
| Slept (seconds : Q)
| Requested.

(** The world of one process: the monotonic clock, the global
    [_LAST_REQUEST_TS], the replies still to come and what happened. *)
Record world := {
  clock : Q;
  last_request_ts : Q;
  script : list reply;
  trace : list event
}.

(** [time.sleep(d)] *)
Definition sleep (d : Q) (w : world) : world :=
  {| clock := clock w + d;
     last_request_ts := last_request_ts w;
     script := script w;
     trace := trace w ++ [Slept d] |}.

(** [SESSION.get(url, ...)]: consumes the next reply; a world with no
    reply left refuses the connection. *)
Definition session_get (w : world) : option response * world :=
  match script w with
  | [] =>
      (None,
       {| clock := clock w; last_request_ts := last_request_ts w;
          script := []; trace := trace w ++ [Requested] |})
  | Answers took r :: rest =>
      (Some r,
       {| clock := clock w + took; last_request_ts := last_request_ts w;
          script := rest; trace := trace w ++ [Requested] |})
  | Fails took :: rest =>
      (None,
       {| clock := clock w + took; last_request_ts := last_request_ts w;
          script := rest; trace := trace w ++ [Requested] |})
  end.

(** [_LAST_REQUEST_TS = time.monotonic()] *)
Definition stamp (w : world) : world :=
  {| clock := clock w; last_request_ts := clock w;
     script := script w; trace := trace w |}.

Definition status_in (s : Z) (l : list Z) : bool := existsb (Z.eqb s) l.

(** The statuses for which [raise_for_status] raises: 400 to 599. *)
Definition is_error_status (s : Z) : bool := ((400 <=? s) && (s <? 600))%Z.

(** [x > 0] on floats *)
Definition Qpositive (x : Q) : bool := negb (Qle_bool x 0).

(** [REQUEST_INTERVAL_SECONDS = max(0.2, args.request_interval)] *)
Definition request_interval (arg : Q) : Q :=
  if Qle_bool arg (2 # 10) then (2 # 10) else arg.

(** [r.raise_for_status()] followed by [return r]. *)
Definition raise_for_status (r : response) : result response :=
  if is_error_status (status_code r)
  then Raise (HTTPError (status_code r))
  else Ok r.

(** The loop of [get]; [todo] is the number of values of [attempt] that
    [range(retries)] still has to give. *)
Fixpoint get_from (interval : Q) (retries : Z) (todo : nat) (attempt : Z)
  (w : world) : result response * world :=
  match todo with
  | O => (Raise (RuntimeError None), w)
  | S todo' =>
      let now := clock w in
      let wait := interval - (now - last_request_ts w) in
      let w := if Qpositive wait then sleep wait w else w in
      match session_get w with
      | (None, w) => (Raise ConnectionError, w)
      | (Some r, w) =>
          let w := stamp w in
          if status_in (status_code r) [403; 429; 500; 502; 503; 504]%Z
          then
            if (attempt <? retries - 1)%Z
            then
              get_from interval retries todo' (attempt + 1)%Z
                (sleep (inject_Z (attempt + 1) * interval) w)
            else (raise_for_status r, w)
          else (raise_for_status r, w)
      end
  end.

Definition get (interval : Q) (w : world) : result response * world :=
  get_from interval 4%Z 4%nat 0%Z w.

Section GetJson.

(** [r.json()]: the decoded payload, or nothing when decoding raises. *)
Variable J : Type.
Variable json : str -> option J.

(** [1.5 * (attempt + 1)] *)
Definition backoff_json (attempt : Z) : Q := (15 # 10) * inject_Z (attempt + 1).

Fixpoint get_json_from (todo : nat) (attempt : Z) (last_exc : option exn)
  (w : world) : result J * world :=
  match todo with
  | O => (Raise (RuntimeError last_exc), w)
  | S todo' =>
      match session_get w with
      | (None, w) =>
          get_json_from todo' (attempt + 1)%Z (Some ConnectionError)
            (sleep (backoff_json attempt) w)
      | (Some r, w) =>
          if status_in (status_code r) [429; 500; 502; 503; 504]%Z
          then
            get_json_from todo' (attempt + 1)%Z last_exc
              (sleep (backoff_json attempt) w)
          else
            match raise_for_status r with
            | Raise exc =>
                get_json_from todo' (attempt + 1)%Z (Some exc)
                  (sleep (backoff_json attempt) w)
            | Ok r =>
                match json (text r) with
                | Some payload => (Ok payload, w)
                | None =>
                    get_json_from todo' (attempt + 1)%Z (Some JSONDecodeError)
                      (sleep (backoff_json attempt) w)
                end
            end
      end
  end.

Definition get_json (w : world) : result J * world :=
  get_json_from 3%nat 0%Z None w.

End GetJson.

(** The event is a request. *)
Definition is_request (e : event) : bool :=
  match e with Requested => true | Slept _ => false end.

(** The number of requests the world has seen so far. *)
Definition requests_made (w : world) : nat :=
  List.length (filter is_request (trace w)).

(** The throttle at the head of an attempt of [get]. *)
Definition throttle (interval : Q) (w : world) : world :=
  let wait := (interval - (clock w - last_request_ts w)) in
  if Qpositive wait then sleep wait w else w.

(** The world once the request has been answered after [took] seconds,
    the replies [rest] still to come. *)
Definition answered (took : Q) (rest : list reply) (w : world) : world :=
  {| clock := (clock w + took); last_request_ts := last_request_ts w;
     script := rest; trace := trace w ++ [Requested] |}.

(** ** Auction listing extractor ([extract_players_from_espn_html]) *)

Module Player.
(** The dictionary [{"name": ..., "ipl_team": ...}] of one listing entry. *)
Record t := { name : str; ipl_team : str }.
End Player.

Definition quote : char := 34%N.
Definition colon : char := 58%N.

(** The rest of [s] after the literal [p], when [s] starts with it. *)
Fixpoint after_prefix (p s : str) : option str :=
  match p, s with
  | [], _ => Some s
  | x :: p', c :: s' => if char_eqb c x then after_prefix p' s' else None
  | _ :: _, [] => None
  end.

(** The characters of [s] before its next double quote, and the rest
    after that quote. *)
Fixpoint until_quote (s : str) : option (str * str) :=
  match s with
  | [] => None
  | c :: r =>
      if char_eqb c quote then Some ([], r)
      else
        match until_quote r with
        | Some (cap, rest) => Some (c :: cap, rest)
        | None => None
        end
  end.

(** The tail of both patterns at the head of [s]: whitespace, a colon,
    whitespace, then a non-empty group between double quotes that holds
    no double quote.  Gives the group and the rest. *)
Definition match_value (s : str) : option (str * str) :=
  match lstrip s with
  | c :: r =>
      if char_eqb c colon then
        match lstrip r with
        | q :: r' =>
            if char_eqb q quote then
              match until_quote r' with
              | Some (c1 :: cap, rest) => Some (c1 :: cap, rest)
              | _ => None
              end
            else None
        | [] => None
        end
      else None
  | [] => None
  end.

(** A quoted key followed by [match_value]; [keys] are the alternatives
    of the key, in the order the pattern tries them. *)
Fixpoint match_field (keys : list str) (s : str) : option (str * str) :=
  match keys with
  | [] => None
  | k :: ks =>
      match after_prefix (quote :: k ++ [quote]) s with
      | Some r =>
          match match_value r with
          | Some m => Some m
          | None => match_field ks s
          end
      | None => match_field ks s
      end
  end.

(** [re.findall(pattern, s)] for such a pattern: the groups of the
    leftmost non-overlapping matches.  [skip] counts the characters of
    the last match still to pass. *)
Fixpoint findall_from (keys : list str) (skip : nat) (s : str) : list str :=
  match s with
  | [] => []
  | _ :: r =>
      match skip with
      | S k => findall_from keys k r
      | O =>
          match match_field keys s with
          | Some (cap, rest) =>
              cap :: findall_from keys (List.length s - List.length rest - 1) r
          | None => findall_from keys O r
          end
      end
  end.

(** [re.findall] of the name pattern: the key [name] between double
    quotes, then that tail. *)
Definition findall_name (html : str) : list str :=
  findall_from [lit "name"] O html.

(** [re.findall] of the team pattern: the key [team] or [teamName]
    between double quotes, then that tail. *)
Definition findall_team (html : str) : list str :=
  findall_from [lit "teamName"; lit "team"] O html.

(** The class [[A-Za-z.' -]] *)
Definition name_char (c : char) : bool :=
  is_upper_ascii c || is_lower_ascii c
  || char_eqb c 46%N || char_eqb c 39%N || char_eqb c space
  || char_eqb c 45%N.

(** [$] also matches before a newline that ends the string. *)
Definition drop_final_newline (s : str) : str :=
  match rev s with
  | c :: r => if char_eqb c newline then rev r else s
  | [] => s
  end.

(** [re.match(r"^[A-Z][A-Za-z.' -]{2,}$", cell)] *)
Definition name_shaped (cell : str) : bool :=
  match cell with
  | [] => false
  | c :: r =>
      let body := drop_final_newline r in
      is_upper_ascii c && (2 <=? List.length body)%nat && forallb name_char body
  end.

(** Order of [str] values: by code points, a proper prefix first. *)
Fixpoint str_ltb (a b : str) : bool :=
  match a, b with
  | [], [] => false
  | [], _ :: _ => true
  | _ :: _, [] => false
  | x :: a', y :: b' =>
      if (x <? y)%N then true
      else if (y <? x)%N then false
      else str_ltb a' b'
  end.

(** The strict order as a relation. *)
Definition str_lt (a b : str) : Prop := str_ltb a b = true.

Fixpoint insert_sorted (x : str) (l : list str) : list str :=
  match l with
  | [] => [x]
  | y :: r =>
      if str_ltb x y then x :: l
      else if str_eqb x y then l
      else y :: insert_sorted x r
  end.

(** [sorted(set(l))]: the distinct elements of [l], ascending. *)
Definition sorted_set (l : list str) : list str :=
  fold_right insert_sorted [] l.

(** [l1] is [l2] with some elements left out, the order kept. *)
Inductive subsequence (A : Type) : list A -> list A -> Prop :=
| sub_nil : subsequence [] []
| sub_skip x l1 l2 : subsequence l1 l2 -> subsequence l1 (x :: l2)
| sub_keep x l1 l2 : subsequence l1 l2 -> subsequence (x :: l1) (x :: l2).

Section Listing.

Variable U : unicode_db.

(** BeautifulSoup: for every [tr] of [soup.select("tr")], in document
    order, [[td.get_text(" ", strip=True) for td in row.select("td")]]. *)
Variable soup_rows : str -> list (list str).

(** [n.lower().startswith(("ipl", "auction"))] *)
Definition noise (n : str) : bool :=
  let l := lower U n in
  startswith l (lit "ipl") || startswith l (lit "auction").

(** The first heuristic: name fragments of script payloads. *)
Definition script_players (html : str) : list Player.t :=
  let name_candidates := sorted_set (findall_name html) in
  match name_candidates with
  | [] => []
  | _ =>
      flat_map
        (fun n =>
           if (2 <=? List.length (split n))%nat && negb (noise n)
           then [{| Player.name := strip n; Player.ipl_team := [] |}]
           else [])
        name_candidates
  end.

(** The second heuristic: one name-shaped cell per table row. *)
Definition row_player (tds : list str) : list Player.t :=
  match tds with
  | [] => []
  | _ =>
      match
        find (fun cell => name_shaped cell
                          && (List.length (split cell) <=? 4)%nat) tds
      with
      | Some maybe_name =>
          [{| Player.name := maybe_name; Player.ipl_team := [] |}]
      | None => []
      end
  end.

Definition table_players (html : str) : list Player.t :=
  flat_map row_player (soup_rows html).

(** The key of the final loop: [p["name"].strip().lower()] *)
Definition dedup_key (p : Player.t) : str := lower U (strip (Player.name p)).

Definition in_seen (k : str) (seen : list str) : bool :=
  existsb (str_eqb k) seen.

(** The final loop; [seen] is the set of keys met so far. *)
Fixpoint deduplicate (seen : list str) (players : list Player.t)
  : list Player.t :=
  match players with
  | [] => []
  | p :: rest =>
      let k := dedup_key p in
      if truthy k && negb (in_seen k seen)
      then p :: deduplicate (k :: seen) rest
      else deduplicate seen rest
  end.

(** The candidate list [players] before the final loop. *)
Definition candidate_players (html : str) : list Player.t :=
  let players := script_players html in
  match players with
  | [] => table_players html
  | _ => players
  end.

Definition extract_players_from_espn_html (html : str) : list Player.t :=
  let team_candidates := findall_team html in
  deduplicate [] (candidate_players html).

End Listing.

(** ** Statistics-table extractor ([fetch_espn_statsguru_summary]) *)

(** One [tr]: the texts [get_text(" ", strip=True)] of its [th] and of
    its [td] elements. *)
Record table_row := { th_texts : list str; td_texts : list str }.

Section Statsguru.

Variable U : unicode_db.

(** BeautifulSoup: for every table of [soup.select("table.engineTable")]
    its rows [table.select("tr")]. *)
Variable soup_engine_tables : str -> list (list table_row).

(** [{headers[i]: tds[i] for i in indices}] *)
Fixpoint stat_columns (headers tds : list str) (indices : list nat)
  (acc : dict str) : result (dict str) :=
  match indices with
  | [] => Ok acc
  | i :: rest =>
      match nth_error headers i, nth_error tds i with
      | Some h, Some v => stat_columns headers tds rest (set acc h v)
      | _, _ => Raise IndexError
      end
  end.

(** [fmt] is skipped: [not fmt or fmt.lower() in {"span", "overall"}] *)
Definition skipped_format (fmt : str) : bool :=
  negb (truthy fmt)
  || existsb (str_eqb (lower U fmt)) [lit "span"; lit "overall"].

(** The loop over [rows[1:]] *)
Fixpoint scan_rows (headers : list str) (rows : list table_row)
  (out : dict (dict str)) : result (dict (dict str)) :=
  match rows with
  | [] => Ok out
  | row :: rest =>
      let tds := List.map (clean U) (td_texts row) in
      if negb (List.length tds =? List.length headers)%nat
      then scan_rows headers rest out
      else
        match nth_error tds 0 with
        | None => Raise IndexError
        | Some fmt =>
            if skipped_format fmt then scan_rows headers rest out
            else
              match
                stat_columns headers tds
                  (seq 1 (List.length headers - 1)) []
              with
              | Raise e => Raise e
              | Ok columns => scan_rows headers rest (set out fmt columns)
              end
        end
  end.

(** The loop over [tables] *)
Fixpoint scan_tables (tables : list (list table_row))
  : result (dict (dict str)) :=
  match tables with
  | [] => Ok []
  | rows :: more =>
      if (List.length rows <? 2)%nat then scan_tables more
      else
        match rows with
        | [] => Raise IndexError
        | header_row :: data =>
            let headers := List.map (clean U) (th_texts header_row) in
            if negb (existsb (str_eqb (lit "Mat")) headers)
            then scan_tables more
            else
              match scan_rows headers data [] with
              | Raise e => Raise e
              | Ok [] => scan_tables more
              | Ok out => Ok out
              end
        end
  end.

(** A data row the loop uses: as many cells as headers, and a leading
    format cell that is not skipped. *)
Definition usable_row (headers : list str) (row : table_row) : bool :=
  let tds := List.map (clean U) (td_texts row) in
  (List.length tds =? List.length headers)%nat
  && match tds with
     | fmt :: _ => negb (skipped_format fmt)
     | [] => false
     end.

(** A table the loop returns from: a header row with a [Mat] column and
    at least one usable data row. *)
Definition usable_table (rows : list table_row) : bool :=
  match rows with
  | [] => false
  | header_row :: data =>
      let headers := List.map (clean U) (th_texts header_row) in
      existsb (str_eqb (lit "Mat")) headers
      && existsb (usable_row headers) data
  end.

(** The extractor on the page it fetched. *)
Definition statsguru_summary_of_html (html : str) : result (dict (dict str)) :=
  scan_tables (soup_engine_tables html).

Definition fetch_espn_statsguru_summary (interval : Q) (w : world)
  : result (dict (dict str)) * world :=
  match get interval w with
  | (Raise e, w') => (Raise e, w')
  | (Ok r, w') => (statsguru_summary_of_html (text r), w')
  end.

End Statsguru.

(** ** Metadata store (the end of [main]) *)

Section Metadata.

(** The flattened summary record of one player. *)
Variable summary : Type.

(** The output directory and [player_metadata.json] before the run:
    no directory; a directory without the file; a file whose text
    [json.loads] refuses; a file with a decoded value that is not an
    object, of the given truth value; a file with an object. *)
Inductive metadata_file :=
| NoDirectory
| Absent
| Unreadable
| NotObject (truth : bool)
| Stored (d : dict summary).

(** [existing_metadata]: a mapping, or another decoded value with its
    truth value. *)
Inductive existing_value :=
| Mapping (d : dict summary)
| Value (truth : bool).

Definition load_existing (f : metadata_file) : existing_value :=
  match f with
  | Stored d => Mapping d
  | NotObject truth => Value truth
  | NoDirectory | Absent | Unreadable => Mapping []
  end.

(** [bool(existing_metadata)] *)
Definition existing_truthy (e : existing_value) : bool :=
  match e with
  | Mapping [] => false
  | Mapping (_ :: _) => true
  | Value truth => truth
  end.

Definition directory_exists (f : metadata_file) : bool :=
  match f with
  | NoDirectory => false
  | _ => true
  end.

(** What the body of the loop over [players] does for one player: it
    runs to its end, through [write_pdf], with the name and the summary
    it stores; or it raises, [directory_made] telling that it raised
    after a [mkdir] of [write_pdf] or [download_image] had made the
    output directory. *)
Inductive player_run :=
| Done (name : str) (record : summary)
| Raised (directory_made : bool).

Definition succeeded (r : player_run) : bool :=
  match r with
  | Done _ _ => true
  | Raised _ => false
  end.

(** The run leaves the output directory behind. *)
Definition makes_directory (r : player_run) : bool :=
  match r with
  | Done _ _ => true
  | Raised directory_made => directory_made
  end.

(** The loop over [players]; [directory] tells that the output
    directory exists. *)
Fixpoint run_players (runs : list player_run) (metadata : dict summary)
  (success_count : nat) (directory : bool) : dict summary * nat * bool :=
  match runs with
  | [] => (metadata, success_count, directory)
  | Raised directory_made :: rest =>
      run_players rest metadata success_count (directory || directory_made)
  | Done n record :: rest =>
      run_players rest (set metadata n record) (S success_count) true
  end.

(** The summary of the last run that succeeded under the name [k]. *)
Fixpoint last_success (runs : list player_run) (k : str) : option summary :=
  match runs with
  | [] => None
  | r :: rest =>
      match last_success rest k with
      | Some record => Some record
      | None =>
          match r with
          | Done n record => if str_eqb n k then Some record else None
          | Raised _ => None
          end
      end
  end.

Inductive store_error :=
| NoPlayersError
| TypeError
| FileNotFoundError.

(** How [main] ends: the file is kept as it is, [write_text] is called
    with the merged mapping, or an error leaves [main]. *)
Inductive store_result :=
| Kept
| Written (merged : dict summary)
| Aborted (e : store_error).

(** [main] from the loop over [players] on: the loop, the guard, the
    merge [{**existing_metadata, **metadata}], which raises on a value
    that is not a mapping, and [write_text], which raises without the
    output directory. *)
Definition store_after_loop (f : metadata_file) (runs : list player_run)
  : store_result :=
  let existing_metadata := load_existing f in
  let '(metadata, success_count, directory) :=
    run_players runs [] O (directory_exists f) in
  if (success_count =? 0)%nat && existing_truthy existing_metadata
  then Kept
  else
    match existing_metadata with
    | Value _ => Aborted TypeError
    | Mapping existing =>
        let merged := merge existing metadata in
        if directory then Written merged else Aborted FileNotFoundError
    end.

(** [main] once the list of players is there, one run a player: an
    empty list raises the [RuntimeError] of [if not players], before the
    file is looked at. *)
Definition main_store (f : metadata_file) (runs : list player_run)
  : store_result :=
  match runs with
  | [] => Aborted NoPlayersError
  | _ :: _ => store_after_loop f runs
  end.

(** [player_metadata.json] after a run that ended with [result]. *)
Definition file_of (f : metadata_file) (result : store_result)
  : metadata_file :=
  match result with
  | Written merged => Stored merged
  | Kept | Aborted _ => f
  end.

Definition file_after (f : metadata_file) (runs : list player_run)
  : metadata_file :=
  file_of f (main_store f runs).

End Metadata.

Arguments NoDirectory {summary}.
Arguments Absent {summary}.
Arguments Unreadable {summary}.
Arguments NotObject {summary} truth.
Arguments Raised {summary} directory_made.
Arguments Kept {summary}.
Arguments Aborted {summary} e.

(** What a call of [get_json] that fails at every attempt leaves in the
    trace: a request and the backoff sleep, [todo] times from [attempt]
    on. *)
Fixpoint failed_attempts (attempt : Z) (todo : nat) : list event :=
  match todo with
  | O => []
  | S todo' =>
      Requested :: Slept (backoff_json attempt)
      :: failed_attempts (attempt + 1)%Z todo'
  end.

(** The trace is a sequence of requests, each one right after a sleep of
    at least [interval] seconds. *)
Fixpoint spaced (interval : Q) (tr : list event) : Prop :=
  match tr with
  | [] => True
  | Slept d :: Requested :: rest => interval <= d /\ spaced interval rest
  | _ => False
  end.

(** An entry of the statistics summary made from the headers [headers]
    and the data rows [data]. *)
Definition format_entry (U : unicode_db) (headers : list str)
  (data : list table_row) (entry : str * dict str) : Prop :=
  skipped_format U (fst entry) = false
  /\ incl (keys (snd entry)) (tl headers)
  /\ exists row,
       In row data
       /\ hd_error (List.map (clean U) (td_texts row)) = Some (fst entry).

(** ** Infobox parsing, summaries and file names *)

(** A printable ASCII character: codes 32 to 126. *)
Definition printable_ascii (c : char) : Prop := (32 <= c <= 126)%N.

(** [clean_text] of [build_free_source_pdfs.py]: [clean] without the
    sanitizer. *)
Definition clean_text (value : str) : str :=
  let value := sub_citations_from O value in
  strip (sub_ws value).

(** One [tr] of the infobox table: the texts
    [get_text(" ", strip=True)] of [tr.find("th")] and [tr.find("td")],
    each missing when the row has no such cell. *)
Record infobox_row := { th_text : option str; td_text : option str }.

Section Infobox.

(** [clean] in [parse_infobox], [clean_text] in [parse_infobox_fields]. *)
Variable cleaner : str -> str.

(** BeautifulSoup: the rows [box.find_all("tr")] of the first table
    whose class contains [infobox], or nothing without such a table. *)
Variable soup_infobox : str -> option (list infobox_row).

(** The loop over the rows; [result] is the dictionary built so far. *)
Fixpoint infobox_rows (rows : list infobox_row) (result : dict str)
  : dict str :=
  match rows with
  | [] => result
  | tr :: rest =>
      match th_text tr, td_text tr with
      | Some th, Some td =>
          let key := cleaner th in
          let val := cleaner td in
          if truthy key && truthy val
          then infobox_rows rest (set result key val)
          else infobox_rows rest result
      | _, _ => infobox_rows rest result
      end
  end.

(** The row contributes the entry [(k, v)]. *)
Definition row_entry (row : infobox_row) (k v : str) : Prop :=
  exists th td,
    th_text row = Some th /\ td_text row = Some td
    /\ cleaner th = k /\ cleaner td = v /\ k <> [] /\ v <> [].

Definition parse_infobox_with (html : str) : dict str :=
  match soup_infobox html with
  | None => []
  | Some rows => infobox_rows rows []
  end.

End Infobox.

(** [parse_infobox] of [build_ipl_auction_dataset.py] *)
Definition parse_infobox (U : unicode_db)
  (soup_infobox : str -> option (list infobox_row)) (html : str) : dict str :=
  parse_infobox_with (clean U) soup_infobox html.

(** [parse_infobox_fields] of [build_free_source_pdfs.py] *)
Definition parse_infobox_fields
  (soup_infobox : str -> option (list infobox_row)) (html : str) : dict str :=
  parse_infobox_with clean_text soup_infobox html.

Definition open_paren : char := 40%N.
Definition close_paren : char := 41%N.

(** The number of characters at the head of [s] that are not a closing
    parenthesis. *)
Fixpoint leading_unclosed (s : str) : nat :=
  match s with
  | c :: r => if char_eqb c close_paren then O else S (leading_unclosed r)
  | [] => O
  end.

(** The length of the match of [r"\([^)]{0,120}\)"] at the head of [s]:
    an opening parenthesis whose next closing one comes after at most
    120 characters. *)
Definition aside_len (s : str) : option nat :=
  match s with
  | c :: r =>
      if char_eqb c open_paren then
        let n := leading_unclosed r in
        if (n <=? 120)%nat then
          match nth_error r n with
          | Some _ => Some (n + 2)%nat
          | None => None
          end
        else None
      else None
  | [] => None
  end.

(** [re.sub] of that pattern by the empty string; [skip] counts the
    characters of the current match still to drop. *)
Fixpoint sub_asides_from (skip : nat) (s : str) : str :=
  match s with
  | [] => []
  | c :: r =>
      match skip with
      | S k => sub_asides_from k r
      | O =>
          match aside_len s with
          | Some n => sub_asides_from (n - 1) r
          | None => c :: sub_asides_from O r
          end
      end
  end.

(** The class [[.!?]] *)
Definition sentence_end (c : char) : bool :=
  char_eqb c 46%N || char_eqb c 33%N || char_eqb c 63%N.

(** [re.split(r"(?<=[.!?])\s+", s)]: [cur] is the part being read, most
    recent character first; [after_end] tells that the previous
    character ends a sentence, [in_gap] that a separator is being
    passed. *)
Fixpoint split_sentences_from (cur : str) (after_end in_gap : bool) (s : str)
  : list str :=
  match s with
  | [] => [rev cur]
  | c :: r =>
      if in_gap && isspace c then split_sentences_from cur false true r
      else if after_end && isspace c
      then rev cur :: split_sentences_from [] false true r
      else split_sentences_from (c :: cur) (sentence_end c) false r
  end.

Definition split_sentences (s : str) : list str :=
  split_sentences_from [] false false s.

Definition build_safe_summary (U : unicode_db) (extract : str) : str :=
  match extract with
  | [] => lit "N/A"
  | _ =>
      let txt := sub_asides_from O extract in
      let parts := split_sentences txt in
      let summary := strip (join [space] (firstn 2 parts)) in
      str_or (sanitize_for_pdf U summary) (lit "N/A")
  end.

Definition underscore : char := 95%N.

(** The class [[A-Za-z0-9_-]] *)
Definition stem_char (c : char) : bool :=
  is_upper_ascii c || is_lower_ascii c || is_digit_ascii c
  || char_eqb c underscore || char_eqb c 45%N.

(** [re.sub(r"[^A-Za-z0-9_-]+", "_", s)]; [in_run] tells that the
    previous character was outside the class. *)
Fixpoint sub_unsafe_from (in_run : bool) (s : str) : str :=
  match s with
  | [] => []
  | c :: r =>
      if stem_char c then c :: sub_unsafe_from false r
      else if in_run then sub_unsafe_from true r
      else underscore :: sub_unsafe_from true r
  end.

(** [s.lstrip("_")] and [s.strip("_")] *)
Fixpoint lstrip_underscores (s : str) : str :=
  match s with
  | [] => []
  | c :: r => if char_eqb c underscore then lstrip_underscores r else s
  end.

Definition strip_underscores (s : str) : str :=
  rev (lstrip_underscores (rev (lstrip_underscores s))).

(** [file_stem] in [main] and [safe_name] in [build_player_pdf]:
    [re.sub(r"[^A-Za-z0-9_-]+", "_", title).strip("_")] *)
Definition file_stem (title : str) : str :=
  strip_underscores (sub_unsafe_from false title).

(** ** Wikidata time claims ([extract_time_claim]) *)

(** A decoded JSON value. *)
#[warnings="-register-all"] Inductive json :=
| JNull
| JBool (b : bool)
| JNumber (q : Q)
| JString (s : str)
| JArray (items : list json)
| JObject (members : list (str * json)).

(** Truth value of a decoded value. *)
Definition json_truthy (v : json) : bool :=
  match v with
  | JNull => false
  | JBool b => b
  | JNumber q => negb (Qeq_bool q 0)
  | JString s => truthy s
  | JArray [] => false
  | JArray (_ :: _) => true
  | JObject [] => false
  | JObject (_ :: _) => true
  end.

(** [v[0]]; nothing when the subscript raises ([KeyError] on an object,
    [TypeError] on a number, a boolean or null, [IndexError] on an empty
    sequence). *)
Definition first_item (v : json) : option json :=
  match v with
  | JArray (x :: _) => Some x
  | JString (c :: _) => Some (JString [c])
  | _ => None
  end.

(** [v[k]] for a string [k]; nothing when the subscript raises
    ([KeyError] on an object without [k], [TypeError] otherwise). *)
Definition member (v : json) (k : str) : option json :=
  match v with
  | JObject d => PyDict.get d k
  | _ => None
  end.

Section TimeClaim.

Variable U : unicode_db.

(** A character of the class [\d]. *)
Definition is_decimal (c : char) : bool :=
  match decimal_value U c with Some _ => true | None => false end.

Definition plus_sign : char := 43%N.
Definition hyphen : char := 45%N.
Definition letter_T : char := 84%N.

(** [re.match(r"^\+(\d{4}-\d{2}-\d{2})T", raw)]: group 1. *)
Definition time_match (raw : str) : option str :=
  match raw with
  | p :: y1 :: y2 :: y3 :: y4 :: h1 :: m1 :: m2 :: h2 :: d1 :: d2 :: t :: _ =>
      if char_eqb p plus_sign
         && is_decimal y1 && is_decimal y2 && is_decimal y3 && is_decimal y4
         && char_eqb h1 hyphen && is_decimal m1 && is_decimal m2
         && char_eqb h2 hyphen && is_decimal d1 && is_decimal d2
         && char_eqb t letter_T
      then Some [y1; y2; y3; y4; h1; m1; m2; h2; d1; d2]
      else None
  | _ => None
  end.

(** [vals[0]["mainsnak"]["datavalue"]["value"]["time"]]; nothing when
    one of the subscripts raises. *)
Definition time_of_claim (vals : json) : option json :=
  match first_item vals with
  | None => None
  | Some claim =>
      match member claim (lit "mainsnak") with
      | None => None
      | Some snak =>
          match member snak (lit "datavalue") with
          | None => None
          | Some datavalue =>
              match member datavalue (lit "value") with
              | None => None
              | Some value => member value (lit "time")
              end
          end
      end
  end.

Definition extract_time_claim (claims : dict json) (prop_id : str) : str :=
  match PyDict.get claims prop_id with
  | None => []
  | Some vals =>
      if negb (json_truthy vals) then []
      else
        match time_of_claim vals with
        | Some (JString raw) =>
            match time_match raw with
            | Some date => date
            | None => []
            end
        | Some _ => []
        | None => []
        end
  end.

End TimeClaim.

(** ** Page layout of [build_free_source_pdfs.py] ([write_pdf]) *)

(** What is sent to the reportlab canvas, in order. *)
Inductive canvas_op :=
| SetFont (name : str) (size : Z)
| DrawString (x y : Q) (s : str)
| DrawImage (path : str) (x y width height : Q)
| ShowPage
| Save.

(** reportlab's units and page size: [cm = inch / 2.54] with
    [inch = 72], [mm = cm * 0.1], [A4 = (210 * mm, 297 * mm)]. *)
Definition cm : Q := 7200 # 254.
Definition mm : Q := cm * (1 # 10).
Definition A4_width : Q := 210 * mm.
Definition A4_height : Q := 297 * mm.

(** [a < b] on floats *)
Definition Qless (a b : Q) : bool := negb (Qle_bool b a).

Module Free.

Section WritePdf.

Variable stringWidth : str -> Q.

(** [height - 2 * cm], the [y] of the first line of a page. *)
Definition page_top : Q := A4_height - 2 * cm.

(** The loop over the wrapped lines of one body. *)
Fixpoint draw_body (x : Q) (lines : list str) (c : list canvas_op) (y : Q)
  : list canvas_op * Q :=
  match lines with
  | [] => (c, y)
  | line :: rest =>
      let '(c, y) :=
        if Qless y ((25 # 10) * cm)
        then (c ++ [ShowPage; SetFont (lit "Helvetica") 10], page_top)
        else (c, y) in
      draw_body x rest (c ++ [DrawString x y line]) (y - 14)
  end.

(** The loop over the sections. *)
Fixpoint draw_sections (x max_width : Q) (sections : list (str * str))
  (c : list canvas_op) (y : Q) : list canvas_op * Q :=
  match sections with
  | [] => (c, y)
  | (heading, body) :: rest =>
      let '(c, y) :=
        if Qless y (3 * cm)
        then (c ++ [ShowPage; SetFont (lit "Helvetica") 10], page_top)
        else (c, y) in
      let c := c ++ [SetFont (lit "Helvetica-Bold") 11;
                     DrawString x y heading] in
      let y := y - 14 in
      let c := c ++ [SetFont (lit "Helvetica") 10] in
      let '(c, y) :=
        draw_body x (wrap_text stringWidth body max_width) c y in
      draw_sections x max_width rest c (y - 8)
  end.

Definition write_pdf (title : str) (sections : list (str * str))
  : list canvas_op :=
  let x := 2 * cm in
  let y := A4_height - 2 * cm in
  let max_width := A4_width - 4 * cm in
  let c := [SetFont (lit "Helvetica-Bold") 14; DrawString x y title] in
  let y := y - 22 in
  let c := c ++ [SetFont (lit "Helvetica") 10] in
  let '(c, _) := draw_sections x max_width sections c y in
  c ++ [Save].

End WritePdf.

End Free.

(** A drawing within the margins of the page of [Free.write_pdf]: at
    the left margin, not above the first line of a page and not below
    2.5 cm. *)
Definition within_margins (op : canvas_op) : Prop :=
  match op with
  | DrawString x y _ =>
      x == 2 * cm /\ (25 # 10) * cm <= y /\ y <= Free.page_top
  | _ => True
  end.

(** The [y] of the [n]-th line below [y], 14 points a line. *)
Fixpoint descend (y : Q) (n : nat) : Q :=
  match n with
  | O => y
  | S k => descend (y - 14) k
  end.

(** The [y] of [n] successive lines from [y] on. *)
Fixpoint line_positions (y : Q) (n : nat) : list Q :=
  match n with
  | O => []
  | S k => y :: line_positions (y - 14) k
  end.

(** ** The profile page of the auction builder ([write_pdf]) *)

(** What the call draws is a string of printable ASCII characters. *)
Definition draws_printable (op : canvas_op) : Prop :=
  match op with
  | DrawString _ _ s => Forall printable_ascii s
  | _ => True
  end.

Module Auction.

(** The [player] dictionary as [write_pdf] reads it: [name] and [basic]
    by subscript, the other keys with [get]. *)
Record player := {
  name : str;
  basic : dict str;
  extract : option str;
  espn_stats : option (dict str);
  wiki_url : option str
}.

Section WritePdf.

Variable U : unicode_db.
Variable stringWidth : str -> Q.

(** [Path(image_path).exists()] *)
Variable path_exists : str -> bool.

(** reportlab reads the file as an image; [drawImage] raises when it
    cannot. *)
Variable image_readable : str -> bool.

(** [dt.datetime.utcnow().isoformat()] *)
Variable utcnow_isoformat : str.

Definition draw_op (d : draw_string) : canvas_op :=
  DrawString (at_x d) (at_y d) (drawn d).

(** [draw_wrapped(c, text, x, y, width)] on a canvas of operations. *)
Definition draw_wrapped_on (c : list canvas_op) (text : str) (x y width : Q)
  : list canvas_op * Q :=
  let (lines, y) := draw_wrapped stringWidth [] text x y width in
  (c ++ List.map draw_op lines, y).

(** [sanitize_for_pdf(f"<label>{b.get(key, '') or 'N/A'}")] *)
Definition basic_line (label : string) (b : dict str) (key : string) : str :=
  sanitize_for_pdf U
    (lit label ++ str_or (get_or_empty b (lit key)) (lit "N/A")).

(** The loop over [basics]. *)
Fixpoint draw_basics (text_x : Q) (basics : list str) (c : list canvas_op)
  (yy : Q) : list canvas_op :=
  match basics with
  | [] => c
  | line :: rest =>
      draw_basics text_x rest (c ++ [DrawString text_x yy line]) (yy - 14)
  end.

(** The loop over [espn_stats.items()]. *)
Fixpoint draw_stats (x width : Q) (items : dict str) (c : list canvas_op)
  (y : Q) : list canvas_op * Q :=
  match items with
  | [] => (c, y)
  | (label, value) :: rest =>
      if truthy value
      then
        let (c, y) :=
          draw_wrapped_on c (sanitize_for_pdf U (label ++ lit ": " ++ value))
            x y width in
        if Qless y (3 * cm)
        then
          draw_stats x width rest
            (c ++ [ShowPage; SetFont (lit "Helvetica") 10])
            (A4_height - 2 * cm)
        else draw_stats x width rest c y
      else draw_stats x width rest c y
  end.

(** The canvas calls of [write_pdf], or nothing when [drawImage]
    raises. *)
Definition write_pdf (p : player) (image_path : str)
  : option (list canvas_op) :=
  let w := A4_width in
  let h := A4_height in
  let x := 2 * cm in
  let y := h - 2 * cm in
  let c :=
    [SetFont (lit "Helvetica-Bold") 14;
     DrawString x y
       (sanitize_for_pdf U (lit "IPL Player Profile: " ++ name p))] in
  let y := y - 20 in
  let with_image := truthy image_path && path_exists image_path in
  if with_image && negb (image_readable image_path) then None
  else
    let c :=
      if with_image
      then c ++ [DrawImage image_path x (y - 6 * cm) ((45 # 10) * cm) (6 * cm)]
      else c in
    let text_x := if with_image then x + 5 * cm else x in
    let b := basic p in
    let c := c ++ [SetFont (lit "Helvetica") 10] in
    let basics :=
      [basic_line "Age: " b "age";
       basic_line "Country: " b "country";
       basic_line "Role: " b "role";
       basic_line "IPL Current Team: " b "ipl_team";
       basic_line "Matches: " b "matches";
       basic_line "Runs: " b "runs";
       basic_line "Wickets: " b "wickets"] in
    let c := draw_basics text_x basics c y in
    let y := y - 7 * cm in
    let c :=
      c ++ [SetFont (lit "Helvetica-Bold") 11;
            DrawString x y (lit "Career Summary")] in
    let y := y - 16 in
    let c := c ++ [SetFont (lit "Helvetica") 10] in
    let (c, y) :=
      draw_wrapped_on c
        (sanitize_for_pdf U
           (match extract p with Some e => e | None => lit "N/A" end))
        x y (w - 4 * cm) in
    let y := y - 8 in
    let (c, y) :=
      match espn_stats p with
      | None | Some [] => (c, y)
      | Some stats =>
          let c :=
            c ++ [SetFont (lit "Helvetica-Bold") 11;
                  DrawString x y (lit "ESPN Cricinfo Stats Summary")] in
          let y := y - 16 in
          let c := c ++ [SetFont (lit "Helvetica") 10] in
          let (c, y) := draw_stats x (w - 4 * cm) stats c y in
          (c, y - 8)
      end in
    let c :=
      c ++ [SetFont (lit "Helvetica-Bold") 11; DrawString x y (lit "Source")] in
    let y := y - 14 in
    let c := c ++ [SetFont (lit "Helvetica") 9] in
    let source_line :=
      sanitize_for_pdf U
        (lit "Wikipedia: "
         ++ match wiki_url p with Some u => u | None => [] end
         ++ lit " | Retrieved: " ++ utcnow_isoformat ++ lit " UTC") in
    let (c, _) := draw_wrapped_on c source_line x y (w - 4 * cm) in
    Some (c ++ [Save]).

End WritePdf.

End Auction.

(** ** Image collector ([generate_ipl_player_pdfs_with_images.py]) *)

Module Images.

(** The network and the image files written so far. *)
Record state := { net : world; files : list str }.

Definition REQUEST_DELAY : Q := 2.
Definition IMAGE_DIR : str := lit "data/images".

(** [s.replace(old, new)] for a one-character [old] and [new]. *)
Definition replace_char (old new : char) (s : str) : str :=
  List.map (fun c => if char_eqb c old then new else c) s.

(** [os.path.join(dir, name)] on a POSIX system, for a [dir] that is not
    empty and does not end in a slash. *)
Definition path_join (dir name : str) : str :=
  if startswith name (lit "/") then name else dir ++ lit "/" ++ name.

(** [player_name.replace(" ", "_") + ".jpg"] *)
Definition image_filename (player_name : str) : str :=
  replace_char space underscore player_name ++ lit ".jpg".

Definition image_path (player_name : str) : str :=
  path_join IMAGE_DIR (image_filename player_name).

(** [if data.get("image_path")] *)
Definition has_image (data : dict json) : bool :=
  match PyDict.get data (lit "image_path") with
  | Some v => json_truthy v
  | None => false
  end.

Section Collector.

Variable U : unicode_db.

(** [requests] takes the value for a URL and sends the request; for any
    other value [requests.get] raises before there is any traffic. *)
Variable sendable : json -> bool.

(** Pillow decodes the body of the response, converts it and writes the
    file. *)
Variable image_saved : response -> str -> bool.

Definition download_image (url : json) (save_path : str) (st : state)
  : bool * state :=
  if sendable url
  then
    match session_get (net st) with
    | (None, w) => (false, {| net := w; files := files st |})
    | (Some r, w) =>
        match raise_for_status r with
        | Raise _ => (false, {| net := w; files := files st |})
        | Ok r =>
            if image_saved r save_path
            then (true, {| net := w; files := files st ++ [save_path] |})
            else (false, {| net := w; files := files st |})
        end
    end
  else (false, st).

(** The image on the content delivery network, after the name. *)
Definition cdn_url (player_name : str) : str :=
  let slug := replace_char space hyphen (lower U player_name) in
  lit "https://img1.hscicdn.com/image/upload/f_auto,q_auto/lsci/db/PICTURES/CMS/"
  ++ slug ++ lit ".jpg".

Definition image_url (player_name : str) (data : dict json) : json :=
  match PyDict.get data (lit "image_url") with
  | Some v => if json_truthy v then v else JString (cdn_url player_name)
  | None => JString (cdn_url player_name)
  end.

(** The loop of [main] over [players.items()]; each [data] is updated in
    place. *)
Fixpoint main_loop (items : dict (dict json)) (st : state)
  : dict (dict json) * state :=
  match items with
  | [] => ([], st)
  | (player_name, data) :: rest =>
      if has_image data
      then
        let (rest, st) := main_loop rest st in
        ((player_name, data) :: rest, st)
      else
        let (success, st) :=
          download_image (image_url player_name data)
            (image_path player_name) st in
        let data :=
          PyDict.set data (lit "image_path")
            (JString (if success then image_path player_name else [])) in
        let st :=
          {| net := sleep REQUEST_DELAY (net st); files := files st |} in
        let (rest, st) := main_loop rest st in
        ((player_name, data) :: rest, st)
  end.

(** [main]: the metadata file as read, and as written back. *)
Definition main (players : dict (dict json)) (st : state)
  : dict (dict json) * state :=
  main_loop players st.

End Collector.

(** The entry is still without an image. *)
Definition pending (entry : str * dict json) : bool :=
  negb (has_image (snd entry)).

(** The image files named by entries that had none before. *)
Fixpoint new_images (before after : dict (dict json)) : list str :=
  match before, after with
  | b :: before', a :: after' =>
      (if pending b && has_image (snd a)
       then [image_path (fst b)] else [])
      ++ new_images before' after'
  | _, _ => []
  end.

End Images.

(** ** Sample inputs *)

(** A canvas on which every character is 5 points wide. *)
Definition fixed_pitch (s : str) : Q := inject_Z (5 * Z.of_nat (List.length s)).

(** An infobox as [parse_infobox] returns it. *)
Definition sample_infobox : dict str :=
  [(lit "Born", lit "5 November 1988 (age 37) Delhi");
   (lit "Role", lit "Top-order batter");
   (lit "National side", lit "India");
   (lit "Current team", lit "Royal Challengers Bengaluru");
   (lit "IPL runs", lit "8004")].

(** A script payload with the name in two letter cases, the lower-case
    one first, and one with two names, the later in the alphabet first. *)
Definition name_field (n : string) : str :=
  [quote] ++ lit "name" ++ [quote; colon; quote] ++ lit n ++ [quote].

Definition page_two_cases : str :=
  lit "{" ++ name_field "virat kohli" ++ lit ","
  ++ name_field "Virat Kohli" ++ lit "}".

Definition page_two_names : str :=
  lit "[" ++ name_field "Virat Kohli" ++ lit ","
  ++ name_field "MS Dhoni" ++ lit "]".

(** A script payload with a name and a team fragment. *)
Definition page_with_team : str :=
  lit "{" ++ name_field "MS Dhoni" ++ lit ","
  ++ [quote] ++ lit "teamName" ++ [quote; colon; space; quote]
  ++ lit "Chennai Super Kings" ++ [quote] ++ lit "}".

Close Scope Q_scope.

(** * Properties *)

(** ** Words and whitespace *)

Lemma isspace_space : isspace space = true.
Proof. reflexivity. Qed.

Lemma split_from_app_space cur a c b :
  isspace c = true ->
  split_from cur (a ++ c :: b) = split_from cur a ++ split b.
Proof.
  intros Hc. revert cur.
  induction a as [|x a IH]; intros cur; simpl.
  - rewrite Hc. destruct cur; reflexivity.
  - destruct (isspace x).
    + destruct cur; simpl; rewrite IH; reflexivity.
    + apply IH.
Qed.

Lemma split_app_space a b :
  split (a ++ space :: b) = split a ++ split b.
Proof. apply split_from_app_space, isspace_space. Qed.

Lemma split_from_no_space w : forall cur,
  no_space w -> rev cur ++ w <> [] ->
  split_from cur w = [rev cur ++ w].
Proof.
  unfold no_space.
  induction w as [|c w IH]; intros cur Hw Hne; simpl in *.
  - rewrite app_nil_r in *.
    destruct cur; [exfalso; apply Hne; reflexivity | reflexivity].
  - apply andb_true_iff in Hw as [Hc Hw].
    apply negb_true_iff in Hc. rewrite Hc.
    rewrite IH; simpl; auto.
    + rewrite <- app_assoc. reflexivity.
    + rewrite <- app_assoc. simpl. destruct (rev cur); discriminate.
Qed.

Lemma split_word w : is_word w -> split w = [w].
Proof.
  intros [Hne Hw]. unfold split.
  rewrite split_from_no_space; simpl; auto.
Qed.

Lemma no_space_rev w : no_space w -> no_space (rev w).
Proof.
  unfold no_space. rewrite !forallb_forall. intros H x Hx.
  apply H, in_rev, Hx.
Qed.

Lemma split_from_words s : forall cur,
  no_space cur -> Forall is_word (split_from cur s).
Proof.
  induction s as [|c s IH]; intros cur Hcur; simpl.
  - destruct cur as [|x cur]; constructor; [|constructor].
    split; [|apply no_space_rev, Hcur].
    simpl. destruct (rev cur); discriminate.
  - destruct (isspace c) eqn:Hc.
    + destruct cur as [|x cur].
      * apply IH. reflexivity.
      * constructor; [|apply IH; reflexivity].
        split; [|apply no_space_rev, Hcur].
        simpl. destruct (rev cur); discriminate.
    + apply IH. unfold no_space in *. simpl. rewrite Hc. simpl. exact Hcur.
Qed.

Lemma split_words s : Forall is_word (split s).
Proof. apply split_from_words. reflexivity. Qed.

Lemma split_join lines :
  split (join [space] lines) = List.concat (List.map split lines).
Proof.
  induction lines as [|l lines IH]; [reflexivity|].
  destruct lines as [|l' lines].
  - simpl. rewrite app_nil_r. reflexivity.
  - change (join [space] (l :: l' :: lines))
      with (l ++ space :: join [space] (l' :: lines)).
    rewrite split_app_space, IH. reflexivity.
Qed.

Lemma concat_split_words ws :
  Forall is_word ws -> List.concat (List.map split ws) = ws.
Proof.
  induction 1 as [|w ws Hw _ IH]; [reflexivity|].
  simpl. rewrite (split_word Hw), IH. reflexivity.
Qed.

Lemma join_snoc g w :
  g <> [] -> join [space] (g ++ [w]) = join [space] g ++ [space] ++ w.
Proof.
  induction g as [|x g IH]; [congruence|]. intros _.
  destruct g as [|y g].
  - reflexivity.
  - change (join [space] ((x :: y :: g) ++ [w]))
      with (x ++ [space] ++ join [space] ((y :: g) ++ [w])).
    rewrite IH by discriminate.
    change (join [space] (x :: y :: g))
      with (x ++ [space] ++ join [space] (y :: g)).
    rewrite <- !app_assoc. reflexivity.
Qed.

(** ** Word wrap *)

Section WrapFacts.

Variable stringWidth : str -> Q.
Variable max_width : Q.

Local Abbreviation wrap_loop' := (wrap_loop stringWidth max_width).
Local Abbreviation fits' := (fits stringWidth max_width).
Local Abbreviation extensions_fit' := (extensions_fit stringWidth max_width).
Local Abbreviation greedy_groups' := (greedy_groups stringWidth max_width).

Lemma extensions_fit_single w : extensions_fit' [w].
Proof. intros j Hj. simpl in Hj. lia. Qed.

Lemma extensions_fit_snoc g w :
  g <> [] -> extensions_fit' g ->
  fits' (join [space] g ++ [space] ++ w) = true ->
  extensions_fit' (g ++ [w]).
Proof.
  intros Hg Hfit Hw j Hj. rewrite length_app in Hj. simpl in Hj.
  destruct (Nat.eq_dec j (List.length g + 1)) as [->|Hne].
  - rewrite firstn_all2 by (rewrite length_app; simpl; lia).
    rewrite join_snoc by assumption. exact Hw.
  - rewrite firstn_app.
    replace (j - List.length g)%nat with O by lia.
    simpl. rewrite app_nil_r. apply Hfit. lia.
Qed.

Lemma wrap_loop_greedy ws : forall g lines,
  g <> [] -> extensions_fit' g ->
  exists g' rest,
    wrap_loop' lines (join [space] g) ws
      = lines ++ List.map (join [space]) ((g ++ g') :: rest)
    /\ List.concat ((g ++ g') :: rest) = g ++ ws
    /\ greedy_groups' ((g ++ g') :: rest).
Proof.
  induction ws as [|w ws IH]; intros g lines Hg Hfit; simpl.
  - exists [], []. rewrite !app_nil_r. simpl. repeat split; auto.
  - destruct (fits' (join [space] g ++ space :: w)) eqn:Hw.
    + destruct (IH (g ++ [w]) lines) as (g' & rest & He & Hc & Hgr).
      * destruct g; discriminate.
      * apply extensions_fit_snoc; assumption.
      * rewrite join_snoc in He by assumption.
        exists (w :: g'), rest.
        rewrite <- app_assoc in He, Hc, Hgr. simpl in He, Hc, Hgr.
        split; [exact He|]. split; [|exact Hgr].
        rewrite Hc, <- app_assoc. reflexivity.
    + destruct (IH [w] (lines ++ [join [space] g])) as (g' & rest & He & Hc & Hgr).
      * discriminate.
      * apply extensions_fit_single.
      * exists [], (([w] ++ g') :: rest).
        rewrite app_nil_r.
        change (join [space] [w]) with w in He. rewrite He.
        rewrite <- app_assoc.
        split; [reflexivity|]. split.
        { simpl in Hc |- *. rewrite Hc. reflexivity. }
        change (g <> [] /\ extensions_fit' g
                /\ fits' (join [space] g ++ [space] ++ w) = false
                /\ greedy_groups' (([w] ++ g') :: rest)).
        auto.
Qed.

Lemma wrap_loop_words ws : forall lines current,
  List.concat (List.map split (wrap_loop' lines current ws))
  = List.concat (List.map split lines) ++ split current
      ++ List.concat (List.map split ws).
Proof.
  induction ws as [|w ws IH]; intros lines current; simpl.
  - rewrite map_app, concat_app. simpl. rewrite !app_nil_r. reflexivity.
  - destruct (fits' (current ++ space :: w)).
    + rewrite IH, split_app_space, <- app_assoc. reflexivity.
    + rewrite IH, map_app, concat_app. simpl.
      rewrite app_nil_r, <- !app_assoc. reflexivity.
Qed.

Lemma draw_loop_lines ws : forall x y canvas line,
  List.map drawn (fst (draw_loop stringWidth max_width x y canvas line ws))
  = wrap_loop' (List.map drawn canvas) line ws.
Proof.
  induction ws as [|w ws IH]; intros x y canvas line; simpl.
  - rewrite map_app. reflexivity.
  - destruct (fits' (line ++ space :: w)).
    + apply IH.
    + rewrite IH, map_app. reflexivity.
Qed.

Lemma greedy_groups_lines_fit gs :
  greedy_groups' gs ->
  Forall (fun w => fits' w = true) (List.concat gs) ->
  Forall (fun l => fits' l = true) (List.map (join [space]) gs).
Proof.
  induction gs as [|g gs IH]; intros Hgr Hw; simpl; [constructor|].
  simpl in Hgr, Hw. destruct Hgr as (Hg & Hext & _ & Hrest).
  apply Forall_app in Hw as [Hwg Hws].
  constructor; [|apply IH; assumption].
  destruct g as [|w [|w' g]]; [congruence| |].
  - inversion Hwg; assumption.
  - specialize (Hext (List.length (w :: w' :: g))).
    rewrite firstn_all in Hext. apply Hext. simpl. lia.
Qed.

End WrapFacts.

(** C1.  For a text whose words each fit within the width budget, the
    lines of [wrap_text] (and the lines [draw_wrapped] draws), joined
    with single spaces, have exactly the words of the text, in order:
    re-joining and collapsing whitespace gives the whitespace-collapsed
    text.  When the text has a word, the lines are the greedy grouping
    of its words: a word is appended while the extended line fits, a
    line is committed only when the next word would not fit behind it,
    that word starts the next line, and every line fits. *)
Theorem wrap_text_lossless_greedy :
  forall (stringWidth : str -> Q) (max_width : Q) (text : str),
    Forall (fun w => fits stringWidth max_width w = true) (split text) ->
    let lines := wrap_text stringWidth text max_width in
    split (join [space] lines) = split text
    /\ collapse_whitespace (join [space] lines) = collapse_whitespace text
    /\ (forall x y,
          let drawn_lines :=
            List.map drawn
              (fst (draw_wrapped stringWidth [] text x y max_width)) in
          collapse_whitespace (join [space] drawn_lines)
            = collapse_whitespace text
          /\ (split text <> [] -> drawn_lines = lines))
    /\ (split text <> [] ->
        exists groups,
          lines = List.map (join [space]) groups
          /\ List.concat groups = split text
          /\ greedy_groups stringWidth max_width groups
          /\ Forall (fun l => fits stringWidth max_width l = true) lines).
Proof.
  intros stringWidth max_width text Hfit lines.
  assert (Hwords : split (join [space] lines) = split text).
  { subst lines. unfold wrap_text.
    pose proof (split_words text) as Hw.
    destruct (split text) as [|w0 ws] eqn:Hs; [reflexivity|].
    rewrite split_join, wrap_loop_words. simpl.
    inversion Hw as [|? ? Hw0 Hws]; subst.
    rewrite (split_word Hw0), (concat_split_words Hws). reflexivity. }
  split; [exact Hwords|].
  split; [unfold collapse_whitespace; rewrite Hwords; reflexivity|].
  split.
  - intros x y drawn_lines.
    assert (Hd : split text <> [] -> drawn_lines = lines).
    { subst drawn_lines lines. unfold draw_wrapped, wrap_text.
      destruct (split text) as [|w0 ws]; [congruence|].
      intros _. apply draw_loop_lines. }
    split; [|exact Hd].
    destruct (split text) as [|w0 ws] eqn:Hs.
    + subst drawn_lines. unfold draw_wrapped, collapse_whitespace.
      rewrite Hs. reflexivity.
    + rewrite Hd by discriminate.
      unfold collapse_whitespace. rewrite Hwords, Hs. reflexivity.
  - intros Hne. subst lines. unfold wrap_text in *.
    destruct (split text) as [|w0 ws] eqn:Hs; [congruence|].
    destruct (@wrap_loop_greedy stringWidth max_width ws [w0] [])
      as (g' & rest & He & Hc & Hgr).
    + discriminate.
    + apply extensions_fit_single.
    + exists (([w0] ++ g') :: rest).
      change (join [space] [w0]) with w0 in He.
      split; [exact He|]. split; [exact Hc|]. split; [exact Hgr|].
      rewrite He. apply greedy_groups_lines_fit; [exact Hgr|].
      rewrite Hc. exact Hfit.
Qed.

(** C1 at a sentence with irregular spacing, on the fixed-pitch canvas. *)
Lemma wrap_text_lossless_greedy_witness :
  collapse_whitespace
    (join [space]
       (wrap_text fixed_pitch (lit "  Virat  Kohli is an Indian cricketer ")
          (60 # 1)))
  = collapse_whitespace (lit "  Virat  Kohli is an Indian cricketer ").
Proof.
  apply (wrap_text_lossless_greedy fixed_pitch (60 # 1)
           (lit "  Virat  Kohli is an Indian cricketer ")).
  vm_compute. repeat constructor.
Defined.

Example wrap_text_example :
  wrap_text fixed_pitch (lit "  Virat  Kohli is an Indian cricketer ") (60 # 1)
  = [lit "Virat Kohli"; lit "is an Indian"; lit "cricketer"].
Proof. vm_compute. reflexivity. Qed.

(** ** Whitespace collapse and the sanitizer *)

Lemma join_cons sep x l :
  l <> [] -> join sep (x :: l) = x ++ sep ++ join sep l.
Proof. destruct l; [congruence | reflexivity]. Qed.

Lemma lstrip_clean s : starts_clean s -> lstrip s = s.
Proof. destruct s as [|c r]; simpl; [reflexivity|]. intros ->. reflexivity. Qed.

Lemma sub_ws_true_clean s : starts_clean (sub_ws_from true s).
Proof.
  induction s as [|c r IH]; simpl; [exact I|].
  destruct (isspace c) eqn:Hc; [exact IH | exact Hc].
Qed.

Lemma lstrip_sub_ws b s : lstrip (sub_ws_from b s) = sub_ws_from true s.
Proof.
  destruct s as [|c r]; [reflexivity|]. simpl.
  destruct (isspace c) eqn:Hc.
  - destruct b; simpl; apply lstrip_clean, sub_ws_true_clean.
  - simpl. rewrite Hc. reflexivity.
Qed.

(** The collapsed text is the words of [split], one space apart, with
    at most one more space behind the last word. *)
Lemma sub_ws_from_split s : forall cur,
  exists tr,
    (tr = [] \/ (tr = [space] /\ split_from cur s <> []))
    /\ rev cur ++ sub_ws_from (match cur with [] => true | _ => false end) s
       = join [space] (split_from cur s) ++ tr.
Proof.
  induction s as [|c r IH]; intros cur.
  - exists []. split; [left; reflexivity|]. simpl.
    destruct cur; simpl; rewrite ?app_nil_r; reflexivity.
  - simpl. destruct (isspace c) eqn:Hc.
    + destruct cur as [|x cur].
      * apply (IH []).
      * destruct (IH []) as (tr & Htr & He). simpl in He.
        destruct (split_from [] r) as [|w ws] eqn:Hs.
        -- exists [space]. split; [right; split; [reflexivity|discriminate]|].
           destruct Htr as [->|[_ Hne]]; [|congruence].
           simpl in He. rewrite He. reflexivity.
        -- exists tr. split.
           ++ destruct Htr as [->|[-> _]];
                [left; reflexivity | right; split; [reflexivity|discriminate]].
           ++ rewrite He.
              change (join [space] (rev (x :: cur) :: w :: ws))
                with (rev (x :: cur) ++ [space] ++ join [space] (w :: ws)).
              rewrite <- !app_assoc. reflexivity.
    + destruct (IH (c :: cur)) as (tr & Htr & He).
      exists tr. split; [exact Htr|].
      rewrite <- He. simpl. rewrite <- app_assoc. reflexivity.
Qed.

Lemma join_words_nonempty ws :
  Forall is_word ws -> ws <> [] -> join [space] ws <> [].
Proof.
  intros Hw Hne. destruct ws as [|w ws]; [congruence|].
  inversion Hw as [|? ? [Hw0 _] _]; subst.
  destruct ws; simpl; [exact Hw0|].
  destruct w; [congruence | discriminate].
Qed.

Lemma word_rev_clean w : is_word w -> starts_clean (rev w) /\ rev w <> [].
Proof.
  intros [Hne Hw]. apply no_space_rev in Hw.
  destruct (rev w) as [|c r] eqn:Hr.
  - apply (f_equal (@rev char)) in Hr. rewrite rev_involutive in Hr.
    simpl in Hr. congruence.
  - split; [|discriminate]. simpl.
    unfold no_space in Hw. simpl in Hw.
    apply andb_true_iff in Hw as [Hc _]. apply negb_true_iff, Hc.
Qed.

Lemma starts_clean_app a b : a <> [] -> starts_clean a -> starts_clean (a ++ b).
Proof. destruct a; [congruence|]. intros _ H. exact H. Qed.

Lemma join_words_ends_clean ws :
  Forall is_word ws -> starts_clean (rev (join [space] ws)).
Proof.
  induction 1 as [|w ws Hw Hws IH]; [exact I|].
  destruct ws as [|w' ws].
  - simpl. apply word_rev_clean, Hw.
  - rewrite join_cons by discriminate.
    rewrite !rev_app_distr.
    assert (Hne : rev (join [space] (w' :: ws)) <> []).
    { intros Hr. apply (f_equal (@rev char)) in Hr.
      rewrite rev_involutive in Hr.
      apply (join_words_nonempty Hws); [discriminate | exact Hr]. }
    apply starts_clean_app.
    + intros Hr. apply app_eq_nil in Hr as [Hr _]. exact (Hne Hr).
    + apply starts_clean_app; [exact Hne | apply IH].
Qed.

(** [re.sub(r"\s+", " ", t).strip()] is [" ".join(t.split())]. *)
Lemma strip_sub_ws s : strip (sub_ws s) = collapse_whitespace s.
Proof.
  unfold strip, sub_ws, collapse_whitespace, split.
  rewrite lstrip_sub_ws.
  destruct (sub_ws_from_split s []) as (tr & Htr & He). simpl in He.
  rewrite He. unfold rstrip.
  pose proof (join_words_ends_clean (split_words s)) as Hc.
  unfold split in Hc.
  destruct Htr as [->|[-> _]].
  - rewrite app_nil_r, lstrip_clean, rev_involutive by exact Hc. reflexivity.
  - rewrite rev_app_distr. simpl.
    rewrite lstrip_clean, rev_involutive by exact Hc. reflexivity.
Qed.

Lemma in_join_space c ws :
  In c (join [space] ws) -> c = space \/ exists w, In w ws /\ In c w.
Proof.
  induction ws as [|w ws IH]; [intros []|].
  destruct ws as [|w' ws].
  - simpl. intros H. right. exists w. auto.
  - rewrite join_cons by discriminate. rewrite !in_app_iff.
    intros [H|[[H|[]]|H]].
    + right. exists w. split; [left; reflexivity | exact H].
    + left. symmetry. exact H.
    + destruct (IH H) as [->|(w0 & Hin & Hc)]; [left; reflexivity|].
      right. exists w0. split; [right; exact Hin | exact Hc].
Qed.

Lemma split_from_chars s : forall cur w c,
  In w (split_from cur s) -> In c w -> In c cur \/ In c s.
Proof.
  induction s as [|x s IH]; intros cur w c Hw Hc; simpl in Hw.
  - destruct cur as [|y cur]; [destruct Hw|].
    destruct Hw as [<-|[]]. left. apply in_rev. exact Hc.
  - destruct (isspace x).
    + destruct cur as [|y cur].
      * destruct (IH _ _ _ Hw Hc) as [[]|H]. right. right. exact H.
      * destruct Hw as [<-|Hw].
        -- left. apply in_rev. exact Hc.
        -- destruct (IH _ _ _ Hw Hc) as [[]|H]. right. right. exact H.
    + destruct (IH _ _ _ Hw Hc) as [[<-|H]|H].
      * right. left. reflexivity.
      * left. exact H.
      * right. right. exact H.
Qed.

(** A character of the collapsed text is the separating space or a
    character of the text that is not whitespace. *)
Lemma in_collapse_whitespace c t :
  In c (collapse_whitespace t) ->
  c = space \/ (In c t /\ isspace c = false).
Proof.
  intros H. apply in_join_space in H as [->|(w & Hw & Hc)]; [left; reflexivity|].
  right. split.
  - destruct (split_from_chars _ _ _ _ Hw Hc) as [[]|H]. exact H.
  - pose proof (split_words t) as Hall.
    rewrite Forall_forall in Hall. destruct (Hall w Hw) as [_ Hns].
    unfold no_space in Hns. rewrite forallb_forall in Hns.
    apply negb_true_iff, Hns, Hc.
Qed.

Lemma kept_ascii_range U c :
  keep_char U c = true -> is_ascii c = true ->
  c = newline \/ (32 <= c <= 126)%N.
Proof.
  unfold keep_char, isprintable, is_ascii, char_eqb, newline.
  intros Hk Ha. rewrite Ha in Hk.
  apply orb_true_iff in Hk as [Hk|Hk].
  - left. apply N.eqb_eq, Hk.
  - right. apply andb_true_iff in Hk as [_ Hk].
    apply andb_true_iff in Hk as [H1 H2].
    apply N.leb_le in H1, H2. lia.
Qed.

Lemma sanitize_for_pdf_collapse U text :
  sanitize_for_pdf U text
  = collapse_whitespace
      (encode_ascii_ignore (filter (keep_char U) (normalize_NFKD U text))).
Proof.
  unfold sanitize_for_pdf. destruct text as [|c r]; [reflexivity|].
  apply strip_sub_ws.
Qed.

(** On ASCII text the two filters together keep the newline and the
    codes 32 to 126, and nothing else. *)
Lemma ascii_filters U l :
  forallb is_ascii l = true ->
  encode_ascii_ignore (filter (keep_char U) l)
  = filter (fun c => char_eqb c newline || ((32 <=? c) && (c <=? 126))%N) l.
Proof.
  unfold encode_ascii_ignore.
  induction l as [|c l IH]; intros Ha; [reflexivity|].
  cbn [forallb] in Ha. apply andb_true_iff in Ha as [Hc Hl].
  cbn [filter].
  assert (Hk : keep_char U c
               = char_eqb c newline || ((32 <=? c) && (c <=? 126))%N).
  { unfold keep_char, isprintable. rewrite Hc.
    destruct (char_eqb c newline), (32 <=? c)%N, (c <=? 126)%N; reflexivity. }
  rewrite Hk.
  destruct (char_eqb c newline || ((32 <=? c) && (c <=? 126))%N).
  - cbn [filter]. rewrite Hc, IH by exact Hl. reflexivity.
  - apply IH, Hl.
Qed.

Lemma filter_keeps_all (A : Type) (f : A -> bool) (l : list A) :
  forallb f l = true -> filter f l = l.
Proof.
  induction l as [|x l IH]; simpl; [reflexivity|].
  intros H. apply andb_true_iff in H as [Hx Hl].
  rewrite Hx, IH by exact Hl. reflexivity.
Qed.

(** C2.  [sanitize_for_pdf] is: NFKD normalization, the filter that
    keeps a newline and otherwise only printable characters from code
    32 on (so every control character but the newline goes), the
    restriction to ASCII, and the collapse of whitespace runs to single
    spaces.  The result is therefore a sequence of whitespace-free
    words one space apart, every character of it is printable ASCII
    (codes 32 to 126), and it holds no control character; the newline
    the filter kept is itself whitespace and ends as a space.  Nothing
    renderable is lost: every character from 32 to 126 passes both
    filters; on ASCII text the result is the whitespace collapse of the
    text without its characters other than the newline and the codes 32
    to 126; text of printable ASCII characters only changes in its
    whitespace, and not at all when it is already words one space
    apart. *)
Theorem sanitize_for_pdf_renderable :
  forall (U : unicode_db) (text : str),
    let out := sanitize_for_pdf U text in
    out = collapse_whitespace
            (encode_ascii_ignore
               (filter (keep_char U) (normalize_NFKD U text)))
    /\ keep_char U newline = true
    /\ (forall c, is_control c = true -> c <> newline ->
                  keep_char U c && is_ascii c = false)
    /\ (exists words, out = join [space] words /\ Forall is_word words)
    /\ Forall (fun c => (32 <= c <= 126)%N) out
    /\ Forall (fun c => c = newline \/ is_control c = false) out
    /\ (forall c, (32 <= c <= 126)%N ->
                  keep_char U c = true /\ is_ascii c = true)
    /\ (forallb is_ascii text = true ->
        out = collapse_whitespace
                (filter
                   (fun c => char_eqb c newline
                             || ((32 <=? c) && (c <=? 126))%N)
                   text))
    /\ (Forall (fun c => (32 <= c <= 126)%N) text ->
        out = collapse_whitespace text)
    /\ (forall words,
          Forall is_word words ->
          Forall (Forall (fun c => (32 <= c <= 126)%N)) words ->
          sanitize_for_pdf U (join [space] words) = join [space] words).
Proof.
  intros U text out.
  assert (He := sanitize_for_pdf_collapse U text). fold out in He.
  assert (Hrange : Forall (fun c => (32 <= c <= 126)%N) out).
  { apply Forall_forall. intros c Hc. rewrite He in Hc.
    apply in_collapse_whitespace in Hc as [->|[Hin Hsp]].
    - unfold space. lia.
    - unfold encode_ascii_ignore in Hin.
      apply filter_In in Hin as [Hin Ha].
      apply filter_In in Hin as [_ Hk].
      destruct (kept_ascii_range U c Hk Ha) as [->|H]; [discriminate | exact H]. }
  assert (Hpass : forall c, (32 <= c <= 126)%N ->
                            keep_char U c = true /\ is_ascii c = true).
  { intros c Hc.
    assert (Ha : is_ascii c = true) by (apply N.ltb_lt; lia).
    split; [|exact Ha].
    unfold keep_char, isprintable. rewrite Ha.
    replace (32 <=? c)%N with true by (symmetry; apply N.leb_le; lia).
    replace (c <=? 126)%N with true by (symmetry; apply N.leb_le; lia).
    apply orb_true_r. }
  assert (Hkept : forall t, Forall (fun c => (32 <= c <= 126)%N) t ->
                            sanitize_for_pdf U t = collapse_whitespace t).
  { intros t Ht. rewrite sanitize_for_pdf_collapse.
    assert (Ha : forallb is_ascii t = true).
    { apply forallb_forall. intros c Hc. rewrite Forall_forall in Ht.
      apply Hpass, Ht, Hc. }
    rewrite ascii_filters;
      [|unfold normalize_NFKD; rewrite Ha; exact Ha].
    unfold normalize_NFKD. rewrite Ha.
    rewrite filter_keeps_all; [reflexivity|].
    apply forallb_forall. intros c Hc. rewrite Forall_forall in Ht.
    specialize (Ht c Hc).
    replace (32 <=? c)%N with true by (symmetry; apply N.leb_le; lia).
    replace (c <=? 126)%N with true by (symmetry; apply N.leb_le; lia).
    apply orb_true_r. }
  split; [exact He|].
  split; [reflexivity|].
  split.
  { intros c Hc Hn. unfold is_control in Hc.
    destruct (keep_char U c) eqn:Hk; [|reflexivity].
    destruct (is_ascii c) eqn:Ha; [|reflexivity].
    exfalso. destruct (kept_ascii_range U c Hk Ha) as [->|H]; [congruence|].
    apply orb_true_iff in Hc as [Hc|Hc].
    - apply N.ltb_lt in Hc. lia.
    - apply andb_true_iff in Hc as [Hc _]. apply N.leb_le in Hc. lia. }
  split.
  { eexists. split; [exact He | apply split_words]. }
  split; [exact Hrange|].
  split.
  { eapply Forall_impl; [|exact Hrange].
    intros c Hc. cbv beta in Hc. right. unfold is_control.
    apply orb_false_iff. split.
    - apply N.ltb_ge. lia.
    - apply andb_false_iff. left. apply N.leb_gt. lia. }
  split; [exact Hpass|].
  split.
  { intros Ha. rewrite He. unfold normalize_NFKD. rewrite Ha.
    rewrite ascii_filters by exact Ha. reflexivity. }
  split; [intros Ht; apply Hkept, Ht|].
  intros words Hw Hp. rewrite Hkept.
  - unfold collapse_whitespace.
    rewrite split_join, concat_split_words by exact Hw. reflexivity.
  - apply Forall_forall. intros c Hc.
    apply in_join_space in Hc as [->|(w & Hin & Hc)].
    + unfold space. lia.
    + rewrite Forall_forall in Hp. specialize (Hp w Hin).
      rewrite Forall_forall in Hp. apply Hp, Hc.
Qed.

Example sanitize_for_pdf_example :
  sanitize_for_pdf ascii_db
    ([9; 77; 83; 10; 10; 68; 104; 111; 110; 105; 7; 32; 32; 33; 127]%N)
  = lit "MS Dhoni !".
Proof. vm_compute. reflexivity. Qed.

(** ** Infobox lookups and field precedence *)

Lemma str_eqb_eq a : forall b, str_eqb a b = true <-> a = b.
Proof.
  induction a as [|x a IH]; intros [|y b]; simpl; split; intros H;
    try reflexivity; try discriminate.
  - apply andb_true_iff in H as [Hx Ha].
    apply N.eqb_eq in Hx. apply IH in Ha. congruence.
  - inversion H; subst. apply andb_true_iff. split.
    + apply N.eqb_refl.
    + apply IH. reflexivity.
Qed.

Lemma str_eqb_refl a : str_eqb a a = true.
Proof. apply str_eqb_eq. reflexivity. Qed.

Lemma str_eqb_neq a b : a <> b -> str_eqb a b = false.
Proof.
  intros H. destruct (str_eqb a b) eqn:E; [|reflexivity].
  apply str_eqb_eq in E. contradiction.
Qed.

Lemma truthy_true v : truthy v = true <-> v <> [].
Proof. destruct v; simpl; split; congruence. Qed.

Lemma get_In (V : Type) (d : dict V) k v : PyDict.get d k = Some v -> In (k, v) d.
Proof.
  induction d as [|[k' v'] d IH]; simpl; [discriminate|].
  destruct (str_eqb k' k) eqn:E.
  - apply str_eqb_eq in E. intros H. inversion H; subst. left. reflexivity.
  - intros H. right. apply IH, H.
Qed.

Lemma startswith_refl s : startswith s s = true.
Proof.
  induction s as [|c s IH]; [reflexivity|]. simpl.
  unfold char_eqb. rewrite N.eqb_refl. exact IH.
Qed.

Lemma contains_refl s : contains s s = true.
Proof.
  destruct s as [|c s]; [reflexivity|].
  change (contains (c :: s) (c :: s))
    with (startswith (c :: s) (c :: s) || contains s (c :: s)).
  rewrite startswith_refl. reflexivity.
Qed.

(** The exact loop returns the value of the first candidate key, in the
    order of [keys], that the infobox maps to a non-empty value. *)
Lemma find_exact_some infobox keys v :
  find_exact infobox keys = Some v <->
  exists before k after,
    keys = before ++ k :: after
    /\ PyDict.get infobox k = Some v /\ v <> []
    /\ forall k', In k' before ->
                  PyDict.get infobox k' = None \/ PyDict.get infobox k' = Some [].
Proof.
  induction keys as [|k keys IH]; simpl.
  - split; [discriminate|]. intros (b & k & a & H & _).
    destruct b; discriminate.
  - split.
    + destruct (PyDict.get infobox k) as [u|] eqn:Hk.
      * destruct (truthy u) eqn:Hu.
        -- intros H. inversion H; subst. exists [], k, keys.
           repeat split; auto.
           ++ apply truthy_true, Hu.
           ++ intros k' [].
        -- intros H. apply IH in H as (b & k0 & a & -> & Hg & Hv & Hb).
           exists (k :: b), k0, a. repeat split; auto.
           intros k' [<-|Hin]; [|apply Hb, Hin].
           right. destruct u; [exact Hk | discriminate].
      * intros H. apply IH in H as (b & k0 & a & -> & Hg & Hv & Hb).
        exists (k :: b), k0, a. repeat split; auto.
        intros k' [<-|Hin]; [left; exact Hk | apply Hb, Hin].
    + intros (b & k0 & a & He & Hg & Hv & Hb).
      destruct b as [|k1 b]; simpl in He; inversion He; subst.
      * rewrite Hg. apply truthy_true in Hv. rewrite Hv. reflexivity.
      * assert (Hrest : find_exact infobox (b ++ k0 :: a) = Some v).
        { apply IH. exists b, k0, a. repeat split; auto.
          intros k' Hin. apply Hb. right. exact Hin. }
        destruct (Hb k1 (or_introl eq_refl)) as [-> | ->]; exact Hrest.
Qed.

Lemma find_exact_none infobox keys :
  find_exact infobox keys = None <->
  forall k, In k keys -> PyDict.get infobox k = None \/ PyDict.get infobox k = Some [].
Proof.
  induction keys as [|k keys IH]; simpl.
  - split; [intros _ k []|reflexivity].
  - destruct (PyDict.get infobox k) as [u|] eqn:Hk.
    + destruct u as [|c u]; simpl.
      * rewrite IH. split.
        -- intros H k' [<-|Hin]; [right; exact Hk | apply H, Hin].
        -- intros H k' Hin. apply H. right. exact Hin.
      * split; [discriminate|]. intros H.
        destruct (H k (or_introl eq_refl)) as [H'|H']; congruence.
    + rewrite IH. split.
      * intros H k' [<-|Hin]; [left; exact Hk | apply H, Hin].
      * intros H k' Hin. apply H. right. exact Hin.
Qed.

Lemma find_relaxed_none U items keys :
  (forall k v, In (k, v) items -> v <> [] -> relaxed_match U keys k = false) ->
  find_relaxed U items keys = None.
Proof.
  induction items as [|[k v] items IH]; intros H; simpl; [reflexivity|].
  destruct (truthy v) eqn:Hv.
  - fold (relaxed_match U keys k).
    rewrite (H k v (or_introl eq_refl)) by (apply truthy_true, Hv).
    simpl. apply IH. intros k' v' Hin. apply H. right. exact Hin.
  - rewrite andb_false_r. apply IH. intros k' v' Hin. apply H. right. exact Hin.
Qed.

Lemma relaxed_match_self U keys k : In k keys -> relaxed_match U keys k = true.
Proof.
  intros Hin. unfold relaxed_match. apply existsb_exists.
  exists k. split; [exact Hin | apply contains_refl].
Qed.

Lemma find_value_neither U infobox keys :
  (forall k v, In (k, v) infobox -> v <> [] -> relaxed_match U keys k = false) ->
  find_value U infobox keys = [].
Proof.
  intros H. unfold find_value.
  assert (He : find_exact infobox keys = None).
  { apply find_exact_none. intros k Hin.
    destruct (PyDict.get infobox k) as [[|c v]|] eqn:Hg; auto.
    apply get_In in Hg.
    assert (Hf : relaxed_match U keys k = false)
      by (apply (H k (c :: v) Hg); discriminate).
    rewrite (relaxed_match_self U keys k Hin) in Hf. discriminate. }
  rewrite He, find_relaxed_none by exact H. reflexivity.
Qed.

(** The relaxed loop returns the value of the first item, in insertion
    order, whose key matches a candidate and whose value is not empty. *)
Lemma find_relaxed_some U items keys v :
  find_relaxed U items keys = Some v <->
  exists before k after,
    items = before ++ (k, v) :: after
    /\ relaxed_match U keys k = true /\ v <> []
    /\ forall k' v', In (k', v') before ->
                     relaxed_match U keys k' = false \/ v' = [].
Proof.
  induction items as [|[k0 v0] items IH]; simpl.
  - split; [discriminate|]. intros (b & k & a & H & _).
    destruct b; discriminate.
  - fold (relaxed_match U keys k0).
    destruct (relaxed_match U keys k0 && truthy v0) eqn:Hm.
    + apply andb_true_iff in Hm as [Hr Ht]. split.
      * intros H. inversion H; subst. exists [], k0, items.
        repeat split; auto; [apply truthy_true, Ht | intros ? ? []].
      * intros (b & k & a & He & Hk & Hv & Hb).
        destruct b as [|[k1 v1] b]; simpl in He; inversion He; subst.
        -- reflexivity.
        -- destruct (Hb k1 v1 (or_introl eq_refl)) as [H|H].
           ++ congruence.
           ++ subst. discriminate.
    + rewrite IH. split.
      * intros (b & k & a & -> & Hk & Hv & Hb).
        exists ((k0, v0) :: b), k, a. repeat split; auto.
        intros k' v' [H|Hin]; [|apply (Hb _ _ Hin)].
        inversion H; subst.
        apply andb_false_iff in Hm as [Hm|Hm]; [left; exact Hm|].
        right. destruct v'; [reflexivity | discriminate].
      * intros (b & k & a & He & Hk & Hv & Hb).
        destruct b as [|[k1 v1] b]; simpl in He; inversion He; subst.
        -- apply truthy_true in Hv. rewrite Hk, Hv in Hm. discriminate.
        -- exists b, k, a. repeat split; auto.
           intros k' v' Hin. apply (Hb k' v'). right. exact Hin.
Qed.

Lemma find_value_infobox_value U infobox candidates :
  infobox_value U infobox candidates (find_value U infobox candidates).
Proof.
  split; [|split].
  - intros before k after v He Hg Hv Hb. unfold find_value.
    assert (Hf : find_exact infobox candidates = Some v).
    { apply find_exact_some. exists before, k, after. auto. }
    rewrite Hf. reflexivity.
  - intros before k after v He Hm Hv Hb. unfold find_value.
    apply find_exact_none in H. rewrite H.
    assert (Hf : find_relaxed U infobox candidates = Some v).
    { apply find_relaxed_some. exists before, k, after. auto. }
    rewrite Hf. reflexivity.
  - apply find_value_neither.
Qed.

(** C3.  Every field of [derive_basic_fields].  The team: a non-empty
    hint wins over any infobox value; with an empty hint the infobox
    value under [Current team], else under [Team], is used; with neither
    a hint nor a non-empty infobox value under a matching key the field
    is the empty string.  The hint changes no field but the team.  Runs,
    wickets and matches are what the infobox gives for their candidate
    keys, the role is the value under [Role], the country the non-empty
    value under [National side] and else what the infobox gives for
    [Country], the age is derived from the value under [Born]; each of
    them is the empty string when the infobox has nothing for it.  Every
    lookup is total, so no error is raised; an empty infobox with no
    hint gives seven empty fields.  In [find_value] the relaxed,
    case-insensitive substring match is consulted only when no candidate
    key has a non-empty value under exact lookup: otherwise the result
    is the value of the first candidate key that has one. *)
Theorem derive_basic_fields_precedence :
  forall (U : unicode_db) (now : Z) (infobox : dict str) (hint : str),
    let team := ipl_team (derive_basic_fields U now infobox hint) in
    let keys := [lit "Current team"; lit "Team"] in
    (hint <> [] -> team = hint)
    /\ (hint = [] ->
        (forall v, PyDict.get infobox (lit "Current team") = Some v ->
                   v <> [] -> team = v)
        /\ (forall v,
              PyDict.get infobox (lit "Current team") = None
              \/ PyDict.get infobox (lit "Current team") = Some [] ->
              PyDict.get infobox (lit "Team") = Some v -> v <> [] ->
              team = v)
        /\ ((forall k v, In (k, v) infobox -> v <> [] ->
                         relaxed_match U keys k = false) ->
            team = []))
    /\ derive_basic_fields U now [] []
       = {| age := []; runs := []; wickets := []; matches := [];
            role := []; country := []; ipl_team := [] |}
    /\ (let with_hint := derive_basic_fields U now infobox hint in
        let without := derive_basic_fields U now infobox [] in
        age with_hint = age without /\ runs with_hint = runs without
        /\ wickets with_hint = wickets without
        /\ matches with_hint = matches without
        /\ role with_hint = role without
        /\ country with_hint = country without)
    /\ (forall candidates,
          ((forall k v, In (k, v) infobox -> v <> [] ->
                        relaxed_match U candidates k = false) ->
           find_value U infobox candidates = []) /\
          (forall before k after v,
             candidates = before ++ k :: after ->
             PyDict.get infobox k = Some v -> v <> [] ->
             (forall k', In k' before ->
                PyDict.get infobox k' = None
                \/ PyDict.get infobox k' = Some []) ->
             find_value U infobox candidates = v)
          /\ ((forall k, In k candidates ->
                 PyDict.get infobox k = None
                 \/ PyDict.get infobox k = Some []) ->
              find_value U infobox candidates
              = match find_relaxed U infobox candidates with
                | Some v => v
                | None => []
                end))
    /\ (let fields := derive_basic_fields U now infobox hint in
        (hint = [] -> infobox_value U infobox keys (ipl_team fields))
        /\ infobox_value U infobox
             [lit "Runs"; lit "Runs scored"; lit "IPL runs"] (runs fields)
        /\ infobox_value U infobox
             [lit "Wickets"; lit "IPL wickets"] (wickets fields)
        /\ infobox_value U infobox
             [lit "Matches"; lit "No. of IPL matches"; lit "IPL matches"]
             (matches fields)
        /\ (forall v, PyDict.get infobox (lit "Role") = Some v ->
                      role fields = v)
        /\ (PyDict.get infobox (lit "Role") = None -> role fields = [])
        /\ (forall v, PyDict.get infobox (lit "National side") = Some v ->
                      v <> [] -> country fields = v)
        /\ (PyDict.get infobox (lit "National side") = None
            \/ PyDict.get infobox (lit "National side") = Some [] ->
            infobox_value U infobox [lit "Country"] (country fields))
        /\ (forall born, PyDict.get infobox (lit "Born") = Some born ->
                         age fields = extract_age_from_born U now born)
        /\ (PyDict.get infobox (lit "Born") = None -> age fields = []))
    /\ (forall candidates k,
          relaxed_match U candidates k = true
          <-> exists c, In c candidates
                        /\ contains (lower U k) (lower U c) = true).
Proof.
  intros U now infobox hint team keys.
  assert (Hteam : hint = [] -> team = find_value U infobox keys).
  { intros ->. reflexivity. }
  assert (Hexact : forall candidates before k after v,
             candidates = before ++ k :: after ->
             PyDict.get infobox k = Some v -> v <> [] ->
             (forall k', In k' before ->
                PyDict.get infobox k' = None
                \/ PyDict.get infobox k' = Some []) ->
             find_value U infobox candidates = v).
  { intros candidates before k after v He Hg Hv Hb. unfold find_value.
    assert (Hf : find_exact infobox candidates = Some v).
    { apply find_exact_some. exists before, k, after. auto. }
    rewrite Hf. reflexivity. }
  split.
  { intros Hh. subst team. unfold derive_basic_fields. simpl.
    unfold str_or. apply truthy_true in Hh. rewrite Hh. reflexivity. }
  split.
  { intros Hh. rewrite (Hteam Hh). split; [|split].
    - intros v Hg Hv.
      apply (Hexact keys [] (lit "Current team") [lit "Team"] v); auto.
      intros k' [].
    - intros v Hc Hg Hv.
      apply (Hexact keys [lit "Current team"] (lit "Team") [] v); auto.
      intros k' [<-|[]]. exact Hc.
    - apply find_value_neither. }
  split; [reflexivity|].
  split; [repeat split|].
  split.
  { intros candidates. split; [apply find_value_neither|].
    split; [apply Hexact|].
    intros Hnone. unfold find_value.
    apply find_exact_none in Hnone. rewrite Hnone. reflexivity. }
  split.
  { cbv zeta. cbn [derive_basic_fields ipl_team runs wickets matches role
                   country age].
    split.
    { intros ->. apply find_value_infobox_value. }
    split; [apply find_value_infobox_value|].
    split; [apply find_value_infobox_value|].
    split; [apply find_value_infobox_value|].
    unfold get_or_empty.
    split; [intros v Hv; rewrite Hv; reflexivity|].
    split; [intros Hv; rewrite Hv; reflexivity|].
    split.
    { intros v Hv Hne. rewrite Hv.
      apply truthy_true in Hne. rewrite Hne. reflexivity. }
    split.
    { intros [Hv|Hv]; rewrite Hv; apply find_value_infobox_value. }
    split; [intros born Hb; rewrite Hb; reflexivity|].
    intros Hb. rewrite Hb. reflexivity. }
  intros candidates k. unfold relaxed_match. apply existsb_exists.
Qed.

(** C3 at the sample infobox, with a hint that differs from its team. *)
Lemma derive_basic_fields_precedence_witness :
  ipl_team (derive_basic_fields ascii_db 2026 sample_infobox
              (lit "Delhi Capitals"))
  = lit "Delhi Capitals".
Proof.
  refine (proj1 (derive_basic_fields_precedence ascii_db 2026 sample_infobox
                   (lit "Delhi Capitals")) _).
  intros H. vm_compute in H. discriminate H.
Defined.

Example derive_basic_fields_example :
  derive_basic_fields ascii_db 2026 sample_infobox []
  = {| age := lit "38"; runs := lit "8004"; wickets := []; matches := [];
       role := lit "Top-order batter"; country := lit "India";
       ipl_team := lit "Royal Challengers Bengaluru" |}.
Proof. vm_compute. reflexivity. Qed.

(** ** Age derivation *)

Lemma search_d4_none U s :
  search_d4 U s = None <-> forall i, four_digits U (skipn i s) = None.
Proof.
  induction s as [|c s IH].
  - simpl. split; [|reflexivity]. intros _ [|i]; reflexivity.
  - change (search_d4 U (c :: s))
      with (match four_digits U (c :: s) with
            | Some m => Some m
            | None => search_d4 U s
            end).
    destruct (four_digits U (c :: s)) as [m|] eqn:Hf.
    + split; [discriminate|]. intros H. specialize (H O).
      change (four_digits U (c :: s) = None) in H. congruence.
    + rewrite IH. split.
      * intros H [|i]; [exact Hf | apply H].
      * intros H i. apply (H (S i)).
Qed.

Lemma search_d4_some U s m :
  search_d4 U s = Some m <->
  exists i, four_digits U (skipn i s) = Some m
            /\ forall j, (j < i)%nat -> four_digits U (skipn j s) = None.
Proof.
  induction s as [|c s IH].
  - simpl. split; [discriminate|]. intros (i & H & _).
    destruct i; discriminate.
  - change (search_d4 U (c :: s))
      with (match four_digits U (c :: s) with
            | Some m => Some m
            | None => search_d4 U s
            end).
    destruct (four_digits U (c :: s)) as [m0|] eqn:Hf.
    + split.
      * intros H. exists O.
        split; [change (four_digits U (c :: s) = Some m); congruence|].
        intros j Hj. lia.
      * intros (i & Hi & Hb).
        destruct i as [|i];
          [change (four_digits U (c :: s) = Some m) in Hi; congruence|].
        specialize (Hb O (Nat.lt_0_succ i)).
        change (four_digits U (c :: s) = None) in Hb. congruence.
    + rewrite IH. split.
      * intros (i & Hi & Hb). exists (S i). split; [exact Hi|].
        intros [|j] Hj; [exact Hf | apply Hb; lia].
      * intros (i & Hi & Hb).
        destruct i as [|i];
          [change (four_digits U (c :: s) = Some m) in Hi; congruence|].
        exists i. split; [exact Hi|]. intros j Hj. apply (Hb (S j)). lia.
Qed.

Lemma skipn_prefix (pre rest : str) : skipn (List.length pre) (pre ++ rest) = rest.
Proof. induction pre; simpl; auto. Qed.

Lemma decimal_value_ascii_digit U d :
  (d <= 9)%N -> decimal_value U (48 + d)%N = Some d.
Proof.
  intros Hd. unfold decimal_value, is_ascii, is_digit_ascii.
  replace (48 + d <? 128)%N with true by (symmetry; apply N.ltb_lt; lia).
  replace (48 <=? 48 + d)%N with true by (symmetry; apply N.leb_le; lia).
  replace (48 + d <=? 57)%N with true by (symmetry; apply N.leb_le; lia).
  simpl andb. cbv iota. f_equal. lia.
Qed.

Lemma search_d4_year U pre d1 d2 d3 d4 post :
  (forall j, (j < List.length pre)%nat ->
     four_digits U (skipn j (born_text_with_year pre d1 d2 d3 d4 post)) = None) ->
  (d1 <= 9)%N -> (d2 <= 9)%N -> (d3 <= 9)%N -> (d4 <= 9)%N ->
  search_d4 U (born_text_with_year pre d1 d2 d3 d4 post)
  = Some (d1, d2, d3, d4).
Proof.
  intros Hpre H1 H2 H3 H4. apply search_d4_some.
  exists (List.length pre). split; [|exact Hpre].
  unfold born_text_with_year.
  rewrite skipn_prefix. cbn [app]. unfold four_digits.
  rewrite !decimal_value_ascii_digit by assumption. reflexivity.
Qed.

(** C4.  [extract_age_from_born] takes the leftmost run of four digits of
    the birth text as the year.  Without such a run the age is the empty
    string; with one, the age is empty when the year is below 1900 or
    above the current year, and the decimal string of current year minus
    year otherwise.  So a text whose first digits are 1850 gives an
    empty age, and one whose first digits are the year 25 before the
    current one gives 25 (the clock being at 1925 or later, so that this
    year is not below 1900). *)
Theorem extract_age_from_born_spec :
  forall (U : unicode_db) (now : Z) (born_text : str),
    ((forall i, four_digits U (skipn i born_text) = None) ->
     extract_age_from_born U now born_text = [])
    /\ (forall i m,
          four_digits U (skipn i born_text) = Some m ->
          (forall j, (j < i)%nat ->
                     four_digits U (skipn j born_text) = None) ->
          let year := int_of_group m in
          ((year < 1900 \/ now < year)%Z ->
           extract_age_from_born U now born_text = [])
          /\ ((1900 <= year <= now)%Z ->
              extract_age_from_born U now born_text = str_of_int (now - year)))
    /\ (forall pre post,
          ((forall j, (j < List.length pre)%nat ->
              four_digits U (skipn j (born_text_with_year pre 1 8 5 0 post))
              = None) ->
           extract_age_from_born U now (born_text_with_year pre 1 8 5 0 post)
           = [])
          /\ (forall d1 d2 d3 d4,
                (d1 <= 9)%N -> (d2 <= 9)%N -> (d3 <= 9)%N -> (d4 <= 9)%N ->
                (forall j, (j < List.length pre)%nat ->
                   four_digits U
                     (skipn j (born_text_with_year pre d1 d2 d3 d4 post))
                   = None) ->
                int_of_group (d1, d2, d3, d4) = (now - 25)%Z ->
                (1925 <= now)%Z ->
                extract_age_from_born U now
                  (born_text_with_year pre d1 d2 d3 d4 post)
                = lit "25")).
Proof.
  intros U now born_text. split; [|split].
  - intros H. unfold extract_age_from_born.
    apply search_d4_none in H. rewrite H. reflexivity.
  - intros i m Hi Hb year.
    assert (Hs : search_d4 U born_text = Some m).
    { apply search_d4_some. exists i. auto. }
    unfold extract_age_from_born. rewrite Hs. fold year. split.
    + intros Hy.
      replace ((year <? 1900)%Z || (now <? year)%Z) with true; [reflexivity|].
      symmetry. apply orb_true_iff.
      destruct Hy as [Hy|Hy]; [left | right]; apply Z.ltb_lt; exact Hy.
    + intros [Hlo Hhi].
      replace ((year <? 1900)%Z || (now <? year)%Z) with false; [reflexivity|].
      symmetry. apply orb_false_iff. split; apply Z.ltb_ge; assumption.
  - intros pre post. split.
    + intros Hpre. unfold extract_age_from_born.
      rewrite search_d4_year by (assumption || lia).
      reflexivity.
    + intros d1 d2 d3 d4 H1 H2 H3 H4 Hpre Hy Hnow.
      unfold extract_age_from_born.
      rewrite search_d4_year by assumption. rewrite Hy.
      replace ((now - 25 <? 1900)%Z || (now <? now - 25)%Z) with false.
      * replace (now - (now - 25))%Z with 25%Z by lia. reflexivity.
      * symmetry. apply orb_false_iff. split; apply Z.ltb_ge; lia.
Qed.

(** C4 in 2026, at a birth text whose year is 2001. *)
Lemma extract_age_from_born_spec_witness :
  extract_age_from_born ascii_db 2026
    (born_text_with_year (lit "Born: 5 November ") 2 0 0 1 (lit " (age 25)"))
  = lit "25".
Proof.
  refine (proj2 (proj2 (proj2 (extract_age_from_born_spec ascii_db 2026 []))
                   (lit "Born: 5 November ") (lit " (age 25)"))
            2 0 0 1 _ _ _ _ _ _ _)%N; try lia; try reflexivity.
  intros j Hj.
  do 17 (destruct j as [|j]; [reflexivity|]).
  vm_compute in Hj. lia.
Defined.

Example extract_age_from_born_examples :
  extract_age_from_born ascii_db 2026 (lit "12 May 1850, London") = []
  /\ extract_age_from_born ascii_db 2026 (lit "7 July 1981 (age 44)") = lit "45"
  /\ extract_age_from_born ascii_db 2026 (lit "c. 2031") = []
  /\ extract_age_from_born ascii_db 2026 (lit "unknown") = [].
Proof. vm_compute. repeat split. Qed.

(** ** Dictionaries: lookup after update and after merge *)

Section DictFacts.

Variable V : Type.
Implicit Types (d : dict V) (k : str) (v : V).

Lemma get_set d k v k' :
  PyDict.get (set d k v) k' = if str_eqb k k' then Some v else PyDict.get d k'.
Proof.
  induction d as [|[k0 v0] d IH]; simpl.
  - reflexivity.
  - destruct (str_eqb k0 k) eqn:E0; simpl.
    + apply str_eqb_eq in E0. subst k0.
      destruct (str_eqb k k'); reflexivity.
    + destruct (str_eqb k0 k') eqn:E1; [|exact IH].
      apply str_eqb_eq in E1. subst k0. rewrite str_eqb_neq; [reflexivity|].
      intros ->. rewrite str_eqb_refl in E0. discriminate.
Qed.

Lemma get_none_keys d k : PyDict.get d k = None <-> ~ In k (keys d).
Proof.
  induction d as [|[k0 v0] d IH]; simpl.
  - split; auto.
  - destruct (str_eqb k0 k) eqn:E.
    + apply str_eqb_eq in E. split; [discriminate|]. intros H. exfalso. auto.
    + rewrite IH. split.
      * intros H [H'|H']; [|auto]. subst.
        rewrite str_eqb_refl in E. discriminate.
      * intros H H'. apply H. right. exact H'.
Qed.

(** [{**d, **newer}] has the entries of [newer], then those of [d]. *)
Lemma get_merge newer : forall d k,
  NoDup (keys newer) ->
  PyDict.get (merge d newer) k
  = match PyDict.get newer k with
    | Some v => Some v
    | None => PyDict.get d k
    end.
Proof.
  unfold merge.
  induction newer as [|[k0 v0] newer IH]; intros d k Hnd; simpl.
  - reflexivity.
  - inversion Hnd as [|? ? Hnotin Hnd']; subst.
    rewrite IH by exact Hnd'. rewrite get_set.
    destruct (str_eqb k0 k) eqn:E.
    + apply str_eqb_eq in E. subst k0.
      apply get_none_keys in Hnotin. rewrite Hnotin. reflexivity.
    + reflexivity.
Qed.

Lemma keys_set d k v k' :
  In k' (keys (set d k v)) <-> k' = k \/ In k' (keys d).
Proof.
  induction d as [|[k0 v0] d IH]; simpl.
  - split; intros [H|H]; auto.
  - destruct (str_eqb k0 k) eqn:E; simpl.
    + apply str_eqb_eq in E. subst k0. split; [auto|].
      intros [H|H]; auto.
    + rewrite IH. split; intros H; intuition.
Qed.

Lemma NoDup_set d k v : NoDup (keys d) -> NoDup (keys (set d k v)).
Proof.
  induction d as [|[k0 v0] d IH]; simpl; intros Hnd.
  - constructor; [intros []|constructor].
  - inversion Hnd as [|? ? Hnotin Hnd']; subst.
    destruct (str_eqb k0 k) eqn:E; simpl.
    + constructor; assumption.
    + constructor; [|apply IH, Hnd'].
      rewrite keys_set. intros [H|H]; [|auto]. subst.
      rewrite str_eqb_refl in E. discriminate.
Qed.

End DictFacts.

(** ** Metadata upsert *)

Section MetadataFacts.

Variable summary : Type.

Lemma run_players_spec (runs : list (player_run summary)) :
  forall (metadata : dict summary) count directory,
  let '(metadata', count', directory') :=
    run_players runs metadata count directory in
  (forall k,
     PyDict.get metadata' k
     = match last_success runs k with
       | Some r => Some r
       | None => PyDict.get metadata k
       end)
  /\ (NoDup (keys metadata) -> NoDup (keys metadata'))
  /\ (count' = O <-> count = O /\ Forall (fun r => succeeded r = false) runs)
  /\ directory' = directory || existsb (@makes_directory summary) runs.
Proof.
  induction runs as [|[n r|made] runs IH]; intros metadata count directory;
    cbn [run_players last_success existsb makes_directory].
  - split; [reflexivity|]. split; [auto|]. split.
    + split; [auto|]. intros [H _]. exact H.
    + rewrite orb_false_r. reflexivity.
  - specialize (IH (set metadata n r) (S count) true).
    destruct (run_players runs (set metadata n r) (S count) true)
      as [[m' c'] d'].
    destruct IH as (Hget & Hnd & Hc & Hd). split; [|split; [|split]].
    + intros k. rewrite Hget, get_set.
      destruct (last_success runs k); [reflexivity|].
      destruct (str_eqb n k); reflexivity.
    + intros H. apply Hnd, NoDup_set, H.
    + split.
      * intros H. apply Hc in H as [H _]. discriminate.
      * intros [_ H]. inversion H; subst. discriminate.
    + rewrite Hd. cbn [orb]. rewrite orb_true_r. reflexivity.
  - specialize (IH metadata count (directory || made)).
    destruct (run_players runs metadata count (directory || made))
      as [[m' c'] d'].
    destruct IH as (Hget & Hnd & Hc & Hd). split; [|split; [|split]].
    + intros k. rewrite Hget. destruct (last_success runs k); reflexivity.
    + exact Hnd.
    + split.
      * intros H. apply Hc in H as [H1 H2]. split; [exact H1|].
        constructor; [reflexivity | exact H2].
      * intros [H1 H2]. inversion H2; subst. apply Hc. auto.
    + rewrite Hd, orb_assoc. reflexivity.
Qed.

Lemma last_success_none (runs : list (player_run summary)) k :
  (forall n r, In (Done n r) runs -> n <> k) ->
  last_success runs k = None.
Proof.
  induction runs as [|o runs IH]; intros H; simpl; [reflexivity|].
  rewrite IH by (intros n r Hin; apply (H n r); right; exact Hin).
  destruct o as [n r|made]; [|reflexivity].
  rewrite str_eqb_neq; [reflexivity|]. apply (H n r). left. reflexivity.
Qed.

Lemma none_succeeded_last (runs : list (player_run summary)) k :
  Forall (fun r => succeeded r = false) runs -> last_success runs k = None.
Proof.
  intros Hall. apply last_success_none. intros n r Hin.
  rewrite Forall_forall in Hall. specialize (Hall _ Hin). discriminate.
Qed.

End MetadataFacts.

(** The end of [main] after a loop over the runs [runs]. *)
Lemma store_after_loop_spec :
  forall (summary : Type) (f : metadata_file summary)
         (runs : list (player_run summary)),
    let none_succeeded := Forall (fun r => succeeded r = false) runs in
    (store_after_loop f runs = Kept
     <-> none_succeeded /\ existing_truthy (load_existing f) = true)
    /\ (store_after_loop f runs = Kept -> file_of f (store_after_loop f runs) = f)
    /\ (forall existing,
          f = Stored existing -> existing <> [] -> none_succeeded ->
          store_after_loop f runs = Kept /\ file_of f (store_after_loop f runs) = f)
    /\ (none_succeeded -> f = Stored [] \/ f = Unreadable \/ f = Absent ->
        store_after_loop f runs = Written []
        /\ file_of f (store_after_loop f runs) = Stored [])
    /\ (none_succeeded -> f = NoDirectory ->
        store_after_loop f runs
        = if existsb (@makes_directory summary) runs
          then Written []
          else Aborted FileNotFoundError)
    /\ (forall truth,
          f = NotObject truth ->
          store_after_loop f runs
          = if forallb (fun r => negb (succeeded r)) runs && truth
            then Kept
            else Aborted TypeError)
    /\ (forall e, store_after_loop f runs = Aborted e -> file_of f (store_after_loop f runs) = f)
    /\ (forall existing,
          load_existing f = Mapping existing ->
          Exists (fun r => succeeded r = true) runs ->
          exists merged,
            store_after_loop f runs = Written merged
            /\ file_of f (store_after_loop f runs) = Stored merged)
    /\ (forall merged,
          store_after_loop f runs = Written merged ->
          exists existing,
            load_existing f = Mapping existing
            /\ forall k,
                 PyDict.get merged k
                 = match last_success runs k with
                   | Some r => Some r
                   | None => PyDict.get existing k
                   end)
    /\ (forall existing a va b vb,
          f = Stored existing ->
          PyDict.get existing a = Some va -> a <> b ->
          last_success runs b = Some vb ->
          (forall n r, In (Done n r) runs -> n = b) ->
          exists merged,
            store_after_loop f runs = Written merged
            /\ file_of f (store_after_loop f runs) = Stored merged
            /\ PyDict.get merged a = Some va
            /\ PyDict.get merged b = Some vb).
Proof.
  intros summary f runs none_succeeded.
  pose proof (run_players_spec runs [] O (directory_exists f)) as Hrun.
  unfold store_after_loop.
  destruct (run_players runs [] O (directory_exists f))
    as [[metadata count] directory] eqn:Hr.
  destruct Hrun as (Hget & Hnd & Hc & Hdir).
  assert (Hcount : (count =? 0)%nat = true <-> none_succeeded).
  { rewrite Nat.eqb_eq, Hc. tauto. }
  assert (Hzero : none_succeeded -> (count =? 0)%nat = true /\ metadata = []).
  { intros Hall. split; [apply Hcount, Hall|].
    destruct metadata as [|[k v] metadata]; [reflexivity|].
    specialize (Hget k). simpl in Hget. rewrite str_eqb_refl in Hget.
    rewrite none_succeeded_last in Hget by exact Hall. discriminate. }
  assert (Hsome : Exists (fun r => succeeded r = true) runs ->
                  (count =? 0)%nat = false /\ directory = true).
  { intros Hex. split.
    - destruct (count =? 0)%nat; [|reflexivity].
      assert (E : none_succeeded) by (apply Hcount; reflexivity).
      apply Exists_exists in Hex as (r & Hin & Hs).
      unfold none_succeeded in E. rewrite Forall_forall in E.
      specialize (E r Hin). congruence.
    - rewrite Hdir. apply orb_true_iff. right.
      apply Exists_exists in Hex as (r & Hin & Hs).
      apply existsb_exists. exists r. split; [exact Hin|].
      destruct r; [reflexivity | discriminate]. }
  assert (Hmerged : forall existing k,
            PyDict.get (merge existing metadata) k
            = match last_success runs k with
              | Some r => Some r
              | None => PyDict.get existing k
              end).
  { intros existing k. rewrite get_merge by (apply Hnd; constructor).
    rewrite Hget. simpl.
    destruct (last_success runs k); reflexivity. }
  split.
  { split.
    - intros H.
      destruct ((count =? 0)%nat && existing_truthy (load_existing f)) eqn:E.
      + apply andb_true_iff in E as [E1 E2].
        split; [apply Hcount, E1 | exact E2].
      + destruct (load_existing f); [destruct directory|]; discriminate.
    - intros [Hall Ht]. apply Hcount in Hall. rewrite Hall, Ht. reflexivity. }
  split.
  { intros H. rewrite H. reflexivity. }
  split.
  { intros existing -> Hne Hall. apply Hcount in Hall.
    cbn [load_existing existing_truthy]. rewrite Hall.
    destruct existing; [congruence|]. split; reflexivity. }
  split.
  { intros Hall Hf. destruct (Hzero Hall) as [Hz Hm].
    assert (Hd : directory = true).
    { rewrite Hdir. destruct Hf as [->|[->| ->]]; reflexivity. }
    rewrite Hz, Hm, Hd.
    destruct Hf as [->|[->| ->]]; split; reflexivity. }
  split.
  { intros Hall ->. destruct (Hzero Hall) as [Hz Hm].
    rewrite Hz, Hm, Hdir. cbn [load_existing existing_truthy andb
                                 directory_exists orb merge fold_left].
    reflexivity. }
  split.
  { intros truth ->. cbn [load_existing existing_truthy].
    assert (Hb : (count =? 0)%nat
                 = forallb (fun r => negb (succeeded r)) runs).
    { destruct (forallb _ runs) eqn:E.
      - apply Hcount. apply Forall_forall. intros r Hin.
        eapply forallb_forall in E; [|exact Hin].
        apply negb_true_iff, E.
      - destruct (count =? 0)%nat; [|reflexivity].
        assert (E' : none_succeeded) by (apply Hcount; reflexivity).
        rewrite <- E. symmetry.
        apply forallb_forall. intros r Hin.
        unfold none_succeeded in E'. rewrite Forall_forall in E'.
        rewrite (E' r Hin). reflexivity. }
    rewrite Hb. reflexivity. }
  split.
  { intros e H.
    destruct ((count =? 0)%nat && existing_truthy (load_existing f));
      [discriminate|].
    destruct (load_existing f); [destruct directory; [discriminate|]|];
      reflexivity. }
  split.
  { intros existing He Hex. destruct (Hsome Hex) as [Hz Hd].
    rewrite Hz, He, Hd. cbn [andb]. eexists. split; reflexivity. }
  split.
  { intros merged H.
    destruct ((count =? 0)%nat && existing_truthy (load_existing f));
      [discriminate|].
    destruct (load_existing f) as [existing|truth]; [|discriminate].
    destruct directory; [|discriminate].
    inversion H; subst. exists existing. split; [reflexivity|].
    apply Hmerged. }
  intros existing a va b vb -> Ha Hab Hb Honly.
  assert (Hex : Exists (fun r => succeeded r = true) runs).
  { clear - Hb. induction runs as [|r runs IH]; [discriminate|].
    cbn [last_success] in Hb.
    destruct (last_success runs b) eqn:Hl.
    - apply Exists_cons_tl, IH, Hb.
    - destruct r as [n r|made]; [|discriminate].
      apply Exists_cons_hd. reflexivity. }
  destruct (Hsome Hex) as [Hz Hd].
  cbn [load_existing]. rewrite Hz, Hd. cbn [andb].
  exists (merge existing metadata).
  split; [reflexivity|]. split; [reflexivity|].
  rewrite !Hmerged, Hb. split; [|reflexivity].
  rewrite last_success_none; [exact Ha|].
  intros n r Hin. rewrite (Honly n r Hin). congruence.
Qed.

(** C5 (as amended).  The store is not rewritten exactly when the run
    had no success and the prior store is not empty; the file then stays
    as it was.  When the file is written, the written mapping holds, for
    every name, the summary of the last success of the run under that
    name, and for a name the run did not produce the prior entry,
    unchanged.  So with a prior entry A and a run producing only B, the
    written store has A with its prior value and B; and a run without
    success over a prior store that is the empty mapping, or over an
    unreadable file, writes the empty mapping.  The other ends of
    [main] are there too: an empty list of players ends in the error of
    [main] before the file is read; without a prior file a run without
    success writes the empty mapping when the output directory exists
    and ends in [FileNotFoundError] when no player got as far as making
    it; a prior file that holds a value other than an object is kept by
    a run without success when the value is true and makes every other
    run end in [TypeError]; an error leaves the file as it was; and a
    run with a success over any other prior state writes the file. *)
Theorem metadata_upsert :
  forall (summary : Type) (f : metadata_file summary)
         (runs : list (player_run summary)),
    let none_succeeded := Forall (fun r => succeeded r = false) runs in
    (runs = [] -> main_store f runs = Aborted NoPlayersError)
    /\ (main_store f runs = Kept
        <-> runs <> [] /\ none_succeeded
            /\ existing_truthy (load_existing f) = true)
    /\ (main_store f runs = Kept -> file_after f runs = f)
    /\ (forall existing,
          f = Stored existing -> existing <> [] ->
          runs <> [] -> none_succeeded ->
          main_store f runs = Kept /\ file_after f runs = f)
    /\ (runs <> [] -> none_succeeded ->
        f = Stored [] \/ f = Unreadable \/ f = Absent ->
        main_store f runs = Written []
        /\ file_after f runs = Stored [])
    /\ (runs <> [] -> none_succeeded -> f = NoDirectory ->
        main_store f runs
        = if existsb (@makes_directory summary) runs
          then Written []
          else Aborted FileNotFoundError)
    /\ (forall truth,
          runs <> [] -> f = NotObject truth ->
          main_store f runs
          = if forallb (fun r => negb (succeeded r)) runs && truth
            then Kept
            else Aborted TypeError)
    /\ (forall e, main_store f runs = Aborted e -> file_after f runs = f)
    /\ (forall existing,
          load_existing f = Mapping existing ->
          Exists (fun r => succeeded r = true) runs ->
          exists merged,
            main_store f runs = Written merged
            /\ file_after f runs = Stored merged)
    /\ (forall merged,
          main_store f runs = Written merged ->
          exists existing,
            load_existing f = Mapping existing
            /\ forall k,
                 PyDict.get merged k
                 = match last_success runs k with
                   | Some r => Some r
                   | None => PyDict.get existing k
                   end)
    /\ (forall existing a va b vb,
          f = Stored existing ->
          PyDict.get existing a = Some va -> a <> b ->
          last_success runs b = Some vb ->
          (forall n r, In (Done n r) runs -> n = b) ->
          exists merged,
            main_store f runs = Written merged
            /\ file_after f runs = Stored merged
            /\ PyDict.get merged a = Some va
            /\ PyDict.get merged b = Some vb).
Proof.
  intros summary f runs none_succeeded.
  destruct (store_after_loop_spec f runs)
    as (Hkept & Hkeptf & Hstored & Hempty & Hnodir & Hnotobj & Habort
        & Hsucc & Hwritten & Hab).
  unfold file_after.
  destruct runs as [|r0 rest].
  - cbn [main_store file_of].
    split; [reflexivity|].
    split; [split; [discriminate | intros [H _]; congruence]|].
    split; [discriminate|].
    split; [intros existing _ _ H; congruence|].
    split; [intros H; congruence|].
    split; [intros H; congruence|].
    split; [intros truth H; congruence|].
    split; [reflexivity|].
    split; [intros existing _ H; inversion H|].
    split; [discriminate|].
    intros existing a va b vb _ _ _ H. discriminate H.
  - assert (Hne : r0 :: rest <> []) by discriminate.
    cbn [main_store].
    split; [discriminate|].
    split; [rewrite Hkept; tauto|].
    split; [exact Hkeptf|].
    split; [intros existing Hf He _ Hall; eapply Hstored; eauto|].
    split; [intros _; exact Hempty|].
    split; [intros _; exact Hnodir|].
    split; [intros truth _; apply Hnotobj|].
    split; [exact Habort|].
    split; [exact Hsucc|].
    split; [exact Hwritten | exact Hab].
Qed.

(** C5: a run without any success over a prior store that is the empty
    mapping calls [write_text] (with the empty mapping), and over an
    unreadable prior file it replaces the file. *)
Lemma metadata_rewritten_without_success :
  main_store (Stored (@nil (str * str))) [Raised false; Raised false]
  = Written []
  /\ file_after (@Unreadable str) [Raised false] = Stored [].
Proof. split; reflexivity. Qed.

(** C5 at a prior store with A and a run that produces only B. *)
Lemma metadata_upsert_witness :
  exists merged,
    main_store (Stored [(lit "A", lit "kept")])
      [Raised false; Done (lit "B") (lit "new")]
    = Written merged
    /\ file_after (Stored [(lit "A", lit "kept")])
         [Raised false; Done (lit "B") (lit "new")]
       = Stored merged
    /\ PyDict.get merged (lit "A") = Some (lit "kept")
    /\ PyDict.get merged (lit "B") = Some (lit "new").
Proof.
  refine (proj2 (proj2 (proj2 (proj2 (proj2 (proj2 (proj2 (proj2 (proj2 (proj2
            (metadata_upsert (Stored [(lit "A", lit "kept")])
               [Raised false; Done (lit "B") (lit "new")]))))))))))
            [(lit "A", lit "kept")] (lit "A") (lit "kept") (lit "B")
            (lit "new") eq_refl eq_refl _ eq_refl _).
  - intros H. vm_compute in H. discriminate H.
  - intros n r [H|[H|[]]]; [discriminate H|]. inversion H. reflexivity.
Defined.

Example metadata_upsert_example :
  main_store (Stored [(lit "A", lit "old A"); (lit "B", lit "old B")])
    [Raised false; Done (lit "B") (lit "new B"); Done (lit "C") (lit "new C")]
  = Written [(lit "A", lit "old A"); (lit "B", lit "new B");
             (lit "C", lit "new C")].
Proof. reflexivity. Qed.

(** An empty list of players ends in the error of [main]; without the
    output directory a run in which every player fails before
    [write_pdf] ends in [FileNotFoundError]; a prior file that holds a
    list makes a run with a success end in [TypeError]. *)
Example metadata_store_errors :
  main_store (@Absent str) [] = Aborted NoPlayersError
  /\ main_store (@NoDirectory str) [Raised false] = Aborted FileNotFoundError
  /\ main_store (@NoDirectory str) [Raised true] = Written []
  /\ main_store (@NotObject str true) [Done (lit "B") (lit "new")]
     = Aborted TypeError
  /\ main_store (@NotObject str true) [Raised false] = Kept
  /\ main_store (@NotObject str false) [Raised false] = Aborted TypeError.
Proof. repeat split; reflexivity. Qed.

(** ** The client *)

Lemma script_throttle interval w : script (throttle interval w) = script w.
Proof. unfold throttle. destruct (Qpositive _); reflexivity. Qed.

Lemma session_get_answers w took r rest :
  script w = Answers took r :: rest ->
  session_get w = (Some r, answered took rest w).
Proof. intros H. unfold session_get, answered. rewrite H. reflexivity. Qed.

(** One attempt of [get] that receives an answer. *)
Lemma get_from_answer interval retries todo attempt w took r rest :
  script w = Answers took r :: rest ->
  get_from interval retries (S todo) attempt w
  = let w1 := stamp (answered took rest (throttle interval w)) in
    if status_in (status_code r) [403; 429; 500; 502; 503; 504]%Z
       && (attempt <? retries - 1)%Z
    then get_from interval retries todo (attempt + 1)%Z
           (sleep (inject_Z (attempt + 1) * interval)%Q w1)
    else if is_error_status (status_code r)
         then (Raise (HTTPError (status_code r)), w1)
         else (Ok r, w1).
Proof.
  intros H. cbn [get_from]. fold (throttle interval w).
  rewrite (session_get_answers (throttle interval w) (took := took) (r := r)
             (rest := rest))
    by (rewrite script_throttle; exact H).
  unfold raise_for_status. cbv zeta.
  destruct (status_in _ _), (attempt <? retries - 1)%Z,
    (is_error_status (status_code r)); reflexivity.
Qed.

Lemma request_interval_positive arg : (0 < request_interval arg)%Q.
Proof.
  unfold request_interval. destruct (Qle_bool arg (2 # 10)) eqn:E.
  - reflexivity.
  - destruct (Qlt_le_dec (2 # 10) arg) as [H|H].
    + eapply Qlt_trans; [|exact H]. reflexivity.
    + apply Qle_bool_iff in H. congruence.
Qed.

(** After the backoff sleep the interval has passed: the next attempt
    does not sleep again before its request. *)
Lemma throttle_after_backoff interval k w :
  (0 < interval)%Q -> (1 <= k)%Z ->
  throttle interval (sleep (inject_Z k * interval)%Q (stamp w))
  = sleep (inject_Z k * interval)%Q (stamp w).
Proof.
  intros Hi Hk. unfold throttle.
  replace (Qpositive _) with false; [reflexivity|].
  symmetry. unfold Qpositive. apply negb_false_iff, Qle_bool_iff.
  cbn [clock last_request_ts sleep stamp].
  assert (Hd : (interval <= inject_Z k * interval)%Q).
  { rewrite <- (Qmult_1_l interval) at 1.
    apply Qmult_le_compat_r; [|apply Qlt_le_weak, Hi].
    change 1%Q with (inject_Z 1). rewrite <- Zle_Qle. exact Hk. }
  set (d := (inject_Z k * interval)%Q) in *. lra.
Qed.

Lemma backoff_increasing interval :
  (0 < interval)%Q ->
  (inject_Z 1 * interval < inject_Z 2 * interval)%Q
  /\ (inject_Z 2 * interval < inject_Z 3 * interval)%Q.
Proof.
  intros Hi. split; apply Qmult_lt_compat_r; try exact Hi; reflexivity.
Qed.

Lemma trace_throttle interval w :
  exists initial,
    (initial = [] \/ exists wait, initial = [Slept wait])
    /\ trace (throttle interval w) = trace w ++ initial.
Proof.
  unfold throttle. destruct (Qpositive _).
  - eexists. split; [right; eexists; reflexivity | reflexivity].
  - exists []. split; [left; reflexivity | rewrite app_nil_r; reflexivity].
Qed.

Lemma requests_initial initial :
  initial = [] \/ (exists wait, initial = [Slept wait]) ->
  filter is_request initial = [].
Proof. intros [->|[wait ->]]; reflexivity. Qed.

(** C6 (as amended).  Through [get], whose ceiling is four attempts:
    three answers with status 503 followed by one with status 200 give
    the fourth response; exactly four requests are made, and the sleeps
    between them are one, two and three times the request interval,
    which is positive, so they increase strictly.  Before the first
    request there is at most the throttle's sleep. *)
Theorem get_three_503_then_200 :
  forall (arg clock0 last0 : Q) (trace0 : list event)
         (t1 t2 t3 t4 : Q) (b1 b2 b3 b4 : str) (rest : list reply),
    let interval := request_interval arg in
    let busy := fun b => {| status_code := 503; text := b |} in
    let ok := {| status_code := 200; text := b4 |} in
    let w :=
      {| clock := clock0; last_request_ts := last0;
         script := Answers t1 (busy b1) :: Answers t2 (busy b2)
                   :: Answers t3 (busy b3) :: Answers t4 ok :: rest;
         trace := trace0 |} in
    let d1 := (inject_Z 1 * interval)%Q in
    let d2 := (inject_Z 2 * interval)%Q in
    let d3 := (inject_Z 3 * interval)%Q in
    exists w' initial,
      get interval w = (Ok ok, w')
      /\ script w' = rest
      /\ (initial = [] \/ exists wait, initial = [Slept wait])
      /\ trace w'
         = trace0 ++ initial
           ++ [Requested; Slept d1; Requested; Slept d2; Requested;
               Slept d3; Requested]
      /\ requests_made w' = (requests_made w + 4)%nat
      /\ (d1 < d2)%Q /\ (d2 < d3)%Q.
Proof.
  intros arg clock0 last0 trace0 t1 t2 t3 t4 b1 b2 b3 b4 rest
         interval busy ok w d1 d2 d3.
  pose proof (request_interval_positive arg) as Hpos. fold interval in Hpos.
  destruct (trace_throttle interval w) as (initial & Hinit & Htr).
  unfold get.
  rewrite (get_from_answer interval 4 3 0 w (took := t1) (r := busy b1)
             (rest := Answers t2 (busy b2) :: Answers t3 (busy b3)
                      :: Answers t4 ok :: rest)) by reflexivity.
  cbv zeta. change (_ && _) with true. cbv iota.
  rewrite (get_from_answer interval 4 2 (0 + 1) _ (took := t2) (r := busy b2)
             (rest := Answers t3 (busy b3) :: Answers t4 ok :: rest))
    by reflexivity.
  rewrite throttle_after_backoff by (exact Hpos || lia).
  cbv zeta. change (_ && _) with true. cbv iota.
  rewrite (get_from_answer interval 4 1 (0 + 1 + 1) _ (took := t3)
             (r := busy b3) (rest := Answers t4 ok :: rest))
    by reflexivity.
  rewrite throttle_after_backoff by (exact Hpos || lia).
  cbv zeta. change (_ && _) with true. cbv iota.
  rewrite (get_from_answer interval 4 0 (0 + 1 + 1 + 1) _ (took := t4)
             (r := ok) (rest := rest))
    by reflexivity.
  rewrite throttle_after_backoff by (exact Hpos || lia).
  cbv zeta. change (_ && _) with false. cbv iota.
  change (is_error_status (status_code ok)) with false. cbv iota.
  eexists. exists initial.
  split; [reflexivity|].
  split; [reflexivity|].
  split; [exact Hinit|].
  assert (Htrace :
    forall tail, (trace (throttle interval w) ++ [Requested]) ++ tail
                 = trace0 ++ initial ++ Requested :: tail).
  { intros tail. rewrite Htr. cbn [trace w].
    rewrite <- !app_assoc. reflexivity. }
  split.
  { cbn [trace stamp answered sleep]. rewrite <- !app_assoc.
    rewrite app_assoc. rewrite Htrace. reflexivity. }
  split.
  { unfold requests_made. fold is_request.
    cbn [trace stamp answered sleep]. rewrite <- !app_assoc.
    rewrite app_assoc. rewrite Htrace. cbn [trace w].
    rewrite !filter_app, !length_app, (requests_initial Hinit).
    reflexivity. }
  apply backoff_increasing, Hpos.
Qed.

(** C6: through [get_json], whose ceiling is three attempts, the same
    replies end in [RuntimeError] after the third 503; the 200 reply is
    never requested. *)
Lemma get_json_gives_up_after_three_503 :
  let busy := Answers 0 {| status_code := 503; text := lit "busy" |} in
  let ok := Answers 0 {| status_code := 200; text := lit "{}" |} in
  let w :=
    {| clock := 0; last_request_ts := 0;
       script := [busy; busy; busy; ok]; trace := [] |} in
  fst (get_json (fun body => Some body) w) = Raise (RuntimeError None)
  /\ script (snd (get_json (fun body => Some body) w)) = [ok]
  /\ trace (snd (get_json (fun body => Some body) w))
     = [Requested; Slept (15 # 10); Requested; Slept (30 # 10); Requested;
        Slept (45 # 10)].
Proof. vm_compute. repeat split. Qed.

Lemma retryable_is_error s :
  status_in s [403; 429; 500; 502; 503; 504]%Z = true ->
  is_error_status s = true.
Proof.
  unfold status_in. simpl. rewrite !orb_true_iff, !Z.eqb_eq.
  intros H. unfold is_error_status.
  apply andb_true_iff. split; [apply Z.leb_le | apply Z.ltb_lt]; lia.
Qed.

Lemma requests_made_sleep d w : requests_made (sleep d w) = requests_made w.
Proof.
  unfold requests_made. cbn [trace sleep].
  rewrite filter_app, length_app. simpl. lia.
Qed.

Lemma requests_made_throttle interval w :
  requests_made (throttle interval w) = requests_made w.
Proof.
  unfold throttle. destruct (Qpositive _); [apply requests_made_sleep|reflexivity].
Qed.

Lemma requests_made_session_get w :
  requests_made (snd (session_get w)) = S (requests_made w).
Proof.
  unfold session_get, requests_made.
  destruct (script w) as [|[took r|took] rest]; cbn [snd trace];
    rewrite filter_app, length_app; simpl; lia.
Qed.

Lemma requests_made_stamp w : requests_made (stamp w) = requests_made w.
Proof. reflexivity. Qed.

(** [get] never makes more requests than it has attempts. *)
Lemma get_from_ceiling interval retries todo : forall attempt w,
  (requests_made (snd (get_from interval retries todo attempt w))
   <= requests_made w + todo)%nat.
Proof.
  induction todo as [|todo IH]; intros attempt w.
  - simpl. lia.
  - cbn [get_from]. fold (throttle interval w).
    pose proof (requests_made_session_get (throttle interval w)) as Hreq.
    rewrite requests_made_throttle in Hreq.
    destruct (session_get (throttle interval w)) as [[r|] w1];
      cbn [snd] in Hreq; [|cbn [snd]; lia].
    assert (Hdone : (requests_made (stamp w1) <= requests_made w + S todo)%nat)
      by (rewrite requests_made_stamp; lia).
    destruct (status_in _ _); [|exact Hdone].
    destruct (attempt <? retries - 1)%Z; [|exact Hdone].
    eapply Nat.le_trans; [apply IH|].
    rewrite requests_made_sleep, requests_made_stamp. lia.
Qed.

Lemma get_json_from_ceiling (J : Type) (json : str -> option J) todo :
  forall attempt last_exc w,
    (requests_made (snd (get_json_from json todo attempt last_exc w))
     <= requests_made w + todo)%nat.
Proof.
  induction todo as [|todo IH]; intros attempt last_exc w.
  - simpl. lia.
  - cbn [get_json_from].
    pose proof (requests_made_session_get w) as Hreq.
    assert (Hretry : forall a e w1,
              requests_made w1 = S (requests_made w) ->
              (requests_made
                 (snd (get_json_from json todo a e
                         (sleep (backoff_json attempt) w1)))
               <= requests_made w + S todo)%nat).
    { intros a e w1 Hw1. eapply Nat.le_trans; [apply IH|].
      rewrite requests_made_sleep. lia. }
    destruct (session_get w) as [[r|] w1]; cbn [snd] in Hreq;
      [|apply Hretry, Hreq].
    destruct (status_in _ _); [apply Hretry, Hreq|].
    destruct (raise_for_status r) as [r'|exc]; [|apply Hretry, Hreq].
    destruct (json (text r')); [cbn [snd]; lia | apply Hretry, Hreq].
Qed.

(** C7 (as amended).  One answered attempt of [get]: a status outside
    400 to 599, in particular a 2xx one, returns the response; a status
    among 403, 429, 500, 502, 503, 504 sleeps (attempt + 1) times the
    interval and retries while fewer than three retries were made, and
    raises [HTTPError] on the fourth attempt; any other status from 400
    to 599 raises [HTTPError] at once, the remaining replies untouched.
    [get] makes at most four requests.  One answered attempt of
    [get_json]: a status outside 400 to 599 with a decodable body
    returns the payload; a status among 429, 500, 502, 503, 504 sleeps
    1.5 times (attempt + 1) seconds and retries; [get_json] makes at
    most three requests. *)
Theorem client_status_buckets :
  forall (interval clock0 last0 : Q) (trace0 : list event) (took : Q)
         (r : response) (rest : list reply) (attempt : Z) (todo : nat),
    let w :=
      {| clock := clock0; last_request_ts := last0;
         script := Answers took r :: rest; trace := trace0 |} in
    let w1 := stamp (answered took rest (throttle interval w)) in
    let status := status_code r in
    let retryable := status_in status [403; 429; 500; 502; 503; 504]%Z in
    ((200 <= status < 300)%Z ->
     get_from interval 4 (S todo) attempt w = (Ok r, w1))
    /\ (is_error_status status = false ->
        get_from interval 4 (S todo) attempt w = (Ok r, w1))
    /\ (retryable = true -> (attempt < 3)%Z ->
        get_from interval 4 (S todo) attempt w
        = get_from interval 4 todo (attempt + 1)
            (sleep (inject_Z (attempt + 1) * interval)%Q w1))
    /\ (retryable = true -> (3 <= attempt)%Z ->
        get_from interval 4 (S todo) attempt w
        = (Raise (HTTPError status), w1))
    /\ (is_error_status status = true -> retryable = false ->
        get_from interval 4 (S todo) attempt w
        = (Raise (HTTPError status), w1))
    /\ script w1 = rest
    /\ requests_made w1 = S (requests_made w)
    /\ (forall w0,
          (requests_made (snd (get interval w0)) <= requests_made w0 + 4)%nat)
    /\ (forall (J : Type) (json : str -> option J) (last_exc : option exn),
          (is_error_status status = false ->
           forall payload, json (text r) = Some payload ->
             get_json_from json (S todo) attempt last_exc w
             = (Ok payload, answered took rest w))
          /\ (status_in status [429; 500; 502; 503; 504]%Z = true ->
              get_json_from json (S todo) attempt last_exc w
              = get_json_from json todo (attempt + 1) last_exc
                  (sleep (backoff_json attempt) (answered took rest w)))
          /\ (forall w0,
                (requests_made (snd (get_json json w0))
                 <= requests_made w0 + 3)%nat)).
Proof.
  intros interval clock0 last0 trace0 took r rest attempt todo
         w w1 status retryable.
  pose proof (get_from_answer interval 4 todo attempt w (took := took)
                (r := r) (rest := rest) eq_refl) as Hstep.
  cbv zeta in Hstep. fold w1 status retryable in Hstep.
  assert (Hnoerr : is_error_status status = false ->
                   get_from interval 4 (S todo) attempt w = (Ok r, w1)).
  { intros He. rewrite Hstep, He.
    destruct retryable eqn:Hr; [|reflexivity].
    apply retryable_is_error in Hr. fold status in Hr. congruence. }
  split.
  { intros H2xx. apply Hnoerr. unfold is_error_status.
    apply andb_false_iff. left. apply Z.leb_gt. lia. }
  split; [exact Hnoerr|].
  split.
  { intros Hr Ha. rewrite Hstep, Hr.
    replace (attempt <? 4 - 1)%Z with true by (symmetry; apply Z.ltb_lt; lia).
    reflexivity. }
  split.
  { intros Hr Ha. rewrite Hstep, Hr.
    replace (attempt <? 4 - 1)%Z with false by (symmetry; apply Z.ltb_ge; lia).
    rewrite (retryable_is_error _ Hr). reflexivity. }
  split.
  { intros He Hr. rewrite Hstep, Hr, He. reflexivity. }
  split; [reflexivity|].
  split.
  { unfold w1. rewrite requests_made_stamp.
    unfold requests_made, answered. cbn [trace].
    rewrite filter_app, length_app. fold (requests_made (throttle interval w)).
    rewrite requests_made_throttle. simpl. unfold requests_made. simpl. lia. }
  split.
  { intros w0. apply get_from_ceiling. }
  intros J json last_exc. split; [|split].
  - intros He payload Hp. cbn [get_json_from session_get script w].
    fold status.
    destruct (status_in status [429; 500; 502; 503; 504]%Z) eqn:Hs.
    + exfalso.
      assert (Hr : status_in status [403; 429; 500; 502; 503; 504]%Z = true).
      { unfold status_in in *. simpl in *. rewrite Hs. apply orb_true_r. }
      apply retryable_is_error in Hr. congruence.
    + unfold raise_for_status. fold status. rewrite He, Hp. reflexivity.
  - intros Hs. cbn [get_json_from session_get script w].
    fold status. rewrite Hs. reflexivity.
  - intros w0. apply get_json_from_ceiling.
Qed.

(** C7 at a 404 answer to [get]: it fails at once. *)
Lemma client_status_buckets_witness :
  fst (get_from (12 # 10) 4 4 0
         {| clock := 0; last_request_ts := 0;
            script := [Answers 0 {| status_code := 404; text := lit "gone" |};
                       Answers 0 {| status_code := 200; text := lit "late" |}];
            trace := [] |})
  = Raise (HTTPError 404).
Proof.
  rewrite (proj1 (proj2 (proj2 (proj2 (proj2
             (client_status_buckets (12 # 10) 0 0 [] 0
                {| status_code := 404; text := lit "gone" |}
                [Answers 0 {| status_code := 200; text := lit "late" |}]
                0 3)))))
             eq_refl eq_refl).
  reflexivity.
Defined.

(** C7: [get_json] does not fail at once on a 404: the error raised by
    [raise_for_status] is caught, the client sleeps and asks again, and
    here returns the body of the second reply.  And [get] returns a 304
    response, which is neither 2xx nor an error. *)
Lemma get_json_retries_after_404 :
  let w :=
    {| clock := 0; last_request_ts := 0;
       script := [Answers 0 {| status_code := 404; text := lit "gone" |};
                  Answers 0 {| status_code := 200; text := lit "late" |}];
       trace := [] |} in
  fst (get_json (fun body => Some body) w) = Ok (lit "late")
  /\ trace (snd (get_json (fun body => Some body) w))
     = [Requested; Slept (15 # 10); Requested]
  /\ fst (get (12 # 10)
            {| clock := 0; last_request_ts := 0;
               script := [Answers 0 {| status_code := 304; text := [] |}];
               trace := [] |})
     = Ok {| status_code := 304; text := [] |}.
Proof. vm_compute. repeat split. Qed.

(** ** The listing extractor *)

Lemma in_seen_In k seen : in_seen k seen = true <-> In k seen.
Proof.
  unfold in_seen. rewrite existsb_exists. split.
  - intros (x & Hin & He). apply str_eqb_eq in He. subst. exact Hin.
  - intros Hin. exists k. split; [exact Hin | apply str_eqb_refl].
Qed.

Section DedupFacts.

Variable U : unicode_db.

Local Abbreviation key := (dedup_key U).
Local Abbreviation dedup := (deduplicate U).

(** The test of the final loop. *)
Lemma dedup_test p seen :
  truthy (key p) && negb (in_seen (key p) seen) = true
  <-> key p <> [] /\ ~ In (key p) seen.
Proof.
  rewrite andb_true_iff, truthy_true, negb_true_iff.
  split; intros [H1 H2]; split; auto.
  - intros Hin. apply in_seen_In in Hin. congruence.
  - destruct (in_seen (key p) seen) eqn:E; [|reflexivity].
    apply in_seen_In in E. contradiction.
Qed.

Lemma dedup_subsequence players : forall seen,
  subsequence (dedup seen players) players.
Proof.
  induction players as [|p players IH]; intros seen; simpl.
  - constructor.
  - destruct (truthy (key p) && negb (in_seen (key p) seen)).
    + apply sub_keep, IH.
    + apply sub_skip, IH.
Qed.

Lemma dedup_fresh players : forall seen p,
  In p (dedup seen players) -> key p <> [] /\ ~ In (key p) seen.
Proof.
  induction players as [|q players IH]; intros seen p; simpl; [intros []|].
  destruct (truthy (key q) && negb (in_seen (key q) seen)) eqn:E.
  - intros [<-|Hin]; [apply dedup_test, E|].
    destruct (IH _ _ Hin) as [H1 H2]. split; [exact H1|].
    intros H. apply H2. right. exact H.
  - apply IH.
Qed.

Lemma dedup_NoDup players : forall seen,
  NoDup (List.map key (dedup seen players)).
Proof.
  induction players as [|q players IH]; intros seen; simpl; [constructor|].
  destruct (truthy (key q) && negb (in_seen (key q) seen)) eqn:E.
  - simpl. constructor; [|apply IH].
    intros Hin. apply in_map_iff in Hin as (p & Hk & Hin).
    destruct (dedup_fresh _ _ _ Hin) as [_ H]. apply H. left. auto.
  - apply IH.
Qed.

(** A surviving entry is the first candidate with its key. *)
Lemma dedup_first players : forall seen p,
  In p (dedup seen players) ->
  exists before after,
    players = before ++ p :: after
    /\ Forall (fun q => key q <> key p) before.
Proof.
  induction players as [|q players IH]; intros seen p; simpl; [intros []|].
  destruct (truthy (key q) && negb (in_seen (key q) seen)) eqn:E.
  - intros [<-|Hin].
    + exists [], players. split; [reflexivity | constructor].
    + destruct (IH _ _ Hin) as (before & after & -> & Hb).
      exists (q :: before), after. split; [reflexivity|].
      constructor; [|exact Hb].
      destruct (dedup_fresh _ _ _ Hin) as [_ H].
      intros Hk. apply H. left. exact Hk.
  - intros Hin. destruct (IH _ _ Hin) as (before & after & -> & Hb).
    exists (q :: before), after. split; [reflexivity|].
    constructor; [|exact Hb].
    destruct (dedup_fresh _ _ _ Hin) as [H1 H2].
    intros Hk. assert (Ht : truthy (key q) && negb (in_seen (key q) seen) = true).
    { apply dedup_test. rewrite Hk. auto. }
    congruence.
Qed.

(** Every candidate with a non-empty key is represented. *)
Lemma dedup_complete players : forall seen q,
  In q players -> key q <> [] -> ~ In (key q) seen ->
  exists p, In p (dedup seen players) /\ key p = key q.
Proof.
  induction players as [|x players IH]; intros seen q; simpl; [intros []|].
  intros Hin Hne Hseen.
  destruct (truthy (key x) && negb (in_seen (key x) seen)) eqn:E.
  - destruct (str_eqb (key x) (key q)) eqn:Ek.
    + apply str_eqb_eq in Ek. exists x. split; [left; reflexivity | exact Ek].
    + destruct Hin as [->|Hin]; [rewrite str_eqb_refl in Ek; discriminate|].
      destruct (IH (key x :: seen) q Hin Hne) as (p & Hp & Hk).
      * intros [H|H]; [|auto]. rewrite H, str_eqb_refl in Ek. discriminate.
      * exists p. split; [right; exact Hp | exact Hk].
  - destruct Hin as [->|Hin].
    + assert (Ht : truthy (key q) && negb (in_seen (key q) seen) = true)
        by (apply dedup_test; auto).
      congruence.
    + apply IH; assumption.
Qed.

End DedupFacts.

(** [sorted(set(l))] has the elements of [l] in strictly ascending
    code point order. *)
Lemma str_ltb_total a : forall b,
  str_ltb a b = false -> str_eqb a b = false -> str_ltb b a = true.
Proof.
  induction a as [|x a IH]; intros [|y b]; simpl; try congruence.
  unfold char_eqb.
  destruct (x <? y)%N eqn:Hxy; [discriminate|].
  destruct (y <? x)%N eqn:Hyx; [reflexivity|].
  apply N.ltb_ge in Hxy, Hyx.
  assert (x = y) by lia. subst. rewrite N.eqb_refl. simpl. apply IH.
Qed.

Lemma insert_sorted_in x l n : In n (insert_sorted x l) <-> n = x \/ In n l.
Proof.
  induction l as [|y l IH]; simpl.
  - intuition.
  - destruct (str_ltb x y).
    + simpl. intuition.
    + destruct (str_eqb x y) eqn:E.
      * apply str_eqb_eq in E. subst. simpl. intuition.
      * simpl. rewrite IH. intuition.
Qed.

Lemma insert_sorted_hd a x l :
  HdRel str_lt a l -> str_lt a x -> HdRel str_lt a (insert_sorted x l).
Proof.
  intros Hl Hx. destruct l as [|y l]; simpl.
  - constructor. exact Hx.
  - inversion Hl; subst.
    destruct (str_ltb x y); [constructor; exact Hx|].
    destruct (str_eqb x y); constructor; assumption.
Qed.

Lemma insert_sorted_sorted x l :
  Sorted.Sorted str_lt l -> Sorted.Sorted str_lt (insert_sorted x l).
Proof.
  induction 1 as [|y l Hs IH Hhd]; simpl.
  - repeat constructor.
  - destruct (str_ltb x y) eqn:Hlt.
    + constructor; [constructor; assumption|]. constructor. exact Hlt.
    + destruct (str_eqb x y) eqn:Heq.
      * constructor; assumption.
      * constructor; [exact IH|].
        apply insert_sorted_hd; [exact Hhd|].
        apply str_ltb_total; assumption.
Qed.

Lemma sorted_set_spec l :
  Sorted.Sorted str_lt (sorted_set l)
  /\ forall n, In n (sorted_set l) <-> In n l.
Proof.
  induction l as [|x l [IHs IHi]]; simpl.
  - split; [constructor | intuition].
  - split; [apply insert_sorted_sorted, IHs|].
    intros n. rewrite insert_sorted_in, IHi. intuition.
Qed.

Lemma candidates_without_team U soup_rows html :
  Forall (fun p => Player.ipl_team p = [])
    (candidate_players U soup_rows html).
Proof.
  assert (Hs : Forall (fun p => Player.ipl_team p = []) (script_players U html)).
  { unfold script_players. destruct (sorted_set (findall_name html)); [constructor|].
    apply Forall_forall. intros p Hp. apply in_flat_map in Hp as (n & _ & Hp).
    destruct (_ && _); [|destruct Hp].
    destruct Hp as [<-|[]]. reflexivity. }
  assert (Ht : Forall (fun p => Player.ipl_team p = []) (table_players soup_rows html)).
  { unfold table_players. apply Forall_forall. intros p Hp.
    apply in_flat_map in Hp as (tds & _ & Hp). unfold row_player in Hp.
    destruct tds; [destruct Hp|].
    destruct (find _ _); [|destruct Hp].
    destruct Hp as [<-|[]]. reflexivity. }
  unfold candidate_players. destruct (script_players U html); assumption.
Qed.

Lemma subsequence_In (A : Type) (l1 l2 : list A) x :
  subsequence l1 l2 -> In x l1 -> In x l2.
Proof.
  induction 1; simpl; intuition.
Qed.

(** C8 (as amended).  The result holds no two entries with the same
    key (the stripped, lowered name); it is a subsequence of the
    candidate list, so the order of the candidates is preserved; the
    surviving entry for a key is the first candidate with that key, and
    every candidate with a non-empty key is represented.  The candidate
    list is that of the script heuristic when it finds any player, and
    that of the table rows, in document order, otherwise.  The script
    heuristic takes the distinct captured names in ascending code point
    order, not in the order of the page. *)
Theorem extract_players_deduplicated :
  forall (U : unicode_db) (soup_rows : str -> list (list str)) (html : str),
    let candidates := candidate_players U soup_rows html in
    let out := extract_players_from_espn_html U soup_rows html in
    subsequence out candidates
    /\ NoDup (List.map (dedup_key U) out)
    /\ (forall p, In p out ->
          dedup_key U p <> []
          /\ exists before after,
               candidates = before ++ p :: after
               /\ Forall (fun q => dedup_key U q <> dedup_key U p) before)
    /\ (forall q, In q candidates -> dedup_key U q <> [] ->
          exists p, In p out /\ dedup_key U p = dedup_key U q)
    /\ (script_players U html <> [] -> candidates = script_players U html)
    /\ (script_players U html = [] ->
        candidates = flat_map (row_player) (soup_rows html))
    /\ (exists names,
          Sorted.Sorted str_lt names
          /\ (forall n, In n names <-> In n (findall_name html))
          /\ script_players U html
             = flat_map
                 (fun n =>
                    if (2 <=? List.length (split n))%nat && negb (noise U n)
                    then [{| Player.name := strip n; Player.ipl_team := [] |}]
                    else [])
                 names).
Proof.
  intros U soup_rows html candidates out.
  unfold out, extract_players_from_espn_html. cbv zeta. fold candidates.
  split; [apply dedup_subsequence|].
  split; [apply dedup_NoDup|].
  split.
  { intros p Hp. split; [apply (dedup_fresh _ _ _ _ Hp)|].
    apply (dedup_first _ _ _ _ Hp). }
  split.
  { intros q Hq Hne. apply dedup_complete; auto. }
  split.
  { intros Hne. unfold candidates, candidate_players.
    destruct (script_players U html); [congruence | reflexivity]. }
  split.
  { intros He. unfold candidates, candidate_players. rewrite He. reflexivity. }
  exists (sorted_set (findall_name html)).
  destruct (sorted_set_spec (findall_name html)) as [Hs Hi].
  split; [exact Hs|]. split; [exact Hi|].
  unfold script_players. destruct (sorted_set (findall_name html)); reflexivity.
Qed.

(** C8: the entry first seen on the page is not the one that survives,
    and the order of the result is not the order of the page. *)
Lemma extract_players_not_page_order :
  findall_name page_two_cases = [lit "virat kohli"; lit "Virat Kohli"]
  /\ extract_players_from_espn_html ascii_db (fun _ => []) page_two_cases
     = [{| Player.name := lit "Virat Kohli"; Player.ipl_team := [] |}]
  /\ findall_name page_two_names = [lit "Virat Kohli"; lit "MS Dhoni"]
  /\ extract_players_from_espn_html ascii_db (fun _ => []) page_two_names
     = [{| Player.name := lit "MS Dhoni"; Player.ipl_team := [] |};
        {| Player.name := lit "Virat Kohli"; Player.ipl_team := [] |}].
Proof. vm_compute. repeat split. Qed.

(** C10.  Every entry the extractor returns has an empty [ipl_team]:
    both heuristics build their entries with the empty string and the
    final loop only drops entries; what the team pattern captures is
    attached to no player. *)
Theorem extract_players_without_team :
  forall (U : unicode_db) (soup_rows : str -> list (list str)) (html : str),
    Forall (fun p => Player.ipl_team p = [])
      (extract_players_from_espn_html U soup_rows html).
Proof.
  intros U soup_rows html. apply Forall_forall. intros p Hp.
  pose proof (candidates_without_team U soup_rows html) as Hc.
  rewrite Forall_forall in Hc. apply Hc.
  eapply subsequence_In; [|exact Hp].
  apply dedup_subsequence.
Qed.

Example extract_players_team_dropped :
  findall_team page_with_team = [lit "Chennai Super Kings"]
  /\ extract_players_from_espn_html ascii_db (fun _ => []) page_with_team
     = [{| Player.name := lit "MS Dhoni"; Player.ipl_team := [] |}].
Proof. vm_compute. repeat split. Qed.

Example table_fallback_example :
  extract_players_from_espn_html ascii_db
    (fun _ => [[lit "1"; lit "MS Dhoni"; lit "CSK"]; [];
               [lit "2"; lit "ms dhoni"]; [lit "3"; lit "Ms Dhoni"];
               [lit "4"; lit "R Ashwin"]])
    (lit "<table>...</table>")
  = [{| Player.name := lit "MS Dhoni"; Player.ipl_team := [] |};
     {| Player.name := lit "R Ashwin"; Player.ipl_team := [] |}].
Proof. vm_compute. repeat split. Qed.

(** ** The statistics-table extractor *)

Section StatsguruFacts.

Variable U : unicode_db.

Lemma skipped_format_spec fmt :
  skipped_format U fmt = true
  <-> fmt = [] \/ lower U fmt = lit "span" \/ lower U fmt = lit "overall".
Proof.
  unfold skipped_format. rewrite orb_true_iff, negb_true_iff. simpl.
  rewrite !orb_true_iff, !str_eqb_eq. split.
  - intros [H|[H|[H|H]]]; auto; [|discriminate].
    left. destruct fmt; [reflexivity | discriminate].
  - intros [->|[H|H]]; auto.
Qed.

Lemma stat_columns_ok headers tds indices : forall acc,
  (forall i, In i indices ->
             (i < List.length headers)%nat /\ (i < List.length tds)%nat) ->
  exists columns, stat_columns headers tds indices acc = Ok columns.
Proof.
  induction indices as [|i indices IH]; intros acc H; simpl.
  - exists acc. reflexivity.
  - destruct (H i (or_introl eq_refl)) as [Hh Ht].
    apply nth_error_Some in Hh, Ht.
    destruct (nth_error headers i) as [h|]; [|congruence].
    destruct (nth_error tds i) as [v|]; [|congruence].
    apply IH. intros j Hj. apply H. right. exact Hj.
Qed.

Lemma stat_columns_row headers tds acc :
  List.length tds = List.length headers ->
  exists columns,
    stat_columns headers tds (seq 1 (List.length headers - 1)) acc
    = Ok columns.
Proof.
  intros Hlen. apply stat_columns_ok. intros i Hi.
  apply in_seq in Hi. lia.
Qed.

(** One step of the loop over the data rows. *)
Lemma scan_rows_skip headers row rest out :
  usable_row U headers row = false -> headers <> [] ->
  scan_rows U headers (row :: rest) out = scan_rows U headers rest out.
Proof.
  unfold usable_row. intros Hu Hne. cbn [scan_rows].
  destruct (List.length (List.map (clean U) (td_texts row))
            =? List.length headers)%nat eqn:Hlen; [|reflexivity].
  simpl in Hu |- *.
  destruct (List.map (clean U) (td_texts row)) as [|fmt tds].
  - apply Nat.eqb_eq in Hlen. destruct headers; [congruence|discriminate].
  - simpl. apply negb_false_iff in Hu. rewrite Hu. reflexivity.
Qed.

Lemma scan_rows_use headers row :
  usable_row U headers row = true ->
  exists fmt columns,
    hd_error (List.map (clean U) (td_texts row)) = Some fmt
    /\ forall rest out,
         scan_rows U headers (row :: rest) out
         = scan_rows U headers rest (set out fmt columns).
Proof.
  unfold usable_row. intros Hu.
  apply andb_true_iff in Hu as [Hlen Hfmt]. cbv zeta in Hlen, Hfmt.
  destruct (List.map (clean U) (td_texts row)) as [|fmt tds] eqn:Htds;
    [discriminate|].
  apply negb_true_iff in Hfmt.
  destruct (@stat_columns_row headers (fmt :: tds) []
              (proj1 (Nat.eqb_eq _ _) Hlen)) as (columns & Hc).
  exists fmt, columns. split; [reflexivity|].
  intros rest out. cbn [scan_rows]. rewrite Htds, Hlen.
  cbn [negb nth_error]. rewrite Hfmt, Hc. reflexivity.
Qed.

Lemma scan_rows_ok headers rows : forall out,
  headers <> [] ->
  exists out', scan_rows U headers rows out = Ok out'
               /\ (out <> [] -> out' <> [])
               /\ (existsb (usable_row U headers) rows = true -> out' <> [])
               /\ (existsb (usable_row U headers) rows = false -> out' = out).
Proof.
  induction rows as [|row rows IH]; intros out Hne.
  - exists out. simpl. repeat split; auto; discriminate.
  - destruct (usable_row U headers row) eqn:Hu.
    + destruct (@scan_rows_use headers row Hu) as (fmt & columns & _ & Hs).
      destruct (IH (set out fmt columns) Hne) as (out' & He & Hk & _ & _).
      assert (Hset : set out fmt columns <> []).
      { destruct out as [|[k v] out]; simpl; [discriminate|].
        destruct (str_eqb k fmt); discriminate. }
      exists out'. rewrite Hs. simpl. rewrite Hu. simpl.
      repeat split; auto; discriminate.
    + destruct (IH out Hne) as (out' & He & Hk & Hy & Hn).
      exists out'. rewrite (@scan_rows_skip headers row rows out Hu Hne). simpl.
      rewrite Hu. simpl. auto.
Qed.

Lemma scan_rows_app headers rows1 rows2 : forall out,
  headers <> [] ->
  scan_rows U headers (rows1 ++ rows2) out
  = match scan_rows U headers rows1 out with
    | Ok out1 => scan_rows U headers rows2 out1
    | Raise e => Raise e
    end.
Proof.
  induction rows1 as [|row rows1 IH]; intros out Hne; [reflexivity|].
  rewrite <- app_comm_cons.
  destruct (usable_row U headers row) eqn:Hu.
  - destruct (@scan_rows_use headers row Hu) as (fmt & columns & _ & Hs).
    rewrite !Hs. apply IH, Hne.
  - rewrite (@scan_rows_skip headers row (rows1 ++ rows2) out Hu Hne).
    rewrite (@scan_rows_skip headers row rows1 out Hu Hne). apply IH, Hne.
Qed.

Lemma headers_with_mat headers :
  existsb (str_eqb (lit "Mat")) headers = true -> headers <> [].
Proof. destruct headers; [discriminate|]. intros _. discriminate. Qed.

Lemma scan_tables_ok tables :
  exists out,
    scan_tables U tables = Ok out
    /\ (existsb (usable_table U) tables = true -> out <> [])
    /\ (existsb (usable_table U) tables = false -> out = []).
Proof.
  induction tables as [|rows tables (out & He & Hy & Hn)].
  - exists []. simpl. repeat split; auto; discriminate.
  - cbn [scan_tables existsb].
    destruct rows as [|header_row data].
    { exists out. simpl. auto. }
    cbn [usable_table].
    set (headers := List.map (clean U) (th_texts header_row)).
    destruct (List.length (header_row :: data) <? 2)%nat eqn:Hlen.
    { assert (data = []).
      { apply Nat.ltb_lt in Hlen. simpl in Hlen. destruct data; [reflexivity|].
        simpl in Hlen. lia. }
      subst data. simpl. rewrite andb_false_r. simpl. exists out. auto. }
    destruct (existsb (str_eqb (lit "Mat")) headers) eqn:Hmat;
      [|simpl; exists out; auto].
    pose proof (@headers_with_mat headers Hmat) as Hne.
    destruct (@scan_rows_ok headers data [] Hne) as (o & Ho & _ & Hoy & Hon).
    cbn [negb]. rewrite Ho. cbn [andb].
    destruct (existsb (usable_row U headers) data) eqn:Hu.
    + specialize (Hoy eq_refl). destruct o as [|e o]; [congruence|].
      exists (e :: o). simpl. repeat split; auto; discriminate.
    + rewrite (Hon eq_refl). simpl. exists out. auto.
Qed.

End StatsguruFacts.

(** C9.  The statistics-table extractor never raises on the page it
    fetched, whatever the tables are.  A data row whose cell count
    differs from the header count is skipped; a row whose leading
    format cell is empty, or is Span or Overall in any letter case, is
    skipped.  The result is the empty mapping exactly when no table has
    a header row with a [Mat] column and a usable data row. *)
Theorem statsguru_tolerates_table_drift :
  forall (U : unicode_db) (soup_engine_tables : str -> list (list table_row))
         (html : str),
    (exists out,
       statsguru_summary_of_html U soup_engine_tables html = Ok out
       /\ (out = []
           <-> existsb (usable_table U) (soup_engine_tables html) = false))
    /\ (forall headers before row after out,
          existsb (str_eqb (lit "Mat")) headers = true ->
          List.length (td_texts row) <> List.length headers ->
          scan_rows U headers (before ++ row :: after) out
          = scan_rows U headers (before ++ after) out)
    /\ (forall headers before row after out fmt cells,
          existsb (str_eqb (lit "Mat")) headers = true ->
          List.map (clean U) (td_texts row) = fmt :: cells ->
          fmt = [] \/ lower U fmt = lit "span" \/ lower U fmt = lit "overall" ->
          scan_rows U headers (before ++ row :: after) out
          = scan_rows U headers (before ++ after) out).
Proof.
  intros U soup_engine_tables html.
  assert (Hskip : forall headers before row after out,
            existsb (str_eqb (lit "Mat")) headers = true ->
            usable_row U headers row = false ->
            scan_rows U headers (before ++ row :: after) out
            = scan_rows U headers (before ++ after) out).
  { intros headers before row after out Hmat Hu.
    pose proof (@headers_with_mat headers Hmat) as Hne.
    rewrite !scan_rows_app by exact Hne.
    destruct (scan_rows U headers before out); [|reflexivity].
    apply scan_rows_skip; assumption. }
  split; [|split].
  - unfold statsguru_summary_of_html.
    destruct (scan_tables_ok U (soup_engine_tables html)) as (out & He & Hy & Hn).
    exists out. split; [exact He|]. split.
    + intros Ho. destruct (existsb _ _); [|reflexivity].
      exfalso. apply (Hy eq_refl Ho).
    + exact Hn.
  - intros headers before row after out Hmat Hlen. apply Hskip; [exact Hmat|].
    unfold usable_row. rewrite length_map.
    apply andb_false_iff. left. apply Nat.eqb_neq. exact Hlen.
  - intros headers before row after out fmt cells Hmat Htds Hfmt.
    apply Hskip; [exact Hmat|].
    unfold usable_row. rewrite Htds. cbv zeta.
    apply andb_false_iff. right. apply negb_false_iff.
    apply skipped_format_spec. exact Hfmt.
Qed.

Example statsguru_example :
  statsguru_summary_of_html ascii_db
    (fun _ =>
       [[{| th_texts := [lit "Span"]; td_texts := [] |}];
        [{| th_texts := [lit ""; lit "Mat"; lit "Runs"]; td_texts := [] |};
         {| th_texts := []; td_texts := [lit "ODIs"; lit "8"] |};
         {| th_texts := []; td_texts := [lit "OVERALL"; lit "70"; lit "900"] |};
         {| th_texts := []; td_texts := [lit "T20Is [1]"; lit "62"; lit "38"] |};
         {| th_texts := []; td_texts := [lit ""; lit "1"; lit "2"] |}]])
    (lit "<html>")
  = Ok [(lit "T20Is", [(lit "Mat", lit "62"); (lit "Runs", lit "38")])].
Proof. vm_compute. reflexivity. Qed.

(** * Further properties of the builders *)

(** ** The sanitizer on its own output *)

Lemma filter_all (A : Type) (f : A -> bool) (l : list A) :
  forallb f l = true -> filter f l = l.
Proof.
  induction l as [|x l IH]; simpl; [reflexivity|].
  intros H. apply andb_true_iff in H as [Hx Hl].
  rewrite Hx, IH by exact Hl. reflexivity.
Qed.

Lemma collapse_whitespace_words ws :
  Forall is_word ws ->
  collapse_whitespace (join [space] ws) = join [space] ws.
Proof.
  intros Hw. unfold collapse_whitespace.
  rewrite split_join, concat_split_words by exact Hw. reflexivity.
Qed.

Lemma sanitize_for_pdf_range U text :
  Forall printable_ascii (sanitize_for_pdf U text).
Proof.
  apply Forall_forall. intros c Hc.
  rewrite sanitize_for_pdf_collapse in Hc.
  apply in_collapse_whitespace in Hc as [->|[Hin Hsp]].
  - unfold printable_ascii, space. lia.
  - unfold encode_ascii_ignore in Hin.
    apply filter_In in Hin as [Hin Ha].
    apply filter_In in Hin as [_ Hk].
    destruct (kept_ascii_range U c Hk Ha) as [->|H]; [discriminate | exact H].
Qed.

Lemma printable_ascii_kept U s :
  Forall printable_ascii s ->
  encode_ascii_ignore (filter (keep_char U) (normalize_NFKD U s)) = s.
Proof.
  intros Hs.
  assert (Ha : forallb is_ascii s = true).
  { apply forallb_forall. intros c Hc. rewrite Forall_forall in Hs.
    specialize (Hs c Hc). unfold printable_ascii in Hs.
    unfold is_ascii. apply N.ltb_lt. lia. }
  assert (Hk : forallb (keep_char U) s = true).
  { apply forallb_forall. intros c Hc. rewrite Forall_forall in Hs.
    specialize (Hs c Hc). unfold printable_ascii in Hs.
    unfold keep_char, isprintable, is_ascii.
    replace (c <? 128)%N with true by (symmetry; apply N.ltb_lt; lia).
    replace (32 <=? c)%N with true by (symmetry; apply N.leb_le; lia).
    replace (c <=? 126)%N with true by (symmetry; apply N.leb_le; lia).
    apply orb_true_r. }
  unfold normalize_NFKD, encode_ascii_ignore. rewrite Ha.
  rewrite (filter_all _ _ Hk). apply filter_all, Ha.
Qed.

Lemma sanitize_for_pdf_twice U text :
  sanitize_for_pdf U (sanitize_for_pdf U text) = sanitize_for_pdf U text.
Proof.
  rewrite (sanitize_for_pdf_collapse U (sanitize_for_pdf U text)).
  rewrite printable_ascii_kept by apply sanitize_for_pdf_range.
  rewrite (sanitize_for_pdf_collapse U text) at 1 2.
  unfold collapse_whitespace at 2.
  apply collapse_whitespace_words, split_words.
Qed.

(** X1.  [sanitize_for_pdf] is idempotent: sanitized text is left as it
    is by a second pass, whatever the Unicode tables outside ASCII. *)
Theorem sanitize_for_pdf_idempotent :
  forall (U : unicode_db) (text : str),
    sanitize_for_pdf U (sanitize_for_pdf U text) = sanitize_for_pdf U text.
Proof. intros U text. apply sanitize_for_pdf_twice. Qed.

(** ** Infobox parsing *)

Section InfoboxFacts.

Variable cleaner : str -> str.

Lemma in_set (V : Type) (d : dict V) k v k' v' :
  In (k', v') (set d k v) -> (k' = k /\ v' = v) \/ In (k', v') d.
Proof.
  induction d as [|[k0 v0] d IH]; simpl.
  - intros [H|[]]. inversion H. auto.
  - destruct (str_eqb k0 k) eqn:E.
    + apply str_eqb_eq in E. subst k0. intros [H|H].
      * inversion H. auto.
      * right. right. exact H.
    + intros [H|H]; [right; left; exact H|].
      destruct (IH H) as [H'|H']; auto.
Qed.

Lemma infobox_rows_step row rest result :
  infobox_rows cleaner (row :: rest) result
  = infobox_rows cleaner rest
      match th_text row, td_text row with
      | Some th, Some td =>
          if truthy (cleaner th) && truthy (cleaner td)
          then set result (cleaner th) (cleaner td)
          else result
      | _, _ => result
      end.
Proof.
  simpl. destruct (th_text row), (td_text row); try reflexivity.
  destruct (_ && _); reflexivity.
Qed.

Lemma row_entry_step row result k v :
  row_entry cleaner row k v ->
  match th_text row, td_text row with
  | Some th, Some td =>
      if truthy (cleaner th) && truthy (cleaner td)
      then set result (cleaner th) (cleaner td)
      else result
  | _, _ => result
  end = set result k v.
Proof.
  intros (th & td & -> & -> & <- & <- & Hk & Hv).
  apply truthy_true in Hk, Hv. rewrite Hk, Hv. reflexivity.
Qed.

Lemma no_entry_step row result k :
  (forall v, ~ row_entry cleaner row k v) ->
  PyDict.get
    match th_text row, td_text row with
    | Some th, Some td =>
        if truthy (cleaner th) && truthy (cleaner td)
        then set result (cleaner th) (cleaner td)
        else result
    | _, _ => result
    end k
  = PyDict.get result k.
Proof.
  intros Hno. destruct (th_text row) as [th|] eqn:Hth; [|reflexivity].
  destruct (td_text row) as [td|] eqn:Htd; [|reflexivity].
  destruct (truthy (cleaner th) && truthy (cleaner td)) eqn:Ht; [|reflexivity].
  rewrite get_set. destruct (str_eqb (cleaner th) k) eqn:E; [|reflexivity].
  apply str_eqb_eq in E. exfalso. apply (Hno (cleaner td)).
  apply andb_true_iff in Ht as [Hk Hv]. apply truthy_true in Hk, Hv.
  exists th, td. subst k. auto 7.
Qed.

Lemma infobox_rows_entries rows : forall result,
  NoDup (keys result) ->
  NoDup (keys (infobox_rows cleaner rows result))
  /\ forall k v,
       In (k, v) (infobox_rows cleaner rows result) ->
       In (k, v) result \/ exists row, In row rows /\ row_entry cleaner row k v.
Proof.
  induction rows as [|row rows IH]; intros result Hnd.
  - simpl. auto.
  - rewrite infobox_rows_step.
    set (next := match th_text row, td_text row with
                 | Some th, Some td => _ | _, _ => _ end).
    assert (Hnext : NoDup (keys next)
                    /\ forall k v, In (k, v) next ->
                         In (k, v) result \/ row_entry cleaner row k v).
    { subst next. destruct (th_text row) as [th|] eqn:Hth; [|auto].
      destruct (td_text row) as [td|] eqn:Htd; [|auto].
      destruct (truthy (cleaner th) && truthy (cleaner td)) eqn:Ht; [|auto].
      split; [apply NoDup_set, Hnd|].
      intros k v Hin. apply in_set in Hin as [[-> ->]|Hin]; [|auto].
      right. apply andb_true_iff in Ht as [Hk Hv].
      apply truthy_true in Hk, Hv. exists th, td. auto 7. }
    destruct Hnext as [Hnd' Hin'].
    destruct (IH next Hnd') as [Hfin Hall]. split; [exact Hfin|].
    intros k v Hin. destruct (Hall k v Hin) as [H|(r & Hr & He)].
    + destruct (Hin' k v H) as [H'|H']; [left; exact H'|].
      right. exists row. split; [left; reflexivity | exact H'].
    + right. exists r. split; [right; exact Hr | exact He].
Qed.

(** The last row that contributes an entry for a key decides its value. *)
Lemma infobox_rows_last before row after k v : forall result,
  row_entry cleaner row k v ->
  (forall r v', In r after -> ~ row_entry cleaner r k v') ->
  PyDict.get (infobox_rows cleaner (before ++ row :: after) result) k = Some v.
Proof.
  intros result He Hafter. revert result.
  assert (Htail : forall result,
            PyDict.get result k = Some v ->
            PyDict.get (infobox_rows cleaner after result) k = Some v).
  { induction after as [|r after IH]; intros result Hg; [exact Hg|].
    rewrite infobox_rows_step. apply IH.
    - intros r' v' Hin. apply Hafter. right. exact Hin.
    - rewrite no_entry_step; [exact Hg|].
      intros v'. apply Hafter. left. reflexivity. }
  induction before as [|b before IH]; intros result.
  - simpl app. rewrite infobox_rows_step, (row_entry_step result He).
    apply Htail. rewrite get_set, str_eqb_refl. reflexivity.
  - rewrite <- app_comm_cons, infobox_rows_step. apply IH.
Qed.

End InfoboxFacts.

(** X2.  The dictionary of [parse_infobox] (and of
    [parse_infobox_fields], with [clean_text] for [clean]) has distinct
    keys; each entry has a non-empty key and a non-empty value and
    comes from a row with both a label and a value cell, as the cleaned
    texts of these; it is empty when the page has no infobox table; and
    for a label that occurs in several rows the last such row decides. *)
Theorem parse_infobox_entries :
  forall (cleaner : str -> str)
         (soup_infobox : str -> option (list infobox_row)) (html : str),
    let info := parse_infobox_with cleaner soup_infobox html in
    NoDup (keys info)
    /\ (soup_infobox html = None -> info = [])
    /\ (forall k v,
          In (k, v) info ->
          k <> [] /\ v <> []
          /\ exists rows row th td,
               soup_infobox html = Some rows /\ In row rows
               /\ th_text row = Some th /\ td_text row = Some td
               /\ cleaner th = k /\ cleaner td = v)
    /\ (forall before row after th td,
          soup_infobox html = Some (before ++ row :: after) ->
          th_text row = Some th -> td_text row = Some td ->
          cleaner th <> [] -> cleaner td <> [] ->
          (forall r th' td',
             In r after -> th_text r = Some th' -> td_text r = Some td' ->
             cleaner th' = cleaner th -> cleaner td' = []) ->
          PyDict.get info (cleaner th) = Some (cleaner td)).
Proof.
  intros cleaner soup_infobox html info. subst info.
  unfold parse_infobox_with.
  destruct (soup_infobox html) as [rows|] eqn:Hs.
  - destruct (@infobox_rows_entries cleaner rows [] (NoDup_nil _))
      as [Hnd Hall].
    split; [exact Hnd|]. split; [discriminate|]. split.
    + intros k v Hin. destruct (Hall k v Hin) as [[]|(row & Hrow & He)].
      destruct He as (th & td & Hth & Htd & Hk & Hv & Hkne & Hvne).
      split; [exact Hkne|]. split; [exact Hvne|].
      exists rows, row, th, td. auto 7.
    + intros before row after th td Hrows Hth Htd Hk Hv Hafter.
      inversion Hrows; subst rows.
      apply infobox_rows_last.
      * exists th, td. auto 7.
      * intros r v' Hin (th' & td' & Hth' & Htd' & Hk' & Hv' & _ & Hne).
        apply Hne. rewrite <- Hv'. apply (Hafter r th' td'); auto.
  - split; [constructor|]. split; [reflexivity|]. split.
    + intros k v [].
    + intros before row after th td Hrows. discriminate.
Qed.

(** X3.  Every key and every value of the infobox that
    [parse_infobox] of the auction builder returns is printable ASCII
    and is left unchanged by the sanitizer. *)
Theorem parse_infobox_sanitized :
  forall (U : unicode_db)
         (soup_infobox : str -> option (list infobox_row)) (html : str),
    Forall
      (fun kv =>
         Forall printable_ascii (fst kv) /\ Forall printable_ascii (snd kv)
         /\ sanitize_for_pdf U (fst kv) = fst kv
         /\ sanitize_for_pdf U (snd kv) = snd kv)
      (parse_infobox U soup_infobox html).
Proof.
  intros U soup_infobox html. apply Forall_forall. intros [k v] Hin.
  unfold parse_infobox, parse_infobox_with in Hin.
  destruct (soup_infobox html) as [rows|]; [|destruct Hin].
  destruct (@infobox_rows_entries (clean U) rows [] (NoDup_nil _)) as [_ Hall].
  destruct (Hall k v Hin) as [[]|(row & _ & th & td & _ & _ & Hk & Hv & _)].
  simpl. subst k v. unfold clean.
  repeat split; try apply sanitize_for_pdf_range;
    apply sanitize_for_pdf_twice.
Qed.

(** ** Summaries *)

(** X4.  [build_safe_summary] never returns the empty string: its
    result is the placeholder [N/A], which it gives for an empty
    extract, or the non-empty sanitized text of the first two parts of
    the extract without its short parenthesised asides.  Either way the
    result is printable ASCII and the sanitizer leaves it unchanged. *)
Theorem build_safe_summary_never_empty :
  forall (U : unicode_db) (extract : str),
    let out := build_safe_summary U extract in
    out <> []
    /\ build_safe_summary U [] = lit "N/A"
    /\ (out = lit "N/A"
        \/ out = sanitize_for_pdf U
                   (strip
                      (join [space]
                         (firstn 2
                            (split_sentences (sub_asides_from O extract))))))
    /\ Forall printable_ascii out
    /\ sanitize_for_pdf U out = out.
Proof.
  intros U extract out.
  assert (Hna : Forall printable_ascii (lit "N/A")
                /\ sanitize_for_pdf U (lit "N/A") = lit "N/A").
  { split; [|reflexivity].
    repeat constructor; unfold printable_ascii; simpl; lia. }
  subst out. unfold build_safe_summary.
  destruct extract as [|c extract].
  - split; [discriminate|]. split; [reflexivity|]. split; [left; reflexivity|].
    exact Hna.
  - cbv zeta. unfold str_or.
    set (summary := strip _).
    destruct (sanitize_for_pdf U summary) as [|x s] eqn:Hs; simpl truthy; cbv iota.
    + split; [discriminate|]. split; [reflexivity|].
      split; [left; reflexivity|]. exact Hna.
    + split; [discriminate|]. split; [reflexivity|].
      split; [right; reflexivity|]. rewrite <- Hs.
      split; [apply sanitize_for_pdf_range | apply sanitize_for_pdf_twice].
Qed.

(** ** File names *)

Lemma stem_char_sub_unsafe s : forall in_run,
  Forall (fun c => stem_char c = true) (sub_unsafe_from in_run s).
Proof.
  induction s as [|c s IH]; intros in_run; simpl; [constructor|].
  destruct (stem_char c) eqn:Hc.
  - constructor; [exact Hc | apply IH].
  - destruct in_run; [apply IH|]. constructor; [reflexivity | apply IH].
Qed.

Lemma lstrip_underscores_suffix s :
  exists pre, s = pre ++ lstrip_underscores s.
Proof.
  induction s as [|c s (pre & IH)]; simpl.
  - exists []. reflexivity.
  - destruct (char_eqb c underscore).
    + exists (c :: pre). simpl. rewrite <- IH. reflexivity.
    + exists []. reflexivity.
Qed.

Lemma lstrip_underscores_head s :
  match lstrip_underscores s with
  | c :: _ => c <> underscore
  | [] => True
  end.
Proof.
  induction s as [|c s IH]; simpl; [exact I|].
  destruct (char_eqb c underscore) eqn:E; [exact IH|].
  intros ->. unfold char_eqb in E. rewrite N.eqb_refl in E. discriminate.
Qed.

Lemma strip_underscores_prefix s :
  exists post, lstrip_underscores s = strip_underscores s ++ post.
Proof.
  unfold strip_underscores.
  destruct (lstrip_underscores_suffix (rev (lstrip_underscores s)))
    as (pre & Hpre).
  exists (rev pre).
  rewrite <- rev_app_distr, <- Hpre, rev_involutive. reflexivity.
Qed.

(** X5.  The file stem made from a page title holds only ASCII
    letters, digits, underscores and hyphens, so no path separator and
    no dot, and it neither starts nor ends with an underscore; a title
    that is already such a name is kept as it is. *)
Theorem file_stem_safe :
  forall (title : str),
    let stem := file_stem title in
    Forall (fun c => stem_char c = true) stem
    /\ match stem with c :: _ => c <> underscore | [] => True end
    /\ match rev stem with c :: _ => c <> underscore | [] => True end
    /\ (Forall (fun c => stem_char c = true) title ->
        match title with c :: _ => c <> underscore | [] => True end ->
        match rev title with c :: _ => c <> underscore | [] => True end ->
        stem = title).
Proof.
  intros title stem. subst stem. unfold file_stem.
  set (t := sub_unsafe_from false title).
  destruct (strip_underscores_prefix t) as (post & Hpost).
  destruct (lstrip_underscores_suffix t) as (pre & Hpre).
  split; [|split; [|split]].
  - pose proof (stem_char_sub_unsafe title false) as Hall. fold t in Hall.
    rewrite Hpre, Hpost in Hall.
    apply Forall_app in Hall as [_ Hall].
    apply Forall_app in Hall as [Hall _]. exact Hall.
  - pose proof (lstrip_underscores_head t) as Hh. rewrite Hpost in Hh.
    destruct (strip_underscores t); [exact I | exact Hh].
  - unfold strip_underscores. rewrite rev_involutive.
    apply lstrip_underscores_head.
  - intros Hall Hhd Hlast.
    assert (Ht : t = title).
    { subst t. clear Hhd Hlast Hpost Hpre. generalize false.
      induction Hall as [|c s Hc Hs IH]; intros b; simpl; [reflexivity|].
      rewrite Hc, IH. reflexivity. }
    rewrite Ht. unfold strip_underscores.
    assert (Hl : forall s, match s with c :: _ => c <> underscore | [] => True end ->
                           lstrip_underscores s = s).
    { intros [|c s] H; simpl; [reflexivity|].
      destruct (char_eqb c underscore) eqn:E; [|reflexivity].
      apply N.eqb_eq in E. contradiction. }
    rewrite (Hl title Hhd), (Hl (rev title) Hlast). apply rev_involutive.
Qed.

(** ** Derived fields *)

(** X6.  [find_value] returns the empty string or a non-empty value
    that the infobox holds under some key: it never makes up a value. *)
Theorem find_value_from_infobox :
  forall (U : unicode_db) (infobox : dict str) (keys : list str),
    let v := find_value U infobox keys in
    v = [] \/ (v <> [] /\ exists k, In (k, v) infobox).
Proof.
  intros U infobox keys v. subst v. unfold find_value.
  destruct (find_exact infobox keys) as [v|] eqn:He.
  - apply find_exact_some in He as (b & k & a & _ & Hg & Hv & _).
    right. split; [exact Hv|]. exists k. apply get_In, Hg.
  - destruct (find_relaxed U infobox keys) as [v|] eqn:Hr; [|left; reflexivity].
    apply find_relaxed_some in Hr as (b & k & a & Hi & _ & Hv & _).
    right. split; [exact Hv|]. exists k. rewrite Hi.
    apply in_or_app. right. left. reflexivity.
Qed.

(** X7.  The age is the empty string or the decimal string of a number
    between 0 and the current year minus 1900: never a negative age,
    never a partial string. *)
Theorem extract_age_from_born_range :
  forall (U : unicode_db) (now : Z) (born_text : str),
    let age := extract_age_from_born U now born_text in
    age = []
    \/ exists years, (0 <= years <= now - 1900)%Z /\ age = str_of_int years.
Proof.
  intros U now born_text age. subst age. unfold extract_age_from_born.
  destruct (search_d4 U born_text) as [m|]; [|left; reflexivity].
  destruct ((int_of_group m <? 1900)%Z || (now <? int_of_group m)%Z) eqn:E;
    [left; reflexivity|].
  apply orb_false_iff in E as [E1 E2].
  apply Z.ltb_ge in E1, E2.
  right. exists (now - int_of_group m)%Z. split; [lia | reflexivity].
Qed.

(** ** Outcomes of the client *)

Lemma script_session_get w r w1 :
  session_get w = (Some r, w1) ->
  exists took, script w = Answers took r :: script w1.
Proof.
  unfold session_get. destruct (script w) as [|[took r0|took] rest];
    intros H; inversion H; subst. exists took. reflexivity.
Qed.

Lemma get_from_outcome interval retries todo : forall attempt w,
  retries = (attempt + Z.of_nat todo)%Z -> (1 <= todo)%nat ->
  match fst (get_from interval retries todo attempt w) with
  | Ok r =>
      is_error_status (status_code r) = false
      /\ exists took, In (Answers took r) (script w)
  | Raise (HTTPError status) => is_error_status status = true
  | Raise ConnectionError => True
  | Raise _ => False
  end.
Proof.
  induction todo as [|todo IH]; intros attempt w Hr Hpos; [lia|].
  cbn [get_from]. fold (throttle interval w).
  pose proof (script_throttle interval w) as Hscript.
  destruct (session_get (throttle interval w)) as [[r|] w1] eqn:Hs;
    [|exact I].
  destruct (script_session_get _ Hs) as (took & Htook).
  rewrite Hscript in Htook.
  assert (Hdone : match fst (raise_for_status r, stamp w1) with
                  | Ok r0 =>
                      is_error_status (status_code r0) = false
                      /\ exists took0, In (Answers took0 r0) (script w)
                  | Raise (HTTPError status) => is_error_status status = true
                  | Raise ConnectionError => True
                  | Raise _ => False
                  end).
  { unfold raise_for_status. cbn [fst].
    destruct (is_error_status (status_code r)) eqn:He; [exact He|].
    split; [exact He|]. exists took. rewrite Htook. left. reflexivity. }
  destruct (status_in _ _); [|exact Hdone].
  destruct (attempt <? retries - 1)%Z eqn:Ha; [|exact Hdone].
  apply Z.ltb_lt in Ha.
  specialize (IH (attempt + 1)%Z
                (sleep (inject_Z (attempt + 1) * interval)%Q (stamp w1))).
  destruct (fst (get_from interval retries todo (attempt + 1)
                   (sleep (inject_Z (attempt + 1) * interval)%Q (stamp w1))))
    as [r'|e].
  - destruct IH as (He & took' & Hin); [lia | lia |].
    split; [exact He|]. exists took'. rewrite Htook. right. exact Hin.
  - apply IH; lia.
Qed.

Lemma get_from_requests interval retries todo attempt w :
  (1 <= todo)%nat ->
  (requests_made w
   < requests_made (snd (get_from interval retries todo attempt w)))%nat.
Proof.
  revert attempt w. induction todo as [|todo IH]; intros attempt w Hpos; [lia|].
  cbn [get_from]. fold (throttle interval w).
  pose proof (requests_made_session_get (throttle interval w)) as Hreq.
  rewrite requests_made_throttle in Hreq.
  destruct (session_get (throttle interval w)) as [[r|] w1];
    cbn [snd] in Hreq; [|cbn [snd]; lia].
  assert (Hdone : (requests_made w < requests_made (stamp w1))%nat)
    by (rewrite requests_made_stamp; lia).
  destruct (status_in _ _); [|exact Hdone].
  destruct (attempt <? retries - 1)%Z; [|exact Hdone].
  destruct todo as [|todo'].
  - cbn [get_from snd]. rewrite requests_made_sleep, requests_made_stamp. lia.
  - eapply Nat.lt_trans; [|apply IH; lia].
    rewrite requests_made_sleep, requests_made_stamp. lia.
Qed.

(** X8.  A call of [get] makes at least one request and at most four
    and ends in one of three ways: it returns a response that the
    server sent and whose status is outside 400 to 599, it raises
    [HTTPError] for a status from 400 to 599, or the transport error of
    the request propagates.  The [RuntimeError] after its loop is never
    raised. *)
Theorem get_outcomes :
  forall (interval : Q) (w : world),
    match fst (get interval w) with
    | Ok r =>
        is_error_status (status_code r) = false
        /\ exists took, In (Answers took r) (script w)
    | Raise (HTTPError status) => is_error_status status = true
    | Raise ConnectionError => True
    | Raise _ => False
    end
    /\ (requests_made w < requests_made (snd (get interval w))
        <= requests_made w + 4)%nat.
Proof.
  intros interval w. split.
  - unfold get. apply get_from_outcome; [reflexivity | lia].
  - split; [apply get_from_requests; lia | apply get_from_ceiling].
Qed.

Lemma trace_session_get w :
  trace (snd (session_get w)) = trace w ++ [Requested].
Proof.
  unfold session_get.
  destruct (script w) as [|[took r|took] rest]; reflexivity.
Qed.

Lemma get_json_from_runs (J : Type) (json : str -> option J) todo :
  forall attempt last_exc w,
    match get_json_from json todo attempt last_exc w with
    | (Ok _, w') =>
        (requests_made w < requests_made w' <= requests_made w + todo)%nat
    | (Raise e, w') =>
        (exists last, e = RuntimeError last)
        /\ trace w' = trace w ++ failed_attempts attempt todo
    end.
Proof.
  induction todo as [|todo IH]; intros attempt last_exc w.
  - simpl. split; [eexists; reflexivity | rewrite app_nil_r; reflexivity].
  - cbn [get_json_from failed_attempts].
    pose proof (requests_made_session_get w) as Hreq.
    pose proof (trace_session_get w) as Htr.
    assert (Hretry : forall last w1,
              requests_made w1 = S (requests_made w) ->
              trace w1 = trace w ++ [Requested] ->
              match
                get_json_from json todo (attempt + 1) last
                  (sleep (backoff_json attempt) w1)
              with
              | (Ok _, w') =>
                  (requests_made w < requests_made w'
                   <= requests_made w + S todo)%nat
              | (Raise e, w') =>
                  (exists last', e = RuntimeError last')
                  /\ trace w'
                     = trace w ++ Requested :: Slept (backoff_json attempt)
                         :: failed_attempts (attempt + 1) todo
              end).
    { intros last w1 Hw1 Htr1.
      specialize (IH (attempt + 1)%Z last (sleep (backoff_json attempt) w1)).
      destruct (get_json_from json todo (attempt + 1) last
                  (sleep (backoff_json attempt) w1)) as [[p|e] w'].
      - rewrite requests_made_sleep in IH. lia.
      - destruct IH as [He Ht]. split; [exact He|].
        rewrite Ht. cbn [trace sleep]. rewrite Htr1, <- !app_assoc.
        reflexivity. }
    destruct (session_get w) as [[r|] w1]; cbn [snd] in Hreq, Htr;
      [|apply Hretry; assumption].
    destruct (status_in _ _); [apply Hretry; assumption|].
    destruct (raise_for_status r) as [r'|exc]; [|apply Hretry; assumption].
    destruct (json (text r')); [lia | apply Hretry; assumption].
Qed.

(** X9.  [get_json] raises nothing but [RuntimeError]: every error of an
    attempt is caught.  A call that fails has made exactly three
    requests and has slept 1.5, 3 and 4.5 seconds, the last sleep after
    the last attempt; a call that succeeds has made one to three
    requests. *)
Theorem get_json_failure_cost :
  forall (J : Type) (json : str -> option J) (w : world),
    match get_json json w with
    | (Ok _, w') =>
        (requests_made w < requests_made w' <= requests_made w + 3)%nat
    | (Raise e, w') =>
        (exists last_exc, e = RuntimeError last_exc)
        /\ trace w'
           = trace w
             ++ [Requested; Slept (15 # 10); Requested; Slept (30 # 10);
                 Requested; Slept (45 # 10)]
    end.
Proof.
  intros J json w. unfold get_json.
  apply (get_json_from_runs json 3 0 None w).
Qed.

(** ** Geometry of wrapped text *)

Lemma descend_linear n : forall y,
  (descend y n == y - 14 * inject_Z (Z.of_nat n))%Q.
Proof.
  induction n as [|n IH]; intros y.
  - simpl. ring.
  - cbn [descend]. rewrite IH, Nat2Z.inj_succ. unfold Z.succ.
    rewrite inject_Z_plus. ring.
Qed.

Lemma draw_loop_geometry stringWidth width x ws : forall y canvas line,
  exists new,
    fst (draw_loop stringWidth width x y canvas line ws) = canvas ++ new
    /\ Forall (fun d => at_x d = x) new
    /\ List.map at_y new = line_positions y (List.length new)
    /\ snd (draw_loop stringWidth width x y canvas line ws)
       = descend y (List.length new)
    /\ (1 <= List.length new <= S (List.length ws))%nat.
Proof.
  induction ws as [|w ws IH]; intros y canvas line.
  - exists [{| at_x := x; at_y := y; drawn := line |}]. simpl.
    repeat split; auto.
  - cbn [draw_loop]. cbv zeta.
    destruct (fits stringWidth width (line ++ [space] ++ w)).
    + destruct (IH y canvas (line ++ [space] ++ w)) as (new & H1 & H2 & H3 & H4 & H5).
      exists new. repeat split; auto; simpl; lia.
    + destruct (IH (y - 14)%Q
                  (canvas ++ [{| at_x := x; at_y := y; drawn := line |}]) w)
        as (new & H1 & H2 & H3 & H4 & H5).
      exists ({| at_x := x; at_y := y; drawn := line |} :: new).
      rewrite H1, H4, <- app_assoc. simpl.
      repeat split; auto; try lia. rewrite H3. reflexivity.
Qed.

(** X10.  [draw_wrapped] only adds to the canvas: it draws its lines at
    [x], the first at [y] and each next one 14 points lower, and
    returns the [y] 14 points below the last line, that is [y] minus 14
    times the number of lines.  It never starts a new page.  A text
    without a word draws nothing and returns [y]; otherwise there is at
    least one line and at most one line a word. *)
Theorem draw_wrapped_geometry :
  forall (stringWidth : str -> Q) (canvas : list draw_string) (text : str)
         (x y width : Q),
    exists new,
      fst (draw_wrapped stringWidth canvas text x y width) = canvas ++ new
      /\ Forall (fun d => at_x d = x) new
      /\ List.map at_y new = line_positions y (List.length new)
      /\ snd (draw_wrapped stringWidth canvas text x y width)
         = descend y (List.length new)
      /\ (snd (draw_wrapped stringWidth canvas text x y width)
          == y - 14 * inject_Z (Z.of_nat (List.length new)))%Q
      /\ (split text = [] -> new = [])
      /\ (split text <> [] ->
          (1 <= List.length new <= List.length (split text))%nat).
Proof.
  intros stringWidth canvas text x y width. unfold draw_wrapped.
  destruct (split text) as [|w0 ws].
  - exists []. simpl. rewrite app_nil_r.
    repeat split; auto; [ring | congruence].
  - destruct (draw_loop_geometry stringWidth width x ws y canvas w0)
      as (new & H1 & H2 & H3 & H4 & H5).
    exists new. split; [exact H1|]. split; [exact H2|]. split; [exact H3|].
    split; [exact H4|]. split; [rewrite H4; apply descend_linear|].
    split; [discriminate|]. intros _. simpl. exact H5.
Qed.

Lemma join_words_starts_clean ws :
  Forall is_word ws -> starts_clean (join [space] ws).
Proof.
  intros Hw. destruct ws as [|w ws]; [exact I|].
  inversion Hw as [|? ? [Hne Hns] _]; subst.
  destruct w as [|c w]; [congruence|].
  assert (Hc : isspace c = false).
  { unfold no_space in Hns. simpl in Hns.
    apply andb_true_iff in Hns as [Hc _]. apply negb_true_iff, Hc. }
  destruct ws; exact Hc.
Qed.

Lemma greedy_groups_count stringWidth max_width gs :
  greedy_groups stringWidth max_width gs ->
  (List.length gs <= List.length (List.concat gs))%nat
  /\ forall g, In g gs -> g <> [] /\ exists a b, List.concat gs = a ++ g ++ b.
Proof.
  induction gs as [|g gs IH]; intros Hgr.
  - simpl. split; [lia | intros g []].
  - destruct Hgr as (Hg & _ & _ & Hrest). destruct (IH Hrest) as [Hlen Hall].
    simpl. rewrite length_app. split.
    + destruct g; [congruence|]. simpl. lia.
    + intros g' [<-|Hin].
      * split; [exact Hg|]. exists [], (List.concat gs). reflexivity.
      * destruct (Hall g' Hin) as (Hne & a & b & He).
        split; [exact Hne|]. exists (g ++ a), b.
        rewrite He, <- app_assoc. reflexivity.
Qed.

(** X11.  [wrap_text] always returns at least one line, and at most one
    line a word.  For a text without a word it returns the single empty
    line; otherwise no line is empty and no line starts or ends with
    whitespace. *)
Theorem wrap_text_line_count :
  forall (stringWidth : str -> Q) (text : str) (max_width : Q),
    let lines := wrap_text stringWidth text max_width in
    (1 <= List.length lines)%nat
    /\ (List.length lines <= Nat.max 1 (List.length (split text)))%nat
    /\ (split text = [] -> lines = [[]])
    /\ (split text <> [] ->
        Forall (fun l => l <> [] /\ starts_clean l /\ starts_clean (rev l))
          lines).
Proof.
  intros stringWidth text max_width lines. subst lines. unfold wrap_text.
  pose proof (split_words text) as Hwords.
  destruct (split text) as [|w0 ws] eqn:Hs.
  - simpl. repeat split; auto. congruence.
  - destruct (@wrap_loop_greedy stringWidth max_width ws [w0] [])
      as (g' & rest & He & Hc & Hgr);
      [discriminate | apply extensions_fit_single |].
    change (join [space] [w0]) with w0 in He. rewrite He. cbn [app].
    destruct (greedy_groups_count _ _ _ Hgr) as [Hlen Hall].
    rewrite Hc in Hlen, Hall. rewrite length_map.
    split; [simpl; lia|]. split; [simpl in *; lia|].
    split; [discriminate|]. intros _.
    apply Forall_forall. intros l Hl.
    apply in_map_iff in Hl as (g & <- & Hg).
    destruct (Hall g Hg) as (Hne & a & b & Hab).
    assert (Hgw : Forall is_word g).
    { cbn [app] in Hab. rewrite Hab in Hwords.
      apply Forall_app in Hwords as [_ Hwords].
      apply Forall_app in Hwords as [Hwords _]. exact Hwords. }
    split; [apply join_words_nonempty; assumption|].
    split; [apply join_words_starts_clean | apply join_words_ends_clean];
      exact Hgw.
Qed.

(** ** Page breaks of [Free.write_pdf] *)

Lemma Qless_true a b : Qless a b = true <-> (a < b)%Q.
Proof.
  unfold Qless. rewrite negb_true_iff. split.
  - intros H. apply Qnot_le_lt. intros Hle.
    apply Qle_bool_iff in Hle. congruence.
  - intros H. destruct (Qle_bool b a) eqn:E; [|reflexivity].
    apply Qle_bool_iff in E. exfalso. apply (Qlt_not_le _ _ H E).
Qed.

Lemma Qless_false a b : Qless a b = false <-> (b <= a)%Q.
Proof.
  unfold Qless. rewrite negb_false_iff. apply Qle_bool_iff.
Qed.

Lemma page_constants :
  ((25 # 10) * cm <= Free.page_top)%Q
  /\ ((25 # 10) * cm <= 3 * cm - 14)%Q
  /\ (3 * cm <= Free.page_top - 22)%Q
  /\ ((25 # 10) * cm <= 3 * cm)%Q.
Proof.
  unfold Free.page_top, A4_height, mm, cm. repeat split; lra.
Qed.

Section WritePdfFacts.

Variable stringWidth : str -> Q.

Lemma draw_body_margins x lines : forall c y,
  (x == 2 * cm)%Q -> (y <= Free.page_top)%Q -> Forall within_margins c ->
  Forall within_margins (fst (Free.draw_body x lines c y))
  /\ (snd (Free.draw_body x lines c y) <= Free.page_top)%Q
  /\ exists more, fst (Free.draw_body x lines c y) = c ++ more.
Proof.
  destruct page_constants as (Htop & _).
  induction lines as [|line lines IH]; intros c y Hx Hy Hc.
  - simpl. split; [exact Hc|]. split; [exact Hy|].
    exists []. rewrite app_nil_r. reflexivity.
  - cbn [Free.draw_body].
    destruct (Qless y ((25 # 10) * cm)) eqn:Hb.
    + destruct (IH ((c ++ [ShowPage; SetFont (lit "Helvetica") 10])
                      ++ [DrawString x Free.page_top line])
                  (Free.page_top - 14)%Q Hx) as (H1 & H2 & more & H3).
      * lra.
      * repeat (apply Forall_app; split); auto.
        -- repeat constructor.
        -- repeat constructor; [exact Hx | exact Htop | lra].
      * split; [exact H1|]. split; [exact H2|].
        eexists. rewrite H3, <- !app_assoc. reflexivity.
    + apply Qless_false in Hb.
      destruct (IH (c ++ [DrawString x y line]) (y - 14)%Q Hx)
        as (H1 & H2 & more & H3).
      * lra.
      * apply Forall_app. split; [exact Hc|].
        repeat constructor; assumption.
      * split; [exact H1|]. split; [exact H2|].
        eexists. rewrite H3, <- !app_assoc. reflexivity.
Qed.

Lemma draw_sections_margins x max_width sections : forall c y,
  (x == 2 * cm)%Q -> (y <= Free.page_top)%Q -> Forall within_margins c ->
  Forall within_margins
    (fst (Free.draw_sections stringWidth x max_width sections c y)).
Proof.
  destruct page_constants as (Htop & _ & Hfirst & H3cm).
  induction sections as [|[heading body] sections IH]; intros c y Hx Hy Hc.
  - exact Hc.
  - cbn [Free.draw_sections].
    set (start := if Qless y (3 * cm) then _ else _).
    assert (Hstart : Forall within_margins (fst start)
                     /\ (3 * cm <= snd start <= Free.page_top)%Q).
    { subst start. destruct (Qless y (3 * cm)) eqn:Hb; cbn [fst snd].
      - split; [|lra]. apply Forall_app. split; [exact Hc|].
        repeat constructor.
      - apply Qless_false in Hb. split; [exact Hc | lra]. }
    destruct start as [c0 y0]. cbn [fst snd] in Hstart.
    destruct Hstart as (Hc0 & Hy0).
    set (c1 := (c0 ++ _) ++ _).
    assert (Hc1 : Forall within_margins c1).
    { subst c1. repeat (apply Forall_app; split); auto.
      - repeat constructor; [exact Hx | lra | lra].
      - repeat constructor. }
    destruct (@draw_body_margins x
                (wrap_text stringWidth body max_width) c1 (y0 - 14)%Q Hx)
      as (Hb1 & Hb2 & _); [lra | exact Hc1 |].
    destruct (Free.draw_body x _ c1 (y0 - 14)%Q) as [c2 y2].
    cbn [fst snd] in Hb1, Hb2.
    apply IH; [exact Hx | lra | exact Hb1].
Qed.

End WritePdfFacts.

(** X12.  Everything [write_pdf] of the free-source builder draws is at
    the left margin of 2 cm, not above the first line of a page and not
    below 2.5 cm from the bottom, however many sections there are and
    however long their bodies. *)
Theorem write_pdf_within_margins :
  forall (stringWidth : str -> Q) (title : str) (sections : list (str * str)),
    Forall within_margins (Free.write_pdf stringWidth title sections).
Proof.
  intros stringWidth title sections. unfold Free.write_pdf. cbv zeta.
  destruct page_constants as (Htop & _ & Hfirst & _).
  pose proof (@draw_sections_margins stringWidth (2 * cm)%Q
                (A4_width - 4 * cm)%Q sections
                ([SetFont (lit "Helvetica-Bold") 14;
                  DrawString (2 * cm) (A4_height - 2 * cm) title]
                 ++ [SetFont (lit "Helvetica") 10])
                (A4_height - 2 * cm - 22)%Q) as H.
  destruct (Free.draw_sections stringWidth _ _ sections _ _) as [c y].
  apply Forall_app. split; [|repeat constructor].
  apply H.
  - reflexivity.
  - unfold Free.page_top. lra.
  - cbn [app]. constructor; [exact I|].
    constructor; [|constructor; [exact I | constructor]].
    split; [reflexivity|]. split; [exact Htop|].
    unfold Free.page_top. lra.
Qed.

Lemma draw_body_appends x lines : forall c y,
  exists more, fst (Free.draw_body x lines c y) = c ++ more.
Proof.
  induction lines as [|l lines IH]; intros c y.
  - exists []. simpl. rewrite app_nil_r. reflexivity.
  - cbn [Free.draw_body]. destruct (Qless y _).
    + destruct (IH ((c ++ [ShowPage; SetFont (lit "Helvetica") 10])
                      ++ [DrawString x Free.page_top l])
                  (Free.page_top - 14)%Q) as (more & Hm).
      eexists. rewrite Hm, <- !app_assoc. reflexivity.
    + destruct (IH (c ++ [DrawString x y l]) (y - 14)%Q) as (more & Hm).
      eexists. rewrite Hm, <- !app_assoc. reflexivity.
Qed.

Lemma wrap_text_first stringWidth body max_width :
  exists first others, wrap_text stringWidth body max_width = first :: others.
Proof.
  unfold wrap_text.
  destruct (split body) as [|w0 ws]; [eexists; eexists; reflexivity|].
  destruct (@wrap_loop_greedy stringWidth max_width ws [w0] [])
    as (g' & more & He & _); [discriminate | apply extensions_fit_single |].
  change (join [space] [w0]) with w0 in He.
  rewrite He. cbn [app List.map]. eexists; eexists; reflexivity.
Qed.

(** The heading at [y0], then the body, from the canvas [c0]. *)
Lemma heading_then_first_line stringWidth x max_width heading body c0 y0 :
  (3 * cm <= y0)%Q ->
  exists first more y2,
    hd_error (wrap_text stringWidth body max_width) = Some first
    /\ Free.draw_body x (wrap_text stringWidth body max_width)
         ((c0 ++ [SetFont (lit "Helvetica-Bold") 11; DrawString x y0 heading])
          ++ [SetFont (lit "Helvetica") 10])
         (y0 - 14)%Q
       = (c0
          ++ [SetFont (lit "Helvetica-Bold") 11; DrawString x y0 heading;
              SetFont (lit "Helvetica") 10; DrawString x (y0 - 14)%Q first]
          ++ more,
          y2).
Proof.
  intros Hy0. destruct page_constants as (_ & Hgap & _).
  destruct (wrap_text_first stringWidth body max_width)
    as (first & others & Hl).
  rewrite Hl. cbn [Free.draw_body hd_error].
  replace (Qless (y0 - 14)%Q ((25 # 10) * cm)) with false
    by (symmetry; apply Qless_false; lra).
  destruct (draw_body_appends x others
              (((c0 ++ [SetFont (lit "Helvetica-Bold") 11;
                        DrawString x y0 heading])
                ++ [SetFont (lit "Helvetica") 10])
               ++ [DrawString x (y0 - 14)%Q first])
              (y0 - 14 - 14)%Q) as (more & Hm).
  destruct (Free.draw_body x others _ (y0 - 14 - 14)%Q) as [c2 y2].
  cbn [fst] in Hm. exists first, more, y2. split; [reflexivity|].
  rewrite Hm, <- !app_assoc. reflexivity.
Qed.

(** X13.  A section heading is never left alone at the foot of a page:
    wherever the loop over the sections stands, it draws the heading at
    a [y] of at least 3 cm, after a page break when the [y] it came
    with was lower, and draws the first line of the body 14 points
    below it with no page break in between. *)
Theorem section_heading_not_orphaned :
  forall (stringWidth : str -> Q) (x max_width : Q) (heading body : str)
         (rest : list (str * str)) (c : list canvas_op) (y : Q),
    exists break y0 first more y1,
      Free.draw_sections stringWidth x max_width ((heading, body) :: rest) c y
      = Free.draw_sections stringWidth x max_width rest
          (c ++ break
             ++ [SetFont (lit "Helvetica-Bold") 11; DrawString x y0 heading;
                 SetFont (lit "Helvetica") 10;
                 DrawString x (y0 - 14)%Q first]
             ++ more)
          y1
      /\ (3 * cm <= y0)%Q
      /\ ((break = [] /\ y0 = y)
          \/ (break = [ShowPage; SetFont (lit "Helvetica") 10]
              /\ y0 = Free.page_top /\ (y < 3 * cm)%Q))
      /\ hd_error (wrap_text stringWidth body max_width) = Some first.
Proof.
  intros stringWidth x max_width heading body rest c y.
  destruct page_constants as (Htop & _ & Hfirst & H3cm).
  cbn [Free.draw_sections].
  destruct (Qless y (3 * cm)) eqn:Hb.
  - destruct (@heading_then_first_line stringWidth x max_width heading body
                (c ++ [ShowPage; SetFont (lit "Helvetica") 10])
                Free.page_top) as (first & more & y2 & Hhd & Hd); [lra|].
    rewrite Hd.
    exists [ShowPage; SetFont (lit "Helvetica") 10], Free.page_top,
      first, more, (y2 - 8)%Q.
    split; [rewrite <- !app_assoc; reflexivity|].
    split; [lra|]. split; [|exact Hhd].
    right. split; [reflexivity|]. split; [reflexivity|].
    apply Qless_true, Hb.
  - apply Qless_false in Hb.
    destruct (@heading_then_first_line stringWidth x max_width heading body
                c y Hb) as (first & more & y2 & Hhd & Hd).
    rewrite Hd. exists [], y, first, more, (y2 - 8)%Q.
    split; [reflexivity|]. split; [exact Hb|]. split; [|exact Hhd].
    left. split; reflexivity.
Qed.

(** ** Wikidata time claims *)

(** X14.  [extract_time_claim] fails soft: it returns the empty string
    unless the property maps to a non-empty list whose first claim
    holds, under [mainsnak], [datavalue], [value], [time], a string
    that starts with a plus sign, a date and the letter T.  Then it
    returns that date: ten characters, four digits, two digits and two
    digits with hyphens between them.  Both ways: a result that is not
    empty has this origin, and claims of this form give exactly the
    date; a property that the claims do not hold gives the empty
    string. *)
Theorem extract_time_claim_shape :
  forall (U : unicode_db) (claims : dict json) (prop_id : str),
    let date := extract_time_claim U claims prop_id in
    (date = []
     \/ exists first others snak datavalue value rest
               y1 y2 y3 y4 m1 m2 d1 d2,
          PyDict.get claims prop_id = Some (JArray (first :: others))
          /\ member first (lit "mainsnak") = Some snak
          /\ member snak (lit "datavalue") = Some datavalue
          /\ member datavalue (lit "value") = Some value
          /\ member value (lit "time")
             = Some (JString (plus_sign :: date ++ letter_T :: rest))
          /\ date = [y1; y2; y3; y4; hyphen; m1; m2; hyphen; d1; d2]
          /\ Forall (fun c => is_decimal U c = true)
               [y1; y2; y3; y4; m1; m2; d1; d2])
    /\ (forall first others snak datavalue value rest
               y1 y2 y3 y4 m1 m2 d1 d2,
          PyDict.get claims prop_id = Some (JArray (first :: others)) ->
          member first (lit "mainsnak") = Some snak ->
          member snak (lit "datavalue") = Some datavalue ->
          member datavalue (lit "value") = Some value ->
          member value (lit "time")
          = Some (JString
                    (plus_sign
                     :: [y1; y2; y3; y4; hyphen; m1; m2; hyphen; d1; d2]
                     ++ letter_T :: rest)) ->
          Forall (fun c => is_decimal U c = true)
            [y1; y2; y3; y4; m1; m2; d1; d2] ->
          date = [y1; y2; y3; y4; hyphen; m1; m2; hyphen; d1; d2])
    /\ (PyDict.get claims prop_id = None -> date = []).
Proof.
  intros U claims prop_id date. subst date.
  split; [|split].
  - unfold extract_time_claim.
    destruct (PyDict.get claims prop_id) as [vals|] eqn:Hg;
      [|left; reflexivity].
    destruct (json_truthy vals); [|left; reflexivity]. cbn [negb].
    unfold time_of_claim.
    destruct vals as [| | | [|c s] | [|first others] |]; cbn [first_item];
      try (left; reflexivity).
    destruct (member first (lit "mainsnak")) as [snak|] eqn:H1;
      [|left; reflexivity].
    destruct (member snak (lit "datavalue")) as [datavalue|] eqn:H2;
      [|left; reflexivity].
    destruct (member datavalue (lit "value")) as [value|] eqn:H3;
      [|left; reflexivity].
    destruct (member value (lit "time")) as [[| | |raw| |]|] eqn:H4;
      try (left; reflexivity).
    unfold time_match.
    destruct raw as [|p [|y1 [|y2 [|y3 [|y4 [|h1 [|m1 [|m2 [|h2
                    [|d1 [|d2 [|t rest]]]]]]]]]]]]; try (left; reflexivity).
    destruct (_ && _) eqn:Hm; [|left; reflexivity].
    repeat (apply andb_true_iff in Hm as [Hm ?]).
    repeat match goal with
           | H : char_eqb _ _ = true |- _ => apply N.eqb_eq in H; subst
           end.
    right. exists first, others, snak, datavalue, value, rest,
             y1, y2, y3, y4, m1, m2, d1, d2.
    repeat split; auto 10; repeat constructor; assumption.
  - intros first others snak datavalue value rest y1 y2 y3 y4 m1 m2 d1 d2
      Hg H1 H2 H3 H4 Hd.
    unfold extract_time_claim. rewrite Hg.
    cbn [json_truthy negb]. unfold time_of_claim. cbn [first_item].
    rewrite H1, H2, H3, H4. cbn [app time_match].
    repeat match goal with
           | H : Forall _ (_ :: _) |- _ =>
               let Hx := fresh "Hx" in
               let Hr := fresh "Hr" in
               inversion H as [|? ? Hx Hr]; subst; clear H; rewrite Hx
           end.
    unfold char_eqb. rewrite !N.eqb_refl. reflexivity.
  - intros Hg. unfold extract_time_claim. rewrite Hg. reflexivity.
Qed.

(** A date of birth as Wikidata gives it. *)
Example extract_time_claim_example :
  extract_time_claim ascii_db
    [(lit "P569",
      JArray
        [JObject
           [(lit "mainsnak",
             JObject
               [(lit "datavalue",
                 JObject
                   [(lit "value",
                     JObject
                       [(lit "time",
                         JString (lit "+1988-11-05T00:00:00Z"))])])])]])]
    (lit "P569")
  = lit "1988-11-05"
  /\ extract_time_claim ascii_db [(lit "P569", JArray [])] (lit "P569") = []
  /\ extract_time_claim ascii_db
       [(lit "P569", JArray [JObject [(lit "mainsnak", JNull)]])]
       (lit "P569")
     = [].
Proof. repeat split; vm_compute; reflexivity. Qed.

(** ** Statistics tables *)

Section StatsguruKeys.

Variable U : unicode_db.

Lemma stat_columns_keys headers tds indices : forall acc columns,
  stat_columns headers tds indices acc = Ok columns ->
  (forall i, In i indices -> (1 <= i)%nat) ->
  incl (keys acc) (tl headers) ->
  incl (keys columns) (tl headers).
Proof.
  induction indices as [|i indices IH]; intros acc columns; simpl.
  - intros H _ Hacc. inversion H; subst. exact Hacc.
  - destruct (nth_error headers i) as [h|] eqn:Hh; [|discriminate].
    destruct (nth_error tds i) as [v|]; [|discriminate].
    intros H Hi Hacc. eapply IH; [exact H | |].
    + intros j Hj. apply Hi. right. exact Hj.
    + intros k Hk. apply keys_set in Hk as [->|Hk]; [|apply Hacc, Hk].
      specialize (Hi i (or_introl eq_refl)).
      destruct i as [|j]; [lia|]. destruct headers as [|h0 t]; [discriminate|].
      simpl in Hh. apply nth_error_In in Hh. exact Hh.
Qed.

Lemma scan_rows_entries headers data rows : forall out,
  incl rows data ->
  Forall (format_entry U headers data) out ->
  match scan_rows U headers rows out with
  | Ok out' => Forall (format_entry U headers data) out'
  | Raise _ => True
  end.
Proof.
  induction rows as [|row rows IH]; intros out Hincl Hout; [exact Hout|].
  assert (Hrows : incl rows data)
    by (intros r Hr; apply Hincl; right; exact Hr).
  cbn [scan_rows].
  destruct (negb _); [apply IH; assumption|].
  destruct (nth_error (List.map (clean U) (td_texts row)) 0) as [fmt|] eqn:Hf;
    [|exact I].
  destruct (skipped_format U fmt) eqn:Hsk; [apply IH; assumption|].
  destruct (stat_columns _ _ _ _) as [columns|e] eqn:Hc; [|exact I].
  apply IH; [exact Hrows|].
  assert (Hentry : format_entry U headers data (fmt, columns)).
  { split; [exact Hsk|]. split.
    - eapply stat_columns_keys; [exact Hc | |].
      + intros i Hi. apply in_seq in Hi. lia.
      + intros k [].
    - exists row. split; [apply Hincl; left; reflexivity|].
      destruct (List.map (clean U) (td_texts row)); [discriminate|].
      exact Hf. }
  clear - Hout Hentry. induction out as [|[k v] out IHo]; simpl.
  - constructor; [exact Hentry | constructor].
  - inversion Hout as [|? ? Hkv Hrest]; subst.
    destruct (str_eqb k fmt) eqn:E.
    + apply str_eqb_eq in E. subst k. constructor; [exact Hentry | exact Hrest].
    + constructor; [exact Hkv | apply IHo, Hrest].
Qed.

End StatsguruKeys.

(** X15.  The mapping that the statistics-table extractor returns comes
    from one table with a [Mat] header: every key is the cleaned leading
    cell of one of its data rows and is neither empty nor Span nor
    Overall in any letter case, and the statistics under a key are
    labelled by headers other than the leading one. *)
Theorem statsguru_summary_entries :
  forall (U : unicode_db) (soup_engine_tables : str -> list (list table_row))
         (html : str),
    match statsguru_summary_of_html U soup_engine_tables html with
    | Ok [] => True
    | Ok out =>
        exists header_row data,
          In (header_row :: data) (soup_engine_tables html)
          /\ In (lit "Mat") (List.map (clean U) (th_texts header_row))
          /\ Forall
               (format_entry U (List.map (clean U) (th_texts header_row)) data)
               out
    | Raise _ => False
    end.
Proof.
  intros U soup_engine_tables html. unfold statsguru_summary_of_html.
  induction (soup_engine_tables html) as [|rows tables IH]; [exact I|].
  cbn [scan_tables].
  assert (Hmore : match scan_tables U tables with
                  | Ok [] => True
                  | Ok out =>
                      exists header_row data,
                        In (header_row :: data) (rows :: tables)
                        /\ In (lit "Mat")
                             (List.map (clean U) (th_texts header_row))
                        /\ Forall
                             (format_entry U
                                (List.map (clean U) (th_texts header_row))
                                data) out
                  | Raise _ => False
                  end).
  { destruct (scan_tables U tables) as [[|e out]|]; auto.
    destruct IH as (h & d & Hin & Hm & Hall).
    exists h, d. split; [right; exact Hin | auto]. }
  destruct rows as [|header_row data]; [exact Hmore|].
  destruct (List.length (header_row :: data) <? 2)%nat; [exact Hmore|].
  destruct (existsb (str_eqb (lit "Mat"))
              (List.map (clean U) (th_texts header_row))) eqn:Hmat;
    [|exact Hmore].
  cbn [negb].
  pose proof (@scan_rows_entries U
                (List.map (clean U) (th_texts header_row)) data data []
                (incl_refl _) (Forall_nil _)) as Hrows.
  destruct (@scan_rows_ok U (List.map (clean U) (th_texts header_row)) data []
              (@headers_with_mat _ Hmat)) as (o & Ho & _).
  rewrite Ho in Hrows |- *.
  destruct o as [|e o]; [exact Hmore|].
  exists header_row, data. split; [left; reflexivity|]. split; [|exact Hrows].
  apply existsb_exists in Hmat as (h & Hin & He).
  apply str_eqb_eq in He. subst h. exact Hin.
Qed.

(** ** Spacing of the requests of [get] *)

Lemma get_from_step interval retries todo attempt w :
  get_from interval retries (S todo) attempt w
  = match session_get (throttle interval w) with
    | (None, w1) => (Raise ConnectionError, w1)
    | (Some r, w1) =>
        if status_in (status_code r) [403; 429; 500; 502; 503; 504]%Z
        then
          if (attempt <? retries - 1)%Z
          then
            get_from interval retries todo (attempt + 1)%Z
              (sleep (inject_Z (attempt + 1) * interval)%Q (stamp w1))
          else (raise_for_status r, stamp w1)
        else (raise_for_status r, stamp w1)
    end.
Proof. reflexivity. Qed.

Lemma get_from_spaced interval retries todo : forall k w1,
  (0 < interval)%Q -> (1 <= k)%Z ->
  retries = (k + Z.of_nat todo)%Z -> (1 <= todo)%nat ->
  exists tail,
    trace (snd (get_from interval retries todo k
                  (sleep (inject_Z k * interval)%Q (stamp w1))))
    = trace w1 ++ tail
    /\ spaced interval tail.
Proof.
  induction todo as [|todo IH]; intros k w1 Hi Hk Hr Hpos; [lia|].
  assert (Hd : (interval <= inject_Z k * interval)%Q).
  { rewrite <- (Qmult_1_l interval) at 1.
    apply Qmult_le_compat_r; [|apply Qlt_le_weak, Hi].
    change 1%Q with (inject_Z 1). rewrite <- Zle_Qle. exact Hk. }
  rewrite get_from_step, throttle_after_backoff by assumption.
  pose proof (trace_session_get (sleep (inject_Z k * interval)%Q (stamp w1)))
    as Htr.
  cbn [trace sleep stamp] in Htr.
  destruct (session_get (sleep (inject_Z k * interval)%Q (stamp w1)))
    as [[r|] w2]; cbn [snd] in Htr.
  - assert (Hdone : exists tail,
               trace (stamp w2) = trace w1 ++ tail /\ spaced interval tail).
    { exists [Slept (inject_Z k * interval)%Q; Requested].
      cbn [trace stamp]. rewrite Htr, <- app_assoc.
      split; [reflexivity|]. cbn [spaced]. auto. }
    destruct (status_in _ _); [|exact Hdone].
    destruct (k <? retries - 1)%Z eqn:Ha; [|exact Hdone].
    apply Z.ltb_lt in Ha.
    destruct (IH (k + 1)%Z w2 Hi) as (tail & Ht & Hs); try lia.
    exists ([Slept (inject_Z k * interval)%Q; Requested] ++ tail).
    rewrite Ht, Htr, <- !app_assoc. split; [reflexivity|].
    cbn [app spaced]. auto.
  - exists [Slept (inject_Z k * interval)%Q; Requested].
    cbn [snd]. rewrite Htr, <- app_assoc.
    split; [reflexivity|]. cbn [spaced]. auto.
Qed.

(** X16.  The rate limit of [get]: before its first request the call
    sleeps for what is missing of the request interval since the last
    request, and not at all when the interval has passed; every further
    request of the call comes right after a sleep of at least the
    interval. *)
Theorem get_requests_spaced :
  forall (arg : Q) (w : world),
    let interval := request_interval arg in
    let since := (clock w - last_request_ts w)%Q in
    exists initial tail,
      trace (snd (get interval w))
      = trace w ++ initial ++ [Requested] ++ tail
      /\ spaced interval tail
      /\ ((initial = [] /\ (interval <= since)%Q)
          \/ (initial = [Slept (interval - since)%Q]
              /\ (since < interval)%Q)).
Proof.
  intros arg w interval since.
  pose proof (request_interval_positive arg) as Hpos. fold interval in Hpos.
  assert (Hinit : exists initial,
             trace (throttle interval w) = trace w ++ initial
             /\ ((initial = [] /\ (interval <= since)%Q)
                 \/ (initial = [Slept (interval - since)%Q]
                     /\ (since < interval)%Q))).
  { unfold throttle. cbv zeta. fold since.
    destruct (Qpositive (interval - since)%Q) eqn:Hp.
    - exists [Slept (interval - since)%Q]. split; [reflexivity|].
      right. split; [reflexivity|].
      unfold Qpositive in Hp. apply negb_true_iff in Hp.
      apply Qnot_le_lt. intros Hle.
      assert (Hb : Qle_bool (interval - since)%Q 0 = true)
        by (apply Qle_bool_iff; lra).
      congruence.
    - exists []. rewrite app_nil_r. split; [reflexivity|].
      left. split; [reflexivity|].
      unfold Qpositive in Hp. apply negb_false_iff, Qle_bool_iff in Hp. lra. }
  destruct Hinit as (initial & Htr0 & Hcase).
  exists initial.
  unfold get. rewrite get_from_step.
  pose proof (trace_session_get (throttle interval w)) as Htr.
  rewrite Htr0 in Htr.
  destruct (session_get (throttle interval w)) as [[r|] w1]; cbn [snd] in Htr.
  - assert (Hdone : exists tail,
               trace (stamp w1) = trace w ++ initial ++ [Requested] ++ tail
               /\ spaced interval tail
               /\ ((initial = [] /\ (interval <= since)%Q)
                   \/ (initial = [Slept (interval - since)%Q]
                       /\ (since < interval)%Q))).
    { exists []. cbn [trace stamp]. rewrite Htr, app_nil_r, <- app_assoc.
      split; [reflexivity|]. split; [exact I | exact Hcase]. }
    destruct (status_in _ _); [|exact Hdone].
    change (0 <? 4 - 1)%Z with true. cbv iota.
    destruct (@get_from_spaced interval 4 3 (0 + 1) w1 Hpos)
      as (tail & Ht & Hs); try lia; try reflexivity.
    exists tail. cbn [snd]. rewrite Ht, Htr, <- !app_assoc.
    split; [reflexivity|]. split; [exact Hs | exact Hcase].
  - exists []. cbn [snd]. rewrite Htr, app_nil_r, <- app_assoc.
    split; [reflexivity|]. split; [exact I | exact Hcase].
Qed.

(** ** Where the listing entries come from *)

(** X17.  What the listing extractor returns is what its heuristics
    found, never a made-up or a noise entry: with script fragments, each
    name is a captured name, stripped, of at least two words that does
    not start with ipl or auction in any letter case; otherwise each
    name is a cell of a table row, starts with a capital letter,
    consists of letters, dots, apostrophes, spaces and hyphens and has
    at most four words. *)
Theorem extract_players_provenance :
  forall (U : unicode_db) (soup_rows : str -> list (list str)) (html : str),
    Forall
      (fun p =>
         (script_players U html <> [] ->
          exists n,
            In n (findall_name html) /\ Player.name p = strip n
            /\ (2 <= List.length (split n))%nat /\ noise U n = false)
         /\ (script_players U html = [] ->
             exists tds,
               In tds (soup_rows html) /\ In (Player.name p) tds
               /\ name_shaped (Player.name p) = true
               /\ (List.length (split (Player.name p)) <= 4)%nat))
      (extract_players_from_espn_html U soup_rows html).
Proof.
  intros U soup_rows html. apply Forall_forall. intros p Hp.
  assert (Hc : In p (candidate_players U soup_rows html)).
  { eapply subsequence_In; [|exact Hp]. apply dedup_subsequence. }
  unfold candidate_players in Hc.
  destruct (script_players U html) as [|q qs] eqn:Hs.
  - split; [congruence|]. intros _.
    unfold table_players in Hc. apply in_flat_map in Hc as (tds & Hrow & Hc).
    unfold row_player in Hc. destruct tds as [|td tds]; [destruct Hc|].
    destruct (find _ (td :: tds)) as [cell|] eqn:Hf; [|destruct Hc].
    destruct Hc as [<-|[]]. apply find_some in Hf as [Hin Hok].
    apply andb_true_iff in Hok as [Hshape Hwords].
    exists (td :: tds). cbn [Player.name].
    repeat split; auto. apply Nat.leb_le, Hwords.
  - split; [|discriminate]. intros _. rewrite <- Hs in Hc.
    unfold script_players in Hc.
    destruct (sorted_set_spec (findall_name html)) as [_ Hi].
    destruct (sorted_set (findall_name html)) as [|n0 ns]; [destruct Hc|].
    apply in_flat_map in Hc as (n & Hn & Hc).
    destruct ((2 <=? List.length (split n))%nat && negb (noise U n)) eqn:Hok;
      [|destruct Hc].
    destruct Hc as [<-|[]]. apply andb_true_iff in Hok as [Hw Hnoise].
    exists n. cbn [Player.name].
    repeat split; auto.
    + apply Hi, Hn.
    + apply Nat.leb_le, Hw.
    + apply negb_true_iff, Hnoise.
Qed.

(** ** Image collector *)

Module ImagesFacts.

Import Images.

Lemma image_path_truthy player_name : truthy (image_path player_name) = true.
Proof.
  unfold image_path, path_join.
  destruct (startswith _ _) eqn:E.
  - destruct (image_filename player_name); [discriminate E | reflexivity].
  - reflexivity.
Qed.

Lemma has_image_set data (success : bool) player_name :
  has_image
    (set data (lit "image_path")
       (JString (if success then image_path player_name else [])))
  = success.
Proof.
  unfold has_image. rewrite get_set, str_eqb_refl.
  destruct success; [apply image_path_truthy | reflexivity].
Qed.

Section CollectorFacts.

Variable U : unicode_db.
Variable sendable : json -> bool.
Variable image_saved : response -> str -> bool.

Lemma download_image_effect url save_path st :
  let (success, st') := download_image sendable image_saved url save_path st in
  files st' = files st ++ (if success then [save_path] else [])
  /\ trace (net st')
     = trace (net st) ++ (if sendable url then [Requested] else []).
Proof.
  unfold download_image. destruct (sendable url).
  - pose proof (trace_session_get (net st)) as Htr.
    destruct (session_get (net st)) as [[r|] w]; cbn [snd] in Htr.
    + destruct (raise_for_status r);
        [destruct (image_saved _ _)|]; cbn [files net];
        rewrite ?app_nil_r; auto.
    + cbn [files net]. rewrite app_nil_r. auto.
  - rewrite !app_nil_r. auto.
Qed.

End CollectorFacts.

End ImagesFacts.

(** X18.  The image collector changes nothing but the image path: the
    file written back has the same players in the same order, an entry
    that had an image is left as it was, and an entry that had none
    keeps every other field and gets the path of its image or the empty
    string. *)
Theorem image_collector_frame :
  forall (U : unicode_db) (sendable : json -> bool)
         (image_saved : response -> str -> bool)
         (players : dict (dict json)) (st : Images.state),
    Forall2
      (fun before after =>
         fst after = fst before
         /\ (forall k, k <> lit "image_path" ->
                       PyDict.get (snd after) k = PyDict.get (snd before) k)
         /\ (Images.has_image (snd before) = true -> snd after = snd before)
         /\ (Images.has_image (snd before) = false ->
             PyDict.get (snd after) (lit "image_path")
             = Some (JString (Images.image_path (fst before)))
             \/ PyDict.get (snd after) (lit "image_path")
                = Some (JString [])))
      players
      (fst (Images.main U sendable image_saved players st)).
Proof.
  intros U sendable image_saved players. unfold Images.main.
  induction players as [|[player_name data] rest IH]; intros st;
    cbn [Images.main_loop].
  - constructor.
  - destruct (Images.has_image data) eqn:Himg.
    + specialize (IH st).
      destruct (Images.main_loop U sendable image_saved rest st)
        as [rest' st']. cbn [fst] in *.
      constructor; [|exact IH]. cbn [fst snd].
      repeat split; auto. congruence.
    + destruct (Images.download_image _ _ _ _ st) as [success st1].
      match goal with
      | |- context [Images.main_loop _ _ _ rest ?s] => specialize (IH s)
      end.
      destruct (Images.main_loop U sendable image_saved rest _)
        as [rest' st']. cbn [fst] in *.
      constructor; [|exact IH]. cbn [fst snd].
      split; [reflexivity|]. split; [|split].
      * intros k Hk. rewrite get_set, str_eqb_neq; auto.
      * intros Hhas. congruence.
      * intros _. rewrite get_set, str_eqb_refl.
        destruct success; auto.
Qed.

(** X19.  The metadata written back by the image collector names the
    image files of the run: the files written are, in order, the paths
    that the entries without an image have got. *)
Theorem image_paths_are_saved_files :
  forall (U : unicode_db) (sendable : json -> bool)
         (image_saved : response -> str -> bool)
         (players : dict (dict json)) (st : Images.state),
    let (players', st') := Images.main U sendable image_saved players st in
    Images.files st'
    = Images.files st ++ Images.new_images players players'.
Proof.
  intros U sendable image_saved players. unfold Images.main.
  induction players as [|[player_name data] rest IH]; intros st;
    cbn [Images.main_loop].
  - cbn [Images.new_images]. rewrite app_nil_r. reflexivity.
  - destruct (Images.has_image data) eqn:Himg.
    + specialize (IH st).
      destruct (Images.main_loop U sendable image_saved rest st)
        as [rest' st'].
      cbn [Images.new_images fst snd]. unfold Images.pending at 1.
      cbn [snd]. rewrite Himg. exact IH.
    + pose proof (ImagesFacts.download_image_effect sendable image_saved
                    (Images.image_url U player_name data)
                    (Images.image_path player_name) st) as Hdl.
      destruct (Images.download_image _ _ _ _ st) as [success st1].
      destruct Hdl as [Hfiles _].
      match goal with
      | |- context [Images.main_loop _ _ _ rest ?s] => specialize (IH s)
      end.
      destruct (Images.main_loop U sendable image_saved rest _)
        as [rest' st'].
      cbn [Images.new_images fst snd]. unfold Images.pending at 1.
      cbn [snd]. rewrite Himg, ImagesFacts.has_image_set.
      cbn [Images.files] in IH. rewrite IH, Hfiles, <- app_assoc.
      destruct success; reflexivity.
Qed.

(** X20.  The pace of the image collector: for every entry without an
    image, in the order of the file, it sends one request when the
    address can be sent, none otherwise, and then sleeps two seconds,
    also after the last entry; entries that have an image cost nothing,
    and nothing else happens.  So a run sleeps two seconds for each
    entry without an image and makes at most as many requests. *)
Theorem image_collector_pacing :
  forall (U : unicode_db) (sendable : json -> bool)
         (image_saved : response -> str -> bool)
         (players : dict (dict json)) (st : Images.state),
    let todo := List.length (filter Images.pending players) in
    let st' := snd (Images.main U sendable image_saved players st) in
    exists events,
      trace (Images.net st') = trace (Images.net st) ++ events
      /\ events
         = flat_map
             (fun entry =>
                (if sendable (Images.image_url U (fst entry) (snd entry))
                 then [Requested] else [])
                ++ [Slept Images.REQUEST_DELAY])
             (filter Images.pending players)
      /\ filter (fun e => negb (is_request e)) events
         = repeat (Slept Images.REQUEST_DELAY) todo
      /\ (List.length (filter is_request events) <= todo)%nat.
Proof.
  intros U sendable image_saved players. unfold Images.main. cbv zeta.
  induction players as [|[player_name data] rest IH]; intros st;
    cbn [Images.main_loop filter].
  - exists []. cbn. rewrite app_nil_r. auto.
  - change (Images.pending (player_name, data))
      with (negb (Images.has_image data)).
    destruct (Images.has_image data) eqn:Himg; cbn [negb].
    + specialize (IH st).
      destruct (Images.main_loop U sendable image_saved rest st)
        as [rest' st']. cbn [snd] in IH |- *. exact IH.
    + pose proof (ImagesFacts.download_image_effect sendable image_saved
                    (Images.image_url U player_name data)
                    (Images.image_path player_name) st) as Hdl.
      destruct (Images.download_image _ _ _ _ st) as [success st1].
      destruct Hdl as [_ Htr].
      match goal with
      | |- context [Images.main_loop _ _ _ rest ?s] => specialize (IH s)
      end.
      destruct (Images.main_loop U sendable image_saved rest _)
        as [rest' st'].
      cbn [snd Images.net trace sleep] in IH |- *.
      destruct IH as (events & He & Hev & Hs & Hr).
      rewrite Htr in He.
      exists (((if sendable (Images.image_url U player_name data)
                then [Requested] else [])
               ++ [Slept Images.REQUEST_DELAY]) ++ events).
      rewrite He, <- !app_assoc. split; [reflexivity|].
      cbn [flat_map fst snd]. rewrite <- Hev, <- !app_assoc.
      split; [reflexivity|].
      destruct (sendable (Images.image_url U player_name data));
        cbn [app filter is_request negb repeat List.length];
        rewrite Hs; split; try reflexivity; lia.
Qed.

Example image_collector_example :
  let players :=
    [(lit "Virat Kohli", [(lit "image_path", JString (lit "a.jpg"))]);
     (lit "MS Dhoni", [(lit "image_url", JNumber 7)]);
     (lit "Joe Root", [(lit "role", JString (lit "Batter"))])] in
  let sendable := fun url => match url with JString _ => true | _ => false end in
  let st :=
    {| Images.net :=
         {| clock := 0; last_request_ts := 0;
            script := [Answers 1 {| status_code := 200; text := lit "jpeg" |}];
            trace := [] |};
       Images.files := [] |} in
  let result :=
    Images.main ascii_db sendable (fun _ _ => true) players st in
  trace (Images.net (snd result))
  = [Slept 2; Requested; Slept 2]
  /\ Images.files (snd result) = [lit "data/images/Joe_Root.jpg"]
  /\ fst result
     = [(lit "Virat Kohli", [(lit "image_path", JString (lit "a.jpg"))]);
        (lit "MS Dhoni",
         [(lit "image_url", JNumber 7); (lit "image_path", JString [])]);
        (lit "Joe Root",
         [(lit "role", JString (lit "Batter"));
          (lit "image_path", JString (lit "data/images/Joe_Root.jpg"))])].
Proof. vm_compute. repeat split; reflexivity. Qed.

(** ** The profile page of the auction builder *)

Lemma draw_loop_chars (P : char -> Prop) stringWidth width x ws :
  P space ->
  forall y canvas line,
    Forall (fun d => Forall P (drawn d)) canvas ->
    Forall P line -> Forall (Forall P) ws ->
    Forall (fun d => Forall P (drawn d))
      (fst (draw_loop stringWidth width x y canvas line ws)).
Proof.
  intros Hsp. induction ws as [|w ws IH]; intros y canvas line Hc Hl Hws;
    cbn [draw_loop]; cbv zeta.
  - cbn [fst]. apply Forall_app. split; [exact Hc|].
    constructor; [exact Hl | constructor].
  - inversion Hws as [|? ? Hw Hws']; subst.
    destruct (fits stringWidth width (line ++ [space] ++ w)).
    + apply IH; auto. apply Forall_app. split; [exact Hl|].
      constructor; assumption.
    + apply IH; auto. apply Forall_app. split; [exact Hc|].
      constructor; [exact Hl | constructor].
Qed.

Lemma split_chars (P : char -> Prop) text :
  Forall P text -> Forall (Forall P) (split text).
Proof.
  intros Ht. apply Forall_forall. intros w Hw.
  apply Forall_forall. intros c Hc.
  destruct (split_from_chars _ _ _ _ Hw Hc) as [[]|Hin].
  eapply Forall_forall in Ht; eauto.
Qed.

Lemma printable_ascii_lit (s : str) :
  forallb (fun c => (32 <=? c) && (c <=? 126))%N s = true ->
  Forall printable_ascii s.
Proof.
  intros H. apply Forall_forall. intros c Hc.
  eapply forallb_forall in H; [|exact Hc].
  apply andb_true_iff in H as [H1 H2].
  apply N.leb_le in H1. apply N.leb_le in H2.
  unfold printable_ascii. lia.
Qed.

Section AuctionPdfFacts.

Variable U : unicode_db.
Variable stringWidth : str -> Q.

Lemma draw_wrapped_on_printable c text x y width :
  Forall draws_printable c -> Forall printable_ascii text ->
  Forall draws_printable
    (fst (Auction.draw_wrapped_on stringWidth c text x y width)).
Proof.
  intros Hc Ht. unfold Auction.draw_wrapped_on.
  assert (Hl : Forall (fun d => Forall printable_ascii (drawn d))
                 (fst (draw_wrapped stringWidth [] text x y width))).
  { unfold draw_wrapped. pose proof (split_chars Ht) as Hws.
    destruct (split text) as [|w0 ws]; [constructor|].
    inversion Hws; subst.
    apply draw_loop_chars; auto.
    unfold printable_ascii, space. lia. }
  destruct (draw_wrapped stringWidth [] text x y width) as [lines y'].
  cbn [fst] in *. apply Forall_app. split; [exact Hc|].
  apply Forall_map. exact Hl.
Qed.

Lemma draw_basics_printable text_x basics : forall c yy,
  Forall draws_printable c -> Forall (Forall printable_ascii) basics ->
  Forall draws_printable (Auction.draw_basics text_x basics c yy).
Proof.
  induction basics as [|line rest IH]; intros c yy Hc Hb;
    cbn [Auction.draw_basics]; [exact Hc|].
  inversion Hb; subst. apply IH; [|assumption].
  apply Forall_app. split; [exact Hc|]. constructor; [assumption|constructor].
Qed.

Lemma draw_stats_printable x width items : forall c y,
  Forall draws_printable c ->
  Forall draws_printable (fst (Auction.draw_stats U stringWidth x width items c y)).
Proof.
  induction items as [|[label value] rest IH]; intros c y Hc;
    cbn [Auction.draw_stats]; [exact Hc|].
  destruct (truthy value); [|apply IH, Hc].
  pose proof (@draw_wrapped_on_printable c
                (sanitize_for_pdf U (label ++ lit ": " ++ value)) x y width
                Hc (sanitize_for_pdf_range U _)) as Hd.
  destruct (Auction.draw_wrapped_on _ _ _ _ _ _) as [c1 y1]. cbn [fst] in Hd.
  destruct (Qless y1 _); apply IH; [|exact Hd].
  apply Forall_app. split; [exact Hd|]. repeat constructor.
Qed.

End AuctionPdfFacts.

Ltac ops_printable :=
  repeat first
    [ assumption
    | apply Forall_app; split
    | apply Forall_nil
    | apply Forall_cons;
      [ cbn [draws_printable];
        first [ exact I
              | apply sanitize_for_pdf_range
              | apply printable_ascii_lit; reflexivity ]
      | ] ].

(** X21.  Every string that [write_pdf] of the auction builder draws
    consists of printable ASCII characters, whatever the player record
    holds: the title, the seven basic lines, the headings and every
    wrapped line of the summary, of the statistics and of the source
    line.  The page fails to be drawn only when the image file exists
    and cannot be read as an image. *)
Theorem write_pdf_draws_printable_ascii :
  forall (U : unicode_db) (stringWidth : str -> Q)
         (path_exists image_readable : str -> bool) (utcnow_isoformat : str)
         (p : Auction.player) (image_path : str),
    match Auction.write_pdf U stringWidth path_exists image_readable
            utcnow_isoformat p image_path with
    | Some ops => Forall draws_printable ops
    | None =>
        image_path <> [] /\ path_exists image_path = true
        /\ image_readable image_path = false
    end.
Proof.
  intros U stringWidth path_exists image_readable utcnow_isoformat p image_path.
  unfold Auction.write_pdf. cbv zeta.
  assert (Hfail : truthy image_path && path_exists image_path
                  && negb (image_readable image_path) = true ->
                  image_path <> [] /\ path_exists image_path = true
                  /\ image_readable image_path = false).
  { intros H. apply andb_true_iff in H as [H Hr].
    apply andb_true_iff in H as [Ht He]. apply negb_true_iff in Hr.
    repeat split; auto. intros ->. discriminate Ht. }
  destruct (truthy image_path && path_exists image_path
            && negb (image_readable image_path)); [auto|]. clear Hfail.
  set (text_x := if truthy image_path && path_exists image_path
                 then _ else _).
  set (c0 := if truthy image_path && path_exists image_path
             then _ else _).
  assert (Hc0 : Forall draws_printable c0).
  { subst c0. destruct (truthy image_path && path_exists image_path);
      ops_printable. }
  clearbody c0 text_x.
  match goal with
  | |- context [Auction.draw_basics ?tx ?bs ?c ?y] =>
      assert (Hbasics : Forall draws_printable (Auction.draw_basics tx bs c y));
      [ apply draw_basics_printable;
        [ ops_printable
        | repeat (apply Forall_cons; [apply sanitize_for_pdf_range|]);
          apply Forall_nil ]
      | set (c1 := Auction.draw_basics tx bs c y) in * ]
  end.
  clearbody c1.
  match goal with
  | |- context [Auction.draw_wrapped_on ?sw ?c ?t ?x ?y ?w] =>
      assert (Hsum : Forall draws_printable
                       (fst (Auction.draw_wrapped_on sw c t x y w)));
      [ apply draw_wrapped_on_printable;
        [ ops_printable | apply sanitize_for_pdf_range ]
      | destruct (Auction.draw_wrapped_on sw c t x y w) as [c2 y2] ]
  end.
  cbn [fst] in Hsum.
  set (stats := match Auction.espn_stats p with
                | Some (_ :: _) => _
                | _ => _
                end).
  assert (Hstats : Forall draws_printable (fst stats)).
  { subst stats. destruct (Auction.espn_stats p) as [[|kv kvs]|];
      try exact Hsum.
    match goal with
    | |- context [Auction.draw_stats ?U ?sw ?x ?w ?items ?c ?y] =>
        pose proof (@draw_stats_printable U sw x w items c y) as Hd;
        destruct (Auction.draw_stats U sw x w items c y) as [c3 y3]
    end.
    cbn [fst] in *. apply Hd. ops_printable. }
  destruct stats as [c3 y3]. cbn [fst] in Hstats.
  match goal with
  | |- context [Auction.draw_wrapped_on ?sw ?c ?t ?x ?y ?w] =>
      assert (Hsrc : Forall draws_printable
                       (fst (Auction.draw_wrapped_on sw c t x y w)));
      [ apply draw_wrapped_on_printable;
        [ ops_printable | apply sanitize_for_pdf_range ]
      | destruct (Auction.draw_wrapped_on sw c t x y w) as [c4 y4] ]
  end.
  cbn [fst] in Hsrc.
  ops_printable.
Qed.
